(** * MediRound: the overdue-check and hourly-bucketing core of [src/App.jsx]

    A shallow embedding of [parseCheckTime], [getCheckInsArray],
    [getLastCheck], [isPatientOverdue], the slot loop of [RoundingGraph] and
    [hasCheckInInSlot], followed by the properties the specification states
    about them.

    Conventions of the embedding.
    - A JavaScript string is a [string]; each character stands for one UTF-16
      code unit (the code units 0..255).  Every string operation of the
      program works code unit by code unit, so nothing depends on the range.
    - A time value (what [Date.prototype.getTime] returns) is an integer
      number of milliseconds, a [Z].  An invalid date is [None].  The range
      check of [TimeClip] is not modelled.
    - A finite JavaScript number is a rational, a [Q]; [NaN] is [None]
      where a conversion can produce it.  The two arithmetic operations of
      the program, a subtraction and the division by [1000 * 60], are
      rounded to double precision by [roundDouble].
    - What the JavaScript engine and its environment decide (the date parser,
      the locale's date format, the local time zone, the conversion of
      strings and objects to numbers) is a [Variable] of a [Section]. *)

From Stdlib Require Import Bool Ascii String List ZArith QArith Qround Lia.
From Stdlib Require Import Qpower Qabs Lqa Permutation Sorted.
Import ListNotations.

Local Open Scope string_scope.
Local Open Scope Z_scope.

Set Warnings "-register-all".

(** ** Values *)

(** The data of a Firestore document as the program sees it.  The property
    list of an object is in the order [Object.values] enumerates it; its keys
    are pairwise distinct.  An object is a map of the document: a plain
    object whose own properties are data, none of them callable.  The
    timestamps, references and geographic points of Firestore, which are
    instances of classes, are not values of this type. *)
Inductive value : Type :=
| VUndefined
| VNull
| VBool (b : bool)
| VNum (x : Q)
| VStr (s : string)
| VArr (elems : list value)
| VObj (props : list (string * value)).

(** A synchronous computation that can throw. *)
Inductive result (A : Type) : Type :=
| Ok (a : A)
| TypeError.
Arguments Ok {A} a.
Arguments TypeError {A}.

(** How the drawing of a page ends: it is drawn, the component throws a
    [TypeError] while it builds its elements, or React refuses a child. *)
Inductive drawn (A : Type) : Type :=
| Drawn (a : A)
| Thrown
| Refused.
Arguments Drawn {A} a.
Arguments Thrown {A}.
Arguments Refused {A}.

Definition bind {A B : Type} (m : result A) (k : A -> result B) : result B :=
  match m with
  | Ok a => k a
  | TypeError => TypeError
  end.

Notation "x <- m ;; k" := (bind m (fun x => k))
  (at level 61, m at next level, right associativity).

(** [ToBoolean]. *)
Definition truthy (v : value) : bool :=
  match v with
  | VUndefined | VNull => false
  | VBool b => b
  | VNum x => negb (Qeq_bool x 0)
  | VStr s => negb (s =? "")%string
  | VArr _ | VObj _ => true
  end.

Definition nullish (v : value) : bool :=
  match v with
  | VUndefined | VNull => true
  | _ => false
  end.

(** [a || b]. *)
Definition or_else (a b : value) : value := if truthy a then a else b.

Fixpoint lookup (k : string) (props : list (string * value)) : value :=
  match props with
  | [] => VUndefined
  | (k', v) :: rest => if (k =? k')%string then v else lookup k rest
  end.

(** [v.k] on a value that is neither [null] nor [undefined].  The program
    reads the properties [checkIns], [checkInInterval], [time] and [staff];
    none of them exists on a boolean, a number, a string or an array. *)
Definition prop (v : value) (k : string) : value :=
  match v with
  | VObj props => lookup k props
  | _ => VUndefined
  end.

(** [v.k] in general: reading a property of [null] or [undefined] throws. *)
Definition get (v : value) (k : string) : result value :=
  if nullish v then TypeError else Ok (prop v k).

(** [k in o] for the own properties of an object. *)
Definition hasKey (k : string) (o : list (string * value)) : bool :=
  existsb (fun kv => (fst kv =? k)%string) o.

(** ** Double precision

    The result of an arithmetic operation on numbers is the exact result
    rounded to the nearest number with a significand of 53 bits, a tie
    going to the even significand.  The exponent is not bounded here: the
    quotients of the program are far from the overflow and underflow of
    the format. *)

(** [2^e] for an integer [e]. *)
Definition pow2 (e : Z) : Q := (2 ^ e)%Q.

(** The nearest integer, a tie going to the even one. *)
Definition roundHalfEven (y : Q) : Z :=
  let f := Qfloor y in
  match (y - inject_Z f ?= 1 # 2)%Q with
  | Lt => f
  | Gt => f + 1
  | Eq => if Z.even f then f else f + 1
  end.

(** [floor (log2 x)] for a positive [x]. *)
Definition log2Q (x : Q) : Z :=
  let l := Z.log2 (Qnum x) - Z.log2 (Z.pos (Qden x)) in
  if Qle_bool (pow2 l) x then l else l - 1.

(** A positive number rounded to 53 significant bits. *)
Definition roundPositive (x : Q) : Q :=
  let e := log2Q x - 52 in
  (inject_Z (roundHalfEven (x / pow2 e)) * pow2 e)%Q.

Definition roundDouble (x : Q) : Q :=
  match (x ?= 0)%Q with
  | Eq => 0%Q
  | Gt => roundPositive x
  | Lt => (- roundPositive (- x))%Q
  end.

(** ** String replacement *)

Fixpoint drop (n : nat) (s : string) : string :=
  match n, s with
  | O, _ => s
  | S n', String _ s' => drop n' s'
  | S _, EmptyString => EmptyString
  end.

(** [String.prototype.replace] without the [g] flag: the text is rewritten
    at the first position where the pattern matches, and only there.
    [step] is the match at the front of a string: the replacement followed
    by what comes after the match, or [None]. *)
Fixpoint replaceAtFirst (step : string -> option string) (s : string)
  : string :=
  match step s with
  | Some r => r
  | None =>
      match s with
      | EmptyString => EmptyString
      | String c s' => String c (replaceAtFirst step s')
      end
  end.

(** [s.replace(pat, rep)] for a string pattern and a replacement without
    [$]. *)
Definition replaceFirst (pat rep s : string) : string :=
  replaceAtFirst
    (fun s' => if prefix pat s'
               then Some (rep ++ drop (String.length pat) s')
               else None)
    s.

Definition isDigit (c : ascii) : bool :=
  let n := nat_of_ascii c in (48 <=? n)%nat && (n <=? 57)%nat.

Definition isSign (c : ascii) : bool :=
  (c =? "+")%char || (c =? "-")%char.

(** The greedy [\d*]: the digits at the front of [s] and what follows. *)
Fixpoint spanDigits (s : string) : string * string :=
  match s with
  | String c s' =>
      if isDigit c
      then let (ds, rest) := spanDigits s' in (String c ds, rest)
      else (EmptyString, s)
  | EmptyString => (EmptyString, EmptyString)
  end.

(** A match of [/UTC([+-]\d+)/] at the front of [s]: the capture group and
    the text after the match. *)
Definition matchUTC (s : string) : option (string * string) :=
  match s with
  | String "U" (String "T" (String "C" (String sg s'))) =>
      if isSign sg
      then match spanDigits s' with
           | (String d ds, rest) => Some (String sg (String d ds), rest)
           | (EmptyString, _) => None
           end
      else None
  | _ => None
  end.

(** [s.replace(/UTC([+-]\d+)/, "GMT$1")]: the expression has no [g] flag
    and no anchor. *)
Definition replaceUTC (s : string) : string :=
  replaceAtFirst
    (fun s' => match matchUTC s' with
               | Some (group1, rest) => Some ("GMT" ++ group1 ++ rest)
               | None => None
               end)
    s.

(** The string [parseCheckTime] hands to [new Date]. *)
Definition cleaned (str : string) : string :=
  replaceUTC (replaceFirst " at " " " str).

(** *** What a replacement of the first occurrence is

    The declarative reading the program is compared with: [P] says that an
    occurrence starts at the front of a string. *)

Definition startsWith (pat s : string) : Prop :=
  exists rest, s = pat ++ rest.

(** [UTC], a sign and at least one digit start at the front of [s]. *)
Definition markerAtFront (s : string) : Prop :=
  exists sg d rest,
    isSign sg = true /\ isDigit d = true /\
    s = "UTC" ++ String sg (String d rest).

Definition noneAt (P : string -> Prop) (s : string) : Prop :=
  forall p1 p2, s = p1 ++ p2 -> ~ P p2.

Definition firstAt (P : string -> Prop) (pre suf : string) : Prop :=
  P suf /\
  forall p1 p2, pre = p1 ++ p2 -> p2 <> "" -> ~ P (p2 ++ suf).

(** [s'] is [s] with [old] replaced by [new] at the first occurrence, and
    [s] itself when there is none. *)
Definition replacesFirst (P : string -> Prop) (old new s s' : string) : Prop :=
  (noneAt P s /\ s' = s) \/
  (exists pre post,
      s = pre ++ old ++ post /\ firstAt P pre (old ++ post) /\
      s' = pre ++ new ++ post).

(** The substitution as the specification words it: the marker is replaced
    where it ends the string, [/UTC([+-]\d+)$/]. *)
Definition replaceTrailingUTC (s : string) : string :=
  replaceAtFirst
    (fun s' => match matchUTC s' with
               | Some (group1, EmptyString) => Some ("GMT" ++ group1)
               | _ => None
               end)
    s.

Definition cleanedAsSpecified (str : string) : string :=
  replaceTrailingUTC (replaceFirst " at " " " str).

(** ** Sample environments

    Concrete engines on which the statements below are exercised. *)

(** A date parser that knows a few strings of the Firestore console. *)
Definition sampleDates : list (string * Z) :=
  [ ("November 20, 2025 12:55:25 AM GMT-5", 1763618125000);
    ("November 20, 2025 2:00:00 AM GMT-5", 1763622000000);
    ("November 20, 2025 3:55:00 AM GMT-5", 1763628900000);
    ("November 20, 2025 4:00:00 AM GMT-5", 1763629200000) ].

Fixpoint assocZ (k : string) (l : list (string * Z)) : option Z :=
  match l with
  | [] => None
  | (k', z) :: rest => if (k =? k')%string then Some z else assocZ k rest
  end.

Definition sampleDateParse (s : string) : option Z := assocZ s sampleDates.

Definition sampleLocaleString (t : Z) : string :=
  if t =? 1763618125000 then "11/20/2025, 12:55:25 AM" else "a date".

Definition sampleStringToNumber (s : string) : option Q :=
  if (s =? "60")%string then Some 60%Q else None.

(** [ToNumber] on an object: a map with a [toString] field of its own
    (which is not callable) cannot be converted and the conversion throws;
    the other objects of the samples give [NaN]. *)
Definition sampleObjectToNumber (v : value) : result (option Q) :=
  match v with
  | VObj props => if hasKey "toString" props then TypeError else Ok None
  | _ => Ok None
  end.

(** A zone with the same offset all year. *)
Definition fixedTZA (offset : Z) (t : Z) (isUTC : bool) : Z := offset.

(** America/New_York around 2 November 2025: daylight time (UTC-4) ends at
    06:00 UTC, when the clocks go back from 2:00 to 1:00.  A local time that
    occurs twice is read with the offset in force before the transition. *)
Definition fallBackInstant : Z := 1762063200000.

Definition newYorkTZA (t : Z) (isUTC : bool) : Z :=
  if isUTC
  then if t <? fallBackInstant then -14400000 else -18000000
  else if t <? fallBackInstant - 14400000 then -14400000 else -18000000.

(** A patient checked at 2:00 by A and at 3:55 by B, every 60 minutes. *)
Definition entryA : value :=
  VObj [("time", VStr "November 20, 2025 at 2:00:00 AM UTC-5");
        ("staff", VStr "A")].

Definition entryB : value :=
  VObj [("time", VStr "November 20, 2025 at 3:55:00 AM UTC-5");
        ("staff", VStr "B")].

Definition samplePatient : value :=
  VObj [("name", VStr "Ann"); ("location", VStr "Room 4");
        ("checkInInterval", VNum 60);
        ("checkIns", VArr [entryA; entryB])].

(** The same check-ins as a keyed mapping, most recent first. *)
Definition samplePatientKeyed : value :=
  VObj [("name", VStr "Ann"); ("checkInInterval", VNum 60);
        ("checkIns", VObj [("k2", entryB); ("k1", entryA)])].

(** Another document with the check-ins and the interval of
    [samplePatient]. *)
Definition samplePatientOther : value :=
  VObj [("checkIns", VObj [("a", entryA); ("b", entryB)]);
        ("name", VStr "Bob"); ("comments", VStr "none");
        ("checkInInterval", VNum 60)].

(** A patient none of whose entries has a [time] the parser accepts. *)
Definition samplePatientUnparsed : value :=
  VObj [("checkInInterval", VNum 30);
        ("checkIns", VArr [VObj [("time", VStr "garbage")];
                           VObj [("staff", VStr "C")]])].

(** 4:00:00 AM GMT-5 on 20 November 2025. *)
Definition sampleNow : Z := 1763629200000.

(** The number that the literal [0.3] denotes: [5404319552844595 * 2^-54],
    a little less than three tenths. *)
Definition double03 : Q := 5404319552844595 # 18014398509481984.


(** A patient whose [checkInInterval] is a map with a field [toString]. *)
Definition samplePatientMapInterval : value :=
  VObj [("name", VStr "Ann");
        ("checkInInterval", VObj [("toString", VStr "sixty")]);
        ("checkIns", VArr [entryA; entryB])].

(** A second check at 3:55, by C, and an entry without a usable time. *)
Definition entryC : value :=
  VObj [("time", VStr "November 20, 2025 at 3:55:00 AM UTC-5");
        ("staff", VStr "C")].

Definition entryGarbage : value := VObj [("time", VStr "garbage")].

Definition samplePatientTie : value :=
  VObj [("name", VStr "Ann"); ("checkInInterval", VNum 60);
        ("checkIns", VArr [entryA; entryB; entryC])].

Definition samplePatientWithGarbage : value :=
  VObj [("name", VStr "Ann"); ("checkInInterval", VNum 60);
        ("checkIns", VArr [entryA; entryGarbage; entryB])].

Definition samplePatients : list value :=
  [samplePatient; samplePatientUnparsed; samplePatientTie].

(** A clock that advances by one millisecond from one call to the next. *)
Definition sampleNowAt (i : nat) : Z := sampleNow + Z.of_nat i.

Definition sampleNumberToString (x : Q) : string :=
  if Qeq_bool x 60 then "60" else if Qeq_bool x 30 then "30" else "0".

Definition sampleManager : value :=
  VObj [("name", VStr "Max"); ("email", VStr "max@example.org");
        ("role", VStr "Manager")].

Definition sampleUsers : list (list (string * value)) :=
  [ [("id", VStr "u1"); ("name", VStr "Max"); ("role", VStr "Manager")];
    [("id", VStr "u2"); ("name", VStr "Sam")] ].

Definition sampleDocument : list (string * value) :=
  [("name", VStr "Ann"); ("location", VStr "Room 4");
   ("checkInInterval", VNum 60);
   ("checkIns", VArr [entryA; entryB])].

(** The same clock two hours later. *)
Definition sampleLaterAt (i : nat) : Z := sampleNowAt i + 7200000.

(** A signed-in user and the session of a manager. *)
Definition sampleUser : value :=
  VObj [("uid", VStr "u1"); ("email", VStr "max@example.org")].

(** ** The program *)

Section Engine.

Set Default Proof Using "Type".

(** [new Date(s).getTime()]: the engine's date parser; [None] is [NaN]. *)
Variable dateParse : string -> option Z.

(** [Date.prototype.toLocaleString] on a valid date. *)
Variable toLocaleString : Z -> string.

(** [ToNumber] on a string, and on an array or object; [None] is [NaN].
    The conversion of an array or object goes through [ToPrimitive], which
    throws a [TypeError] when neither [valueOf] nor [toString] gives a
    primitive value, as on a map with a field [toString] of its own. *)
Variable stringToNumber : string -> option Q.
Variable objectToNumber : value -> result (option Q).

(** [LocalTZA(t, isUTC)]: the offset of the local time zone in
    milliseconds, at the instant [t] when [isUTC] is [true], at the local
    time [t] when it is [false]. *)
Variable localTZA : Z -> bool -> Z.

Definition typeofString (v : value) : bool :=
  match v with
  | VStr _ => true
  | _ => false
  end.

(** [parseCheckTime(str)]: the time value of the parsed date, or [None]
    for [null].  Nothing in the [try] block throws on a string, so the
    [catch] branch is not reached. *)
Definition parseCheckTime (str : value) : option Z :=
  if negb (truthy str) || negb (typeofString str) then None
  else match str with
       | VStr s => dateParse (cleaned s)
       | _ => None
       end.

(** [Object.values(v)] on a value that is neither [null] nor [undefined]:
    the own enumerable property values; for a string its code units, each
    as a string of length one. *)
Fixpoint chars (s : string) : list value :=
  match s with
  | EmptyString => []
  | String c s' => VStr (String c EmptyString) :: chars s'
  end.

Definition objectValues (v : value) : list value :=
  match v with
  | VObj props => map snd props
  | VArr elems => elems
  | VStr s => chars s
  | _ => []
  end.

Definition isArray (v : value) : bool :=
  match v with
  | VArr _ => true
  | _ => false
  end.

(** The array itself, as the list of its elements. *)
Definition elements (v : value) : list value :=
  match v with
  | VArr elems => elems
  | _ => []
  end.

(** [getCheckInsArray(patient)].  [patient.checkIns] is read only when
    [patient] is truthy, so the read cannot throw; the same holds for
    [Object.values]. *)
Definition getCheckInsArray (patient : value) : list value :=
  if negb (truthy patient) || negb (truthy (prop patient "checkIns"))
  then []
  else if isArray (prop patient "checkIns")
       then elements (prop patient "checkIns")
       else objectValues (prop patient "checkIns").

(** [arr.map(f)] with a callback that can throw. *)
Fixpoint mapM {A B : Type} (f : A -> result B) (l : list A)
  : result (list B) :=
  match l with
  | [] => Ok []
  | x :: l' => y <- f x ;; ys <- mapM f l' ;; Ok (y :: ys)
  end.

(** [arr.filter(Boolean)] on an array of objects and [null]s. *)
Fixpoint filterBoolean {A : Type} (l : list (option A)) : list A :=
  match l with
  | [] => []
  | Some a :: l' => a :: filterBoolean l'
  | None :: l' => filterBoolean l'
  end.

(** [arr.sort(cmp)]: a stable sort (ECMAScript 2019); [cmp a b <= 0] keeps
    [a] before [b]. *)
Fixpoint insertBy {A : Type} (cmp : A -> A -> Z) (x : A) (l : list A)
  : list A :=
  match l with
  | [] => [x]
  | y :: l' => if cmp x y <=? 0 then x :: l else y :: insertBy cmp x l'
  end.

Definition sortBy {A : Type} (cmp : A -> A -> Z) (l : list A) : list A :=
  fold_right (insertBy cmp) [] l.

(** [{ ...entry, date }].  The spread keeps the own properties of [entry];
    the only one read afterwards is [staff]. *)
Record parsedEntry : Type := mkParsed { parsed_entry : value; parsed_date : Z }.

(** The object [getLastCheck] returns. *)
Record lastCheck : Type := mkLastCheck {
  display : string;
  date : option Z;
  staff : value;
  isOverdue : bool
}.

Definition noneResult : lastCheck :=
  {| display := "None"; date := None; staff := VStr ""; isOverdue := true |}.

Definition toNumber (v : value) : result (option Q) :=
  match v with
  | VUndefined => Ok None
  | VNull => Ok (Some 0%Q)
  | VBool b => Ok (Some (if b then 1%Q else 0%Q))
  | VNum x => Ok (Some x)
  | VStr s => Ok (stringToNumber s)
  | VArr _ | VObj _ => objectToNumber v
  end.

Definition Qltb (x y : Q) : bool := negb (Qle_bool y x).

(** [a > y] for two numbers, [y] possibly [NaN]. *)
Definition gtNumber (a : Q) (y : option Q) : bool :=
  match y with
  | Some y => Qltb y a
  | None => false
  end.

(** [a > b] with a number on the left: [b] is converted to a number, which
    can throw, and the comparison with [NaN] is false. *)
Definition gt (a : Q) (b : value) : result bool :=
  y <- toNumber b ;; Ok (gtNumber a y).

(** [(Date.now() - latest.date.getTime()) / (1000 * 60)] for the time
    values [now] and [t]: the difference and the quotient are rounded. *)
Definition minutesSince (now t : Z) : Q :=
  roundDouble (roundDouble (inject_Z (now - t)) / inject_Z (1000 * 60)).

Definition parseEntry (entry : value) : result (option parsedEntry) :=
  time <- get entry "time" ;;
  match parseCheckTime time with
  | Some d => Ok (Some {| parsed_entry := entry; parsed_date := d |})
  | None => Ok None
  end.

(** [getLastCheck(patient)], with [Date.now()] as the argument [now]. *)
Definition getLastCheck (patient : value) (now : Z) : result lastCheck :=
  let arr := getCheckInsArray patient in
  if (List.length arr =? 0)%nat then Ok noneResult
  else
    mapped <- mapM parseEntry arr ;;
    let parsed :=
      sortBy (fun a b => parsed_date b - parsed_date a)
             (filterBoolean mapped) in
    match parsed with
    | [] => Ok noneResult
    | latest :: _ =>
        checkInInterval <- get patient "checkInInterval" ;;
        let interval := or_else checkInInterval (VNum 0) in
        late <- gt (minutesSince now (parsed_date latest)) interval ;;
        Ok {| display := toLocaleString (parsed_date latest);
              date := Some (parsed_date latest);
              staff := or_else (prop (parsed_entry latest) "staff") (VStr "");
              isOverdue := late |}
    end.

Definition isPatientOverdue (patient : value) (now : Z) : result bool :=
  r <- getLastCheck patient now ;; Ok (isOverdue r).

(** *** Rounding graph *)

Definition msPerHour : Z := 3600000.
Definition msPerDay : Z := 86400000.

Definition day (t : Z) : Z := t / msPerDay.
Definition hourFromTime (t : Z) : Z := (t / msPerHour) mod 24.
Definition makeTime (hour min sec ms : Z) : Z :=
  hour * msPerHour + min * 60000 + sec * 1000 + ms.
Definition makeDate (d time : Z) : Z := d * msPerDay + time.
Definition localTime (t : Z) : Z := t + localTZA t true.
Definition utc (t : Z) : Z := t - localTZA t false.

(** [d.setMinutes(0, 0, 0)] on a date of time value [t]: the minutes,
    seconds and milliseconds of the local time are set to zero. *)
Definition setMinutes000 (t : Z) : Z :=
  let tl := localTime t in
  utc (makeDate (day tl) (makeTime (hourFromTime tl) 0 0 0)).

(** The iterations [i, i-1, ..., 0] of the loop of [RoundingGraph]. *)
Fixpoint slotsFrom (now : Z) (i : nat) : list Z :=
  setMinutes000 (now - Z.of_nat i * 3600000) ::
  match i with
  | O => []
  | S j => slotsFrom now j
  end.

Definition buildSlots (now : Z) : list Z := slotsFrom now 23.

(** [arr.some(f)] with a callback that can throw: it stops at the first
    [true]. *)
Fixpoint someM {A : Type} (f : A -> result bool) (l : list A)
  : result bool :=
  match l with
  | [] => Ok false
  | x :: l' => b <- f x ;; if b then Ok true else someM f l'
  end.

(** [hasCheckInInSlot(patient, slot)], [slot] given by its time value. *)
Definition hasCheckInInSlot (patient : value) (slot : Z) : result bool :=
  let start := slot in
  let end_ := start + 3600000 in
  someM (fun ci =>
           time <- get ci "time" ;;
           match parseCheckTime time with
           | None => Ok false
           | Some t => Ok ((start <=? t) && (t <? end_))
           end)
        (getCheckInsArray patient).

(** *** What the specification says of the slots *)

Definition hourSpaced (slots : list Z) : Prop :=
  forall i a b,
    nth_error slots i = Some a -> nth_error slots (S i) = Some b ->
    b = a + 3600000.

(** The local time of [t] is at the top of an hour. *)
Definition topOfHour (t : Z) : Prop := localTime t mod msPerHour = 0.

Definition slotsAsSpecified (now : Z) (slots : list Z) : Prop :=
  List.length slots = 24%nat /\
  hourSpaced slots /\
  Forall topOfHour slots /\
  exists final, nth_error slots 23 = Some final /\
                final <= now /\ now - 3600000 < final.

(** No element is [null] or [undefined]: every element is an entry. *)
Definition allEntries (arr : list value) : bool :=
  forallb (fun v => negb (nullish v)) arr.

(** The instant of an entry, when its [time] normalizes. *)
Definition instantOf (entry : value) : option Z :=
  parseCheckTime (prop entry "time").

(** [latest.staff || ""] for the entry [entry]. *)
Definition staffOf (entry : value) : value :=
  or_else (prop entry "staff") (VStr "").


(** [patient.checkInInterval || 0]. *)
Definition intervalOf (patient : value) : value :=
  or_else (prop patient "checkInInterval") (VNum 0).

(** ** The pages

    The components that call the functions above: what they compute, and of
    what they render the part that is named with each definition. *)

(** [Date.now()] is read once in every call of [getLastCheck] that finds a
    check-in.  A page that calls it for each patient in turn may see the
    clock advance between two calls: [nowAt i] is the reading during the
    call for the patient of index [i]. *)

(** [Number::toString]. *)
Variable numberToString : Q -> string.

(** *** Loading the documents *)

(** [{ ...o, k: v }]: an own property keeps its place and takes the new
    value, a new one goes to the end. *)
Fixpoint setProp (k : string) (v : value) (o : list (string * value))
  : list (string * value) :=
  match o with
  | [] => [(k, v)]
  | (k', v') :: rest =>
      if (k =? k')%string then (k, v) :: rest
      else (k', v') :: setProp k v rest
  end.

(** The value of a string of decimal digits. *)
Fixpoint digitsValue (s : string) (acc : Z) : option Z :=
  match s with
  | EmptyString => Some acc
  | String c s' =>
      if isDigit c
      then digitsValue s' (acc * 10 + (Z.of_nat (nat_of_ascii c) - 48))
      else None
  end.

(** An array index: the digits of an integer below [2^32 - 1], without a
    leading zero.  An object enumerates the properties with such keys
    first, whenever they were created. *)
Definition isArrayIndex (k : string) : bool :=
  match k with
  | EmptyString => false
  | String c rest =>
      match digitsValue k 0 with
      | Some n =>
          (negb (c =? "0")%char || (rest =? "")%string) && (n <? 4294967295)
      | None => false
      end
  end.

(** [{ id: d.id, ...d.data() }], the callback of [snaps.docs.map] in every
    page: the properties of the data whose key is an array index come
    first, then [id], then the other properties of the data. *)
Definition withId (id : string) (data : list (string * value)) : value :=
  VObj (filter (fun kv => isArrayIndex (fst kv)) data ++
        fold_left (fun o kv => setProp (fst kv) (snd kv) o)
                  (filter (fun kv => negb (isArrayIndex (fst kv))) data)
                  [("id", VStr id)])%list.

(** *** Dashboard *)

(** [arr.filter(f)] with a callback that can throw and sees the index. *)
Fixpoint filteriM {A : Type} (f : nat -> A -> result bool) (i : nat)
         (l : list A) : result (list A) :=
  match l with
  | [] => Ok []
  | x :: l' =>
      b <- f i x ;;
      rest <- filteriM f (S i) l' ;;
      Ok (if b then x :: rest else rest)
  end.

Record dashboardCounts : Type := mkCounts {
  total : Z;
  overdue : Z;
  onTime : Z
}.

(** The three numbers of [Dashboard]. *)
Definition dashboard (patients : list value) (nowAt : nat -> Z)
  : result dashboardCounts :=
  let total := Z.of_nat (List.length patients) in
  kept <- filteriM (fun i p => isPatientOverdue p (nowAt i)) 0 patients ;;
  let overdue := Z.of_nat (List.length kept) in
  Ok {| total := total; overdue := overdue; onTime := total - overdue |}.

(** *** Check-ins list *)

Record checkinRow : Type := mkRow {
  row_patient : value;
  row_staff : value;
  row_timeStr : value;
  row_date : Z
}.

(** [arr.forEach(f)] where [f] grows an array and can throw. *)
Fixpoint forEachM {A S : Type} (f : S -> A -> result S) (l : list A)
         (acc : S) : result S :=
  match l with
  | [] => Ok acc
  | x :: l' => acc' <- f acc x ;; forEachM f l' acc'
  end.

(** The body of the inner [forEach] of [Checkins]; [rows] is the array
    [list] of the source. *)
Definition pushCheckin (p : value) (rows : list checkinRow) (ci : value)
  : result (list checkinRow) :=
  time <- get ci "time" ;;
  match parseCheckTime time with
  | None => Ok rows
  | Some date =>
      name <- get p "name" ;;
      staff <- get ci "staff" ;;
      timeStr <- get ci "time" ;;
      Ok (rows ++ [ {| row_patient := name;
                       row_staff := or_else staff (VStr "");
                       row_timeStr := timeStr;
                       row_date := date |} ])%list
  end.

(** The rows [Checkins] hands to [setRows]. *)
Definition checkinRows (pts : list value) : result (list checkinRow) :=
  rows <- forEachM (fun rows p =>
                      forEachM (pushCheckin p) (getCheckInsArray p) rows)
                   pts [] ;;
  Ok (sortBy (fun a b => row_date b - row_date a) rows).

(** *** Rounding graph *)

(** [s.getHours()], the label of a column. *)
Definition getHours (t : Z) : Z := hourFromTime (localTime t).

(** The cells of one patient: [slots.map(slot => hasCheckInInSlot(p, slot))]. *)
Definition gridRow (patient : value) (slots : list Z) : result (list bool) :=
  mapM (hasCheckInInSlot patient) slots.

(** *** Reports *)

Fixpoint joinStrings (sep : string) (l : list string) : string :=
  match l with
  | [] => ""
  | [x] => x
  | x :: (_ :: _) as rest => x ++ sep ++ joinStrings sep rest
  end.

(** [ToString].  An array is joined with commas, [undefined] and [null]
    elements giving nothing.  A map gives ["[object Object]"], unless it has
    a field [toString] of its own: the field is not callable and
    [ToPrimitive] throws. *)
Fixpoint toString (v : value) : result string :=
  match v with
  | VUndefined => Ok "undefined"
  | VNull => Ok "null"
  | VBool b => Ok (if b then "true" else "false")
  | VNum x => Ok (numberToString x)
  | VStr s => Ok s
  | VArr elems =>
      strs <- (fix texts (l : list value) : result (list string) :=
                 match l with
                 | [] => Ok []
                 | x :: l' =>
                     s <- match x with
                          | VUndefined | VNull => Ok ""
                          | _ => toString x
                          end ;;
                     ss <- texts l' ;;
                     Ok (s :: ss)
                 end) elems ;;
      Ok (joinStrings "," strs)
  | VObj props =>
      if hasKey "toString" props then TypeError else Ok "[object Object]"
  end.

(** The text of an element in [join]. *)
Definition cellText (v : value) : result string :=
  match v with
  | VUndefined | VNull => Ok ""
  | _ => toString v
  end.

(** [arr.join(sep)]. *)
Definition join (sep : string) (arr : list value) : result string :=
  strs <- mapM cellText arr ;; Ok (joinStrings sep strs).

Definition newline : string := String (ascii_of_nat 10) "".

Definition csvHeader : list value :=
  [VStr "Patient"; VStr "Location"; VStr "Interval"; VStr "Last Check";
   VStr "Last Staff"].

(** The body of the [forEach] of [exportCSV]. *)
Definition pushReportRow (nowAt : nat -> Z)
           (state : nat * list (list value)) (p : value)
  : result (nat * list (list value)) :=
  let (i, rows) := state in
  last <- getLastCheck p (nowAt i) ;;
  name <- get p "name" ;;
  location <- get p "location" ;;
  checkInInterval <- get p "checkInInterval" ;;
  Ok (S i, (rows ++ [[name; location; checkInInterval;
                      VStr (display last); staff last]])%list).

(** The text [exportCSV] puts in the downloaded file. *)
Definition exportCSV (patients : list value) (nowAt : nat -> Z)
  : result string :=
  state <- forEachM (pushReportRow nowAt) patients (O, [csvHeader]) ;;
  lines <- mapM (join ",") (snd state) ;;
  Ok (joinStrings newline lines).

(** *** Roles *)

(** [String.prototype.toLowerCase] on the code units 0..255: the letters
    A-Z and the capital letters of Latin-1. *)
Definition lowerUnit (c : ascii) : ascii :=
  let n := nat_of_ascii c in
  if ((65 <=? n)%nat && (n <=? 90)%nat)
     || ((192 <=? n)%nat && (n <=? 222)%nat && negb (n =? 215)%nat)
  then ascii_of_nat (n + 32)
  else c.

Fixpoint toLowerCase (s : string) : string :=
  match s with
  | EmptyString => EmptyString
  | String c s' => String (lowerUnit c) (toLowerCase s')
  end.

(** [profile?.role?.toLowerCase()]: calling [toLowerCase] on a role that is
    not a string throws. *)
Definition roleLower (profile : value) : result value :=
  if nullish profile then Ok VUndefined
  else if nullish (prop profile "role") then Ok VUndefined
       else match prop profile "role" with
            | VStr s => Ok (VStr (toLowerCase s))
            | _ => TypeError
            end.

(** [v === s] for a string [s]. *)
Definition strictEqString (v : value) (s : string) : bool :=
  match v with
  | VStr s' => (s' =? s)%string
  | _ => false
  end.

(** [profile?.role?.toLowerCase() === name]. *)
Definition hasRole (name : string) (profile : value) : result bool :=
  r <- roleLower profile ;; Ok (strictEqString r name).

(** The links of [Sidebar], each with its [to] and its [label]. *)
Definition sidebarLinks (profile : value) : result (list (string * string)) :=
  isAdmin <- hasRole "admin" profile ;;
  let links := [("/", "Dashboard"); ("/patients", "Patients");
                ("/rounding-graph", "Rounding Graph");
                ("/reports", "Reports")] in
  Ok (if isAdmin then (links ++ [("/users", "Users")])%list else links).

(** What [AdminUsers] decides from the profile; [refused] is the early
    return ["Admins or Managers only."]. *)
Record usersAccess : Type := mkAccess {
  isAdmin : bool;
  isManager : bool;
  canReset : bool;
  canChangeRole : bool;
  refused : bool
}.

Definition adminUsersAccess (profile : value) : result usersAccess :=
  isAdmin <- hasRole "admin" profile ;;
  isManager <- hasRole "manager" profile ;;
  Ok {| isAdmin := isAdmin;
        isManager := isManager;
        canReset := isAdmin || isManager;
        canChangeRole := isAdmin;
        refused := negb isAdmin && negb isManager |}.

(** The state update of [changeRole]:
    [prev.map(u => u.id === uid ? { ...u, role: newRole } : u)], for a [uid]
    that is a string.  The users are the objects [withId] builds. *)
Definition changeRole (uid : string) (newRole : value)
           (prev : list (list (string * value)))
  : list (list (string * value)) :=
  map (fun u => if strictEqString (lookup "id" u) uid
                then setProp "role" newRole u
                else u)
      prev.

(** *** Reference readings for the pages *)

(** What the callback of [map] in [getLastCheck] returns on an entry. *)
Definition parsedOf (entry : value) : option parsedEntry :=
  match instantOf entry with
  | Some d => Some {| parsed_entry := entry; parsed_date := d |}
  | None => None
  end.

(** The entries that normalize, each with its instant, in their order. *)
Definition validEntries (arr : list value) : list parsedEntry :=
  filterBoolean (map parsedOf arr).

(** The rows one patient contributes to the check-ins list. *)
Definition rowsOf (p : value) : list checkinRow :=
  map (fun pe => {| row_patient := prop p "name";
                    row_staff := staffOf (parsed_entry pe);
                    row_timeStr := prop (parsed_entry pe) "time";
                    row_date := parsed_date pe |})
      (validEntries (getCheckInsArray p)).

(** The row of the report for a patient whose last check is [last]. *)
Definition reportRow (p : value) (last : lastCheck) : list value :=
  [prop p "name"; prop p "location"; prop p "checkInInterval";
   VStr (display last); staff last].

(** The number of occurrences of a character. *)
Fixpoint countChar (c : ascii) (s : string) : nat :=
  match s with
  | EmptyString => O
  | String c' s' => (if (c =? c')%char then 1 else 0) + countChar c s'
  end.

(** A value that holds, possibly inside arrays, a map with a field
    [toString]. *)
Fixpoint unprintable (v : value) : bool :=
  match v with
  | VObj props => hasKey "toString" props
  | VArr elems => existsb unprintable elems
  | _ => false
  end.

(** The patients whose [checkInInterval] cannot be compared with a
    number: it is an array or an object and its conversion to a number
    throws. *)
Definition intervalThrows (patient : value) : Prop :=
  (isArray (prop patient "checkInInterval") = true \/
   exists props, prop patient "checkInInterval" = VObj props) /\
  objectToNumber (prop patient "checkInInterval") = TypeError.

(** The patients on which [getLastCheck] throws: a check-in is [null] or
    [undefined], or some entry normalizes and [checkInInterval] cannot be
    converted to a number. *)
Definition lastCheckThrows (patient : value) : Prop :=
  allEntries (getCheckInsArray patient) = false \/
  ((exists e t, In e (getCheckInsArray patient) /\ instantOf e = Some t) /\
   intervalThrows patient).

(** The patients for which the report has no line: the patient is [null] or
    [undefined], [getLastCheck] throws, or one of the cells cannot be
    converted to a string. *)
Definition reportThrows (p : value) : Prop :=
  nullish p = true \/ lastCheckThrows p \/
  unprintable (prop p "name") = true \/
  unprintable (prop p "location") = true \/
  unprintable (prop p "checkInInterval") = true \/
  exists now last, getLastCheck p now = Ok last /\
                   unprintable (staff last) = true.

(** The letters a-z, and the capital of such a letter. *)
Definition isLowerLetter (c : ascii) : bool :=
  let n := nat_of_ascii c in (97 <=? n)%nat && (n <=? 122)%nat.

Definition capitalOf (c : ascii) : ascii := ascii_of_nat (nat_of_ascii c - 32).

Fixpoint lowerLetters (s : string) : bool :=
  match s with
  | EmptyString => true
  | String c s' => isLowerLetter c && lowerLetters s'
  end.

(** [s] is [name] up to the case of its letters. *)
Fixpoint sameUpToCase (s name : string) : Prop :=
  match s, name with
  | EmptyString, EmptyString => True
  | String c s', String l name' =>
      (c = l \/ c = capitalOf l) /\ sameUpToCase s' name'
  | _, _ => False
  end.

(** The 256 code units of the model. *)
Definition allUnits : list ascii := map ascii_of_nat (seq 0 256).

(** *** Patients *)

(** [arr.map(f)] with a callback that can throw and sees the index. *)
Fixpoint mapiM {A B : Type} (f : nat -> A -> result B) (i : nat)
         (l : list A) : result (list B) :=
  match l with
  | [] => Ok []
  | x :: l' => y <- f i x ;; ys <- mapiM f (S i) l' ;; Ok (y :: ys)
  end.

(** What React makes of a value placed among the children of an element:
    a text for a string or a number, nothing for a boolean, [null] or
    [undefined], the elements in turn for an array; any other object is
    refused and the rendering throws. *)
Fixpoint validChild (v : value) : bool :=
  match v with
  | VObj _ => false
  | VArr elems => forallb validChild elems
  | _ => true
  end.

(** What the card of one patient shows. *)
Record card : Type := mkCard {
  card_key : option string;
  card_name : value;
  card_location : value;
  card_wristbandID : value;
  card_checkInInterval : value;
  card_comments : value;
  card_lastCheck : string;
  card_className : string;
  card_status : string
}.

(** The callback of [patients.map] in [Patients]: [getLastCheck(p)] first,
    then the properties of [p] in the order of the markup, then the [key],
    which is converted to a string unless it is [undefined]. *)
Definition patientCard (p : value) (now : Z) : result card :=
  last <- getLastCheck p now ;;
  name <- get p "name" ;;
  location <- get p "location" ;;
  wristbandID <- get p "wristbandID" ;;
  checkInInterval <- get p "checkInInterval" ;;
  comments <- get p "comments" ;;
  id <- get p "id" ;;
  key <- match id with
         | VUndefined => Ok None
         | _ => s <- toString id ;; Ok (Some s)
         end ;;
  Ok {| card_key := key;
        card_name := name;
        card_location := location;
        card_wristbandID := wristbandID;
        card_checkInInterval := checkInInterval;
        card_comments := comments;
        card_lastCheck := display last;
        card_className :=
          "font-semibold " ++
          (if isOverdue last then "text-red-500" else "text-green-600");
        card_status := if isOverdue last then "Overdue" else "On-time" |}.

(** The children of the card that come from the document. *)
Definition cardChildren (c : card) : list value :=
  [card_name c; card_location c; card_wristbandID c;
   card_checkInInterval c; card_comments c].

(** [Patients]: the cards are built for every patient, then rendered.
    [Card], which is not part of [App.jsx], is taken to render the children
    it is given. *)
Definition Patients (patients : list value) (nowAt : nat -> Z)
  : drawn (list card) :=
  match mapiM (fun i p => patientCard p (nowAt i)) 0 patients with
  | TypeError => Thrown
  | Ok cards =>
      if forallb (fun c => forallb validChild (cardChildren c)) cards
      then Drawn cards
      else Refused
  end.

(** The number of cards that read "Overdue". *)
Definition overdueCards (cards : list card) : Z :=
  Z.of_nat (List.length
              (filter (fun c => (card_status c =? "Overdue")%string) cards)).

(** The patients whose card cannot be built. *)
Definition cardThrows (p : value) : Prop :=
  nullish p = true \/ lastCheckThrows p \/ unprintable (prop p "id") = true.

(** *** Session *)

(** The state of [DataProvider]. *)
Record session : Type := mkSession {
  firebaseUser : value;
  profile : value;
  loadingAuth : bool
}.

Definition initialSession : session :=
  {| firebaseUser := VNull; profile := VNull; loadingAuth := true |}.

(** How [await getDoc(ref)] ends: with the snapshot of a document that
    exists, with the snapshot of one that does not, or with a rejection. *)
Inductive profileRead : Type :=
| DocExists (data : list (string * value))
| DocMissing
| ReadRejected.

(** The callback of [onAuthStateChanged] up to [await getDoc(ref)], and all
    of it when there is no user. *)
Definition authBegin (user : value) (s : session) : session :=
  if truthy user
  then {| firebaseUser := user;
          profile := profile s;
          loadingAuth := loadingAuth s |}
  else {| firebaseUser := VNull; profile := VNull; loadingAuth := false |}.

(** The rest of the callback for the user [user], once the read has ended.
    After a rejection the statements that follow the [await] are not
    run. *)
Definition authResume (user : value) (read : profileRead) (s : session)
  : session :=
  match read with
  | DocExists data =>
      {| firebaseUser := firebaseUser s;
         profile := VObj data;
         loadingAuth := false |}
  | DocMissing =>
      {| firebaseUser := firebaseUser s;
         profile := VObj [("name", prop user "email");
                          ("email", prop user "email");
                          ("role", VStr "Staff")];
         loadingAuth := false |}
  | ReadRejected => s
  end.

(** The callback of [onAuthStateChanged] when nothing else runs during the
    read. *)
Definition onAuthStateChanged (user : value) (read : profileRead)
           (s : session) : session :=
  if truthy user then authResume user read (authBegin user s)
  else authBegin user s.

(** [signOut] of the provider; [done] tells whether [firebaseSignOut]
    resolved. *)
Definition signOut (done : bool) (s : session) : session :=
  if done
  then {| firebaseUser := VNull; profile := VNull;
          loadingAuth := loadingAuth s |}
  else s.

(** The document [doRegister] writes for a new account. *)
Definition doRegister (name email : string) : list (string * value) :=
  [("name", VStr name); ("email", VStr email); ("role", VStr "Staff")].

(** What changes the session: a callback starts, a callback resumes after
    its read, [signOut] ends.  Between the start of a callback and its
    resumption any of the three can happen. *)
Inductive authEvent : Type :=
| AuthBegin (user : value)
| AuthResume (user : value) (read : profileRead)
| SignOut (done : bool).

Definition authStep (s : session) (e : authEvent) : session :=
  match e with
  | AuthBegin user => authBegin user s
  | AuthResume user read => authResume user read s
  | SignOut done => signOut done s
  end.

(** The session after the events [es], from the first render on. *)
Definition sessionAfter (es : list authEvent) : session :=
  fold_left authStep es initialSession.

(** An event after which [loadingAuth] is as before. *)
Definition keepsLoading (e : authEvent) : bool :=
  match e with
  | AuthBegin user => truthy user
  | AuthResume _ ReadRejected => true
  | AuthResume _ _ => false
  | SignOut _ => true
  end.

(** *** Routes *)

(** The routes [Shell] declares. *)
Inductive route : Type :=
| HomeRoute
| RegisterRoute
| PatientsRoute
| CheckinsRoute
| RoundingGraphRoute
| ReportsRoute
| UsersRoute.

Definition routePath (r : route) : string :=
  match r with
  | HomeRoute => "/"
  | RegisterRoute => "/register"
  | PatientsRoute => "/patients"
  | CheckinsRoute => "/check-ins"
  | RoundingGraphRoute => "/rounding-graph"
  | ReportsRoute => "/reports"
  | UsersRoute => "/users"
  end.

(** What the main area holds. *)
Inductive page : Type :=
| LoginPage
| RegisterPage
| PleaseSignIn
| DashboardPage
| PatientsPage
| CheckinsPage
| RoundingGraphPage
| ReportsPage
| AdminsOrManagersOnly
| UsersPage (a : usersAccess).

(** [AdminUsers] up to its early return. *)
Definition AdminUsers (profile : value) : result page :=
  a <- adminUsersAccess profile ;;
  Ok (if refused a then AdminsOrManagersOnly else UsersPage a).

(** [Protected]: the children are rendered only for a signed-in user. *)
Definition Protected (s : session) (children : result page) : result page :=
  if truthy (firebaseUser s) then children else Ok PleaseSignIn.

Inductive view : Type :=
| LoadingView
| ShellView (links : list (string * string)) (main : page).

(** [Shell] at a route: the sidebar is rendered first and whoever is
    signed in, and its first statement reads the role; then comes the
    element of the route.  The view records the links of the sidebar and
    the page of the main area.  What the sidebar and the top bar draw from
    the profile of a signed-in user (its name, role and email) is not part
    of the view. *)
Definition Shell (s : session) (r : route) : result view :=
  if loadingAuth s then Ok LoadingView
  else
    links <- sidebarLinks (profile s) ;;
    main <- match r with
            | HomeRoute =>
                Ok (if truthy (firebaseUser s) then DashboardPage
                    else LoginPage)
            | RegisterRoute => Ok RegisterPage
            | PatientsRoute => Protected s (Ok PatientsPage)
            | CheckinsRoute => Protected s (Ok CheckinsPage)
            | RoundingGraphRoute => Protected s (Ok RoundingGraphPage)
            | ReportsRoute => Protected s (Ok ReportsPage)
            | UsersRoute => Protected s (AdminUsers (profile s))
            end ;;
    Ok (ShellView links main).

(** The pages other than the sign-in, registration and notice ones. *)
Definition behindSignIn (main : page) : bool :=
  match main with
  | LoginPage | RegisterPage | PleaseSignIn => false
  | _ => true
  end.

(** The links of the sidebar that do not depend on the profile. *)
Definition commonLinks : list (string * string) :=
  [("/", "Dashboard"); ("/patients", "Patients");
   ("/rounding-graph", "Rounding Graph"); ("/reports", "Reports")].

(** What a route shows to nobody in particular. *)
Definition signedOutPage (r : route) : page :=
  match r with
  | HomeRoute => LoginPage
  | RegisterRoute => RegisterPage
  | _ => PleaseSignIn
  end.

(** What a route shows to a signed-in user who is neither admin nor
    manager. *)
Definition staffPage (r : route) : page :=
  match r with
  | HomeRoute => DashboardPage
  | RegisterRoute => RegisterPage
  | PatientsRoute => PatientsPage
  | CheckinsRoute => CheckinsPage
  | RoundingGraphRoute => RoundingGraphPage
  | ReportsRoute => ReportsPage
  | UsersRoute => AdminsOrManagersOnly
  end.

(** ** Properties *)

(** Drops the parts of the environment a goal does not mention, so that
    decision procedures do not record them as used. *)
Ltac forget_engine :=
  try clear localTZA; try clear objectToNumber; try clear stringToNumber;
  try clear toLocaleString; try clear dateParse.

(** *** Double precision *)

Lemma pow2_pos (e : Z) : (0 < pow2 e)%Q.
Proof. apply Qpower_0_lt. reflexivity. Qed.

Lemma pow2_plus (a b : Z) : (pow2 (a + b) == pow2 a * pow2 b)%Q.
Proof. apply Qpower_plus. discriminate. Qed.

Lemma pow2_le (a b : Z) : a <= b -> (pow2 a <= pow2 b)%Q.
Proof. intros H. apply Qpower_le_compat_l; [exact H | discriminate]. Qed.

Lemma pow2_lt_inv (a b : Z) : (pow2 a < pow2 b)%Q -> a < b.
Proof. intros H. apply (Qpower_lt_compat_l_inv 2); [exact H | reflexivity]. Qed.

Lemma pow2_Z (e : Z) : 0 <= e -> (pow2 e == inject_Z (2 ^ e))%Q.
Proof. intros H. unfold pow2. now rewrite Zpower_Qpower. Qed.

Lemma roundHalfEven_Z (k : Z) : roundHalfEven (inject_Z k) = k.
Proof.
  unfold roundHalfEven. rewrite Qfloor_Z.
  assert (H : (inject_Z k - inject_Z k == 0)%Q) by ring.
  destruct (Qcompare_spec (inject_Z k - inject_Z k) (1 # 2)) as [E | E | E];
    rewrite H in E; [discriminate | reflexivity | discriminate].
Qed.

Lemma roundHalfEven_bounds (y : Q) :
  Qfloor y <= roundHalfEven y <= Qfloor y + 1.
Proof.
  unfold roundHalfEven.
  destruct (y - inject_Z (Qfloor y) ?= 1 # 2)%Q; [|lia|lia].
  destruct (Z.even (Qfloor y)); lia.
Qed.


Lemma roundHalfEven_monotone (x y : Q) :
  (x <= y)%Q -> roundHalfEven x <= roundHalfEven y.
Proof.
  intros H. pose proof (Qfloor_resp_le _ _ H) as Hf.
  pose proof (roundHalfEven_bounds x) as Bx.
  pose proof (roundHalfEven_bounds y) as By.
  destruct (Z.eq_dec (Qfloor x) (Qfloor y)) as [E | E]; [|lia].
  unfold roundHalfEven in *. rewrite E in *.
  set (f := Qfloor y) in *.
  destruct (Qcompare_spec (x - inject_Z f) (1 # 2)) as [Ex | Ex | Ex];
    destruct (Qcompare_spec (y - inject_Z f) (1 # 2)) as [Ey | Ey | Ey];
    try lia; try (destruct (Z.even f); lia); exfalso; lra.
Qed.

Lemma log2Q_spec (x : Q) :
  (0 < x)%Q -> (pow2 (log2Q x) <= x /\ x < pow2 (log2Q x + 1))%Q.
Proof.
  intros Hx. destruct x as [n d]. unfold log2Q. cbn [Qnum Qden].
  assert (Hn : 0 < n) by (unfold Qlt in Hx; simpl in Hx; lia).
  set (a := Z.log2 n). set (b := Z.log2 (Z.pos d)).
  pose proof (Z.log2_nonneg n) as Ha0. fold a in Ha0.
  pose proof (Z.log2_nonneg (Z.pos d)) as Hb0. fold b in Hb0.
  destruct (Z.log2_spec n Hn) as [Ha1 Ha2]. fold a in Ha1, Ha2.
  destruct (Z.log2_spec (Z.pos d) ltac:(lia)) as [Hb1 Hb2]. fold b in Hb1, Hb2.
  assert (Hq : (n # d == inject_Z n / inject_Z (Z.pos d))%Q)
    by (rewrite Qmake_Qdiv; reflexivity).
  assert (Hd : (0 < inject_Z (Z.pos d))%Q) by reflexivity.
  assert (Hlow : (pow2 (a - b - 1) <= n # d)%Q).
  { replace (a - b - 1) with (a + - (b + 1)) by lia.
    rewrite pow2_plus. unfold pow2 at 2. rewrite Qpower_opp.
    fold (pow2 (b + 1)). rewrite !pow2_Z by lia. rewrite Hq.
    apply Qle_shift_div_l; [exact Hd|].
    assert (Hb : (0 < inject_Z (2 ^ (b + 1)))%Q)
      by (rewrite <- pow2_Z by lia; apply pow2_pos).
    apply Qle_trans with (inject_Z (2 ^ a)).
    - rewrite <- (Qmult_1_r (inject_Z (2 ^ a))) at 2.
      rewrite <- Qmult_assoc.
      apply Qmult_le_l; [rewrite <- pow2_Z by lia; apply pow2_pos|].
      setoid_replace (/ inject_Z (2 ^ (b + 1)) * inject_Z (Z.pos d))%Q
        with (inject_Z (Z.pos d) / inject_Z (2 ^ (b + 1)))%Q
        by (unfold Qdiv; ring).
      apply Qle_shift_div_r; [exact Hb|]. rewrite Qmult_1_l.
      rewrite <- Zle_Qle. lia.
    - rewrite <- Zle_Qle. exact Ha1. }
  assert (Hhigh : (n # d < pow2 (a - b + 1))%Q).
  { replace (a - b + 1) with ((a + 1) + - b) by lia.
    rewrite pow2_plus. unfold pow2 at 2. rewrite Qpower_opp.
    fold (pow2 b). rewrite !pow2_Z by lia. rewrite Hq.
    assert (Hb : (0 < inject_Z (2 ^ b))%Q)
      by (rewrite <- pow2_Z by lia; apply pow2_pos).
    apply Qlt_shift_div_r; [exact Hd|].
    apply Qlt_le_trans with (inject_Z (2 ^ (a + 1))).
    - rewrite <- Zlt_Qlt. exact Ha2.
    - rewrite <- (Qmult_1_r (inject_Z (2 ^ (a + 1)))) at 1.
      rewrite <- Qmult_assoc.
      apply Qmult_le_l; [rewrite <- pow2_Z by lia; apply pow2_pos|].
      setoid_replace (/ inject_Z (2 ^ b) * inject_Z (Z.pos d))%Q
        with (inject_Z (Z.pos d) / inject_Z (2 ^ b))%Q
        by (unfold Qdiv; ring).
      apply Qle_shift_div_l; [exact Hb|]. rewrite Qmult_1_l.
      rewrite <- Zle_Qle. exact Hb1. }
  destruct (Qle_bool (pow2 (a - b)) (n # d)) eqn:E.
  - apply Qle_bool_iff in E. split; [exact E | exact Hhigh].
  - split; [exact Hlow|].
    replace (a - b - 1 + 1) with (a - b) by lia.
    apply Qnot_le_lt. intros H. apply Qle_bool_iff in H. congruence.
Qed.

Lemma log2Q_monotone (x y : Q) :
  (0 < x)%Q -> (x <= y)%Q -> log2Q x <= log2Q y.
Proof.
  intros Hx Hxy.
  destruct (log2Q_spec x Hx) as [H1 _].
  destruct (log2Q_spec y (Qlt_le_trans _ _ _ Hx Hxy)) as [_ H2].
  assert (H : (pow2 (log2Q x) < pow2 (log2Q y + 1))%Q)
    by (eapply Qle_lt_trans; [exact H1|]; eapply Qle_lt_trans; eauto).
  apply pow2_lt_inv in H. lia.
Qed.

(** The significand of a positive number lies between [2^52] and [2^53]. *)
Lemma significand_bounds (x : Q) :
  (0 < x)%Q ->
  (inject_Z (2 ^ 52) <= x / pow2 (log2Q x - 52))%Q /\
  (x / pow2 (log2Q x - 52) < inject_Z (2 ^ 53))%Q.
Proof.
  intros Hx. destruct (log2Q_spec x Hx) as [H1 H2].
  pose proof (pow2_pos (log2Q x - 52)) as Hg.
  rewrite <- (pow2_Z 52), <- (pow2_Z 53) by lia. split.
  - apply Qle_shift_div_l; [exact Hg|]. rewrite <- pow2_plus.
    replace (52 + (log2Q x - 52)) with (log2Q x) by lia. exact H1.
  - apply Qlt_shift_div_r; [exact Hg|]. rewrite <- pow2_plus.
    replace (53 + (log2Q x - 52)) with (log2Q x + 1) by lia. exact H2.
Qed.

Lemma roundHalfEven_significand (x : Q) :
  (0 < x)%Q ->
  2 ^ 52 <= roundHalfEven (x / pow2 (log2Q x - 52)) <= 2 ^ 53.
Proof.
  intros Hx. destruct (significand_bounds x Hx) as [H1 H2]. split.
  - rewrite <- (roundHalfEven_Z (2 ^ 52)).
    now apply roundHalfEven_monotone.
  - rewrite <- (roundHalfEven_Z (2 ^ 53)).
    apply roundHalfEven_monotone. now apply Qlt_le_weak.
Qed.

Lemma roundPositive_pos (x : Q) : (0 < x)%Q -> (0 < roundPositive x)%Q.
Proof.
  intros Hx. unfold roundPositive.
  apply Qmult_lt_0_compat; [|apply pow2_pos].
  pose proof (roundHalfEven_significand x Hx) as [H _].
  change 0%Q with (inject_Z 0). rewrite <- Zlt_Qlt. lia.
Qed.


Lemma roundPositive_monotone (x y : Q) :
  (0 < x)%Q -> (x <= y)%Q -> (roundPositive x <= roundPositive y)%Q.
Proof.
  intros Hx Hxy.
  assert (Hy : (0 < y)%Q) by (eapply Qlt_le_trans; eauto).
  pose proof (log2Q_monotone x y Hx Hxy) as Hl.
  unfold roundPositive.
  destruct (Z.eq_dec (log2Q x) (log2Q y)) as [E | E].
  - rewrite E. apply Qmult_le_compat_r; [|apply Qlt_le_weak, pow2_pos].
    rewrite <- Zle_Qle. apply roundHalfEven_monotone.
    apply Qmult_le_compat_r; [exact Hxy|].
    apply Qlt_le_weak, Qinv_lt_0_compat, pow2_pos.
  - pose proof (roundHalfEven_significand x Hx) as [_ Hx2].
    pose proof (roundHalfEven_significand y Hy) as [Hy1 _].
    apply Qle_trans with (pow2 (53 + (log2Q x - 52))).
    + rewrite pow2_plus, (pow2_Z 53) by lia.
      apply Qmult_le_compat_r; [|apply Qlt_le_weak, pow2_pos].
      now rewrite <- Zle_Qle.
    + apply Qle_trans with (pow2 (52 + (log2Q y - 52))).
      * apply pow2_le. lia.
      * rewrite pow2_plus, (pow2_Z 52) by lia.
        apply Qmult_le_compat_r; [|apply Qlt_le_weak, pow2_pos].
        now rewrite <- Zle_Qle.
Qed.

Lemma roundDouble_monotone (x y : Q) :
  (x <= y)%Q -> (roundDouble x <= roundDouble y)%Q.
Proof.
  intros Hxy. unfold roundDouble.
  destruct (Qcompare_spec x 0) as [Ex | Ex | Ex];
    destruct (Qcompare_spec y 0) as [Ey | Ey | Ey]; try (exfalso; lra).
  - apply Qle_refl.
  - apply Qlt_le_weak. now apply roundPositive_pos.
  - assert (H : (0 < roundPositive (- x))%Q) by (apply roundPositive_pos; lra).
    lra.
  - assert (H : (roundPositive (- y) <= roundPositive (- x))%Q)
      by (apply roundPositive_monotone; lra).
    lra.
  - assert (H1 : (0 < roundPositive (- x))%Q) by (apply roundPositive_pos; lra).
    assert (H2 : (0 < roundPositive y)%Q) by (now apply roundPositive_pos).
    lra.
  - now apply roundPositive_monotone.
Qed.

Lemma roundDouble_neg (x : Q) : (x < 0)%Q -> (roundDouble x < 0)%Q.
Proof.
  intros H. unfold roundDouble.
  destruct (Qcompare_spec x 0) as [Ex | Ex | Ex]; try (exfalso; lra).
  assert (H1 : (0 < roundPositive (- x))%Q) by (apply roundPositive_pos; lra).
  lra.
Qed.

Lemma roundDouble_0 (x : Q) : (x == 0)%Q -> (roundDouble x == 0)%Q.
Proof.
  intros H. unfold roundDouble.
  destruct (Qcompare_spec x 0) as [Ex | Ex | Ex]; try (exfalso; lra).
  reflexivity.
Qed.








(** *** Strings *)

Lemma prefix_startsWith (pat s : string) :
  prefix pat s = true <-> startsWith pat s.
Proof.
  revert s. induction pat as [|a pat IH]; intros s; simpl.
  - split; [intros _; exists s; reflexivity | intros _; now destruct s].
  - destruct s as [|b s].
    + split; [discriminate | intros [rest H]; discriminate].
    + simpl. destruct (ascii_dec a b) as [->|Hab].
      * split.
        -- intros H. apply IH in H. destruct H as [rest ->].
           now exists rest.
        -- intros [rest H]. simpl in H. inversion H.
           apply IH. now exists rest.
      * split; [discriminate | intros [rest H]].
        simpl in H. inversion H. congruence.
Qed.

Lemma drop_app (p s : string) : drop (String.length p) (p ++ s) = s.
Proof. induction p as [|a p IH]; simpl; [now destruct s | exact IH]. Qed.

Lemma append_assoc (a b c : string) : (a ++ b) ++ c = a ++ (b ++ c).
Proof. induction a as [|x a IH]; simpl; [reflexivity | now rewrite IH]. Qed.

Lemma append_empty_r (a : string) : a ++ "" = a.
Proof. induction a as [|x a IH]; simpl; [reflexivity | now rewrite IH]. Qed.

Lemma spanDigits_app (s : string) :
  fst (spanDigits s) ++ snd (spanDigits s) = s.
Proof.
  induction s as [|c s IH]; simpl; [reflexivity|].
  destruct (isDigit c); [|reflexivity].
  destruct (spanDigits s) as [ds rest]. simpl in *. now rewrite IH.
Qed.

Lemma matchUTC_inv (s g rest : string) :
  matchUTC s = Some (g, rest) -> s = "UTC" ++ g ++ rest.
Proof.
  unfold matchUTC.
  destruct s as [|c0 s]; [discriminate|].
  destruct c0 as [[] [] [] [] [] [] [] []]; try discriminate.
  destruct s as [|c1 s]; [discriminate|].
  destruct c1 as [[] [] [] [] [] [] [] []]; try discriminate.
  destruct s as [|c2 s]; [discriminate|].
  destruct c2 as [[] [] [] [] [] [] [] []]; try discriminate.
  destruct s as [|sg s]; [discriminate|].
  destruct (isSign sg); [|discriminate].
  pose proof (spanDigits_app s) as Happ.
  destruct (spanDigits s) as [[|d ds] r]; [discriminate|].
  simpl in Happ. intros H. inversion H; subst. reflexivity.
Qed.

Lemma matchUTC_marker (s : string) :
  matchUTC s <> None <-> markerAtFront s.
Proof.
  split.
  - unfold matchUTC.
    destruct s as [|c0 s]; [congruence|].
    destruct c0 as [[] [] [] [] [] [] [] []]; try congruence.
    destruct s as [|c1 s]; [congruence|].
    destruct c1 as [[] [] [] [] [] [] [] []]; try congruence.
    destruct s as [|c2 s]; [congruence|].
    destruct c2 as [[] [] [] [] [] [] [] []]; try congruence.
    destruct s as [|sg s]; [congruence|].
    destruct (isSign sg) eqn:Hsg; [|congruence].
    destruct s as [|d s]; [simpl; congruence|].
    simpl. destruct (isDigit d) eqn:Hd.
    + intros _. exists sg, d, s. auto.
    + congruence.
  - intros (sg & d & rest & Hsg & Hd & ->). simpl.
    rewrite Hsg, Hd. destruct (spanDigits rest). discriminate.
Qed.

(** The general shape: a front match that rewrites [old] into [new] and
    keeps the rest gives a replacement of the first occurrence. *)
Lemma replaceAtFirst_spec (step : string -> option string)
      (P : string -> Prop) (old new : string) :
  (forall s, step s <> None <-> P s) ->
  (forall s r, step s = Some r ->
               exists post, s = old ++ post /\ r = new ++ post) ->
  forall s, replacesFirst P old new s (replaceAtFirst step s).
Proof.
  intros HP Hstep. induction s as [|c s IH].
  - simpl. destruct (step "") as [r|] eqn:E.
    + right. destruct (Hstep _ _ E) as (post & Hs & Hr).
      exists "", post. simpl. repeat split; auto.
      * apply HP. congruence.
      * intros p1 p2 H. destruct p1; destruct p2; simpl in H; congruence.
    + left. split; [|reflexivity].
      intros p1 p2 H. destruct p1; [|discriminate]. simpl in H. subst p2.
      rewrite <- HP. congruence.
  - simpl. destruct (step (String c s)) as [r|] eqn:E.
    + right. destruct (Hstep _ _ E) as (post & Hs & Hr).
      exists "", post. simpl. repeat split; auto.
      * apply HP. congruence.
      * intros p1 p2 H. destruct p1; destruct p2; simpl in H; congruence.
    + assert (Hn : ~ P (String c s)) by (rewrite <- HP; congruence).
      destruct IH as [[Hnone ->] | (pre & post & Hs & [Hat Hfirst] & ->)].
      * left. split; [|reflexivity].
        intros p1 p2 H. destruct p1 as [|a p1]; simpl in H.
        -- now subst p2.
        -- inversion H. eapply Hnone; eauto.
      * right. exists (String c pre), post. simpl. repeat split; auto.
        -- now rewrite Hs.
        -- intros p1 p2 H Hne. destruct p1 as [|a p1]; simpl in H.
           ++ subst p2. simpl. now rewrite <- Hs.
           ++ inversion H. eapply Hfirst; eauto.
Qed.

Lemma replaceFirst_spec (pat rep s : string) :
  replacesFirst (startsWith pat) pat rep s (replaceFirst pat rep s).
Proof.
  apply replaceAtFirst_spec.
  - intros s'. rewrite <- prefix_startsWith.
    destruct (prefix pat s'); split; congruence.
  - intros s' r. destruct (prefix pat s') eqn:E; [|discriminate].
    intros H. inversion H. apply prefix_startsWith in E.
    destruct E as [rest ->]. exists rest. now rewrite drop_app.
Qed.

Lemma replaceUTC_spec (s : string) :
  replacesFirst markerAtFront "UTC" "GMT" s (replaceUTC s).
Proof.
  apply replaceAtFirst_spec.
  - intros s'. rewrite <- matchUTC_marker.
    destruct (matchUTC s') as [[g rest]|]; split; congruence.
  - intros s' r. destruct (matchUTC s') as [[g rest]|] eqn:E; [|discriminate].
    intros H. inversion H. apply matchUTC_inv in E.
    exists (g ++ rest). split; [exact E | reflexivity].
Qed.

(** Where every marker of a string runs to its end, the program and the
    wording of the specification rewrite it alike. *)
Lemma replaceUTC_trailing_agrees (s : string) :
  (forall p1 p2 g r, s = p1 ++ p2 -> matchUTC p2 = Some (g, r) -> r = "") ->
  replaceUTC s = replaceTrailingUTC s.
Proof.
  unfold replaceUTC, replaceTrailingUTC.
  induction s as [|c s IH]; intros Hend.
  - reflexivity.
  - cbn [replaceAtFirst].
    destruct (matchUTC (String c s)) as [[g r]|] eqn:E.
    + rewrite (Hend "" (String c s) g r eq_refl E).
      now rewrite append_empty_r.
    + f_equal. apply IH. intros p1 p2 g r Hs.
      apply (Hend (String c p1) p2 g r). simpl. now rewrite Hs.
Qed.

Lemma append_split (a b c d : string) :
  a ++ b = c ++ d ->
  (exists m, c = a ++ m /\ b = m ++ d) \/
  (exists m, a = c ++ m /\ d = m ++ b).
Proof.
  revert c. induction a as [|x a IH]; intros c H; simpl in H.
  - left. exists c. auto.
  - destruct c as [|y c]; simpl in H.
    + right. exists (String x a). auto.
    + inversion H as [[Hxy Hrest]]. subst y.
      destruct (IH c Hrest) as [(m & -> & ->) | (m & -> & ->)].
      * left. exists m. auto.
      * right. exists m. auto.
Qed.

Lemma append_cancel_l (a b c : string) : a ++ b = a ++ c -> b = c.
Proof.
  induction a as [|x a IH]; simpl; intros H; [exact H|].
  inversion H. auto.
Qed.

(** The relation [replacesFirst] determines its result. *)
Lemma replacesFirst_functional (P : string -> Prop) (old new s r1 r2 : string) :
  replacesFirst P old new s r1 -> replacesFirst P old new s r2 -> r1 = r2.
Proof.
  assert (Hfirst : forall pre1 post1 pre2 post2,
             pre1 ++ old ++ post1 = pre2 ++ old ++ post2 ->
             firstAt P pre1 (old ++ post1) ->
             firstAt P pre2 (old ++ post2) ->
             forall m, pre2 = pre1 ++ m -> old ++ post1 = m ++ old ++ post2 ->
                       pre1 = pre2 /\ post1 = post2).
  { intros pre1 post1 pre2 post2 Hs [HP1 _] [_ Hno2] m Hm Hrest.
    destruct m as [|x m].
    - rewrite append_empty_r in Hm. subst pre2. split; [reflexivity|].
      simpl in Hrest. now apply append_cancel_l in Hrest.
    - exfalso. apply (Hno2 pre1 (String x m) Hm); [discriminate|].
      now rewrite <- Hrest. }
  intros [[Hn1 ->] | (pre1 & post1 & Hs1 & Hf1 & ->)]
         [[Hn2 ->] | (pre2 & post2 & Hs2 & Hf2 & ->)].
  - reflexivity.
  - exfalso. apply (Hn1 pre2 (old ++ post2) Hs2). apply Hf2.
  - exfalso. apply (Hn2 pre1 (old ++ post1) Hs1). apply Hf1.
  - assert (Hs : pre1 ++ old ++ post1 = pre2 ++ old ++ post2) by congruence.
    destruct (append_split _ _ _ _ Hs) as [(m & Hm & Hrest) | (m & Hm & Hrest)].
    + destruct (Hfirst _ _ _ _ Hs Hf1 Hf2 m Hm Hrest) as [-> ->].
      reflexivity.
    + destruct (Hfirst _ _ _ _ (eq_sym Hs) Hf2 Hf1 m Hm Hrest) as [-> ->].
      reflexivity.
Qed.

(** *** Lists *)

Lemma insertBy_In {A : Type} (cmp : A -> A -> Z) (x y : A) (l : list A) :
  In y (insertBy cmp x l) <-> y = x \/ In y l.
Proof.
  forget_engine.
  induction l as [|z l IH]; simpl.
  - intuition.
  - destruct (cmp x z <=? 0); simpl; [intuition | rewrite IH; intuition].
Qed.

Lemma sortBy_In {A : Type} (cmp : A -> A -> Z) (y : A) (l : list A) :
  In y (sortBy cmp l) <-> In y l.
Proof.
  induction l as [|x l IH]; simpl; [reflexivity|].
  rewrite insertBy_In, IH. intuition.
Qed.

Lemma sortBy_Permutation {A : Type} (cmp : A -> A -> Z) (l : list A) :
  Permutation l (sortBy cmp l).
Proof.
  induction l as [|x l IH]; simpl; [constructor|].
  apply perm_trans with (x :: sortBy cmp l); [now constructor|].
  generalize (sortBy cmp l) as m. clear.
  induction m as [|z m IH]; simpl; [repeat constructor|].
  destruct (cmp x z <=? 0); [apply Permutation_refl|].
  apply perm_trans with (z :: x :: m); [apply perm_swap | now constructor].
Qed.

(** Sorting with [(a, b) => key(b) - key(a)] puts a greatest key first. *)
Lemma sortBy_descending_head {A : Type} (key : A -> Z) (l : list A)
      (h : A) (r : list A) :
  sortBy (fun a b => key b - key a) l = h :: r ->
  forall y, In y l -> key y <= key h.
Proof.
  revert h r. induction l as [|x l IH]; intros h r Hs y Hy; [destruct Hy|].
  simpl in Hs.
  assert (Hin : forall z, In z l <-> In z (sortBy (fun a b => key b - key a) l))
    by (intros z; symmetry; apply sortBy_In).
  destruct (sortBy (fun a b => key b - key a) l) as [|h' r'] eqn:E.
  - simpl in Hs. inversion Hs; subst.
    destruct Hy as [->|Hy]; [lia|]. apply Hin in Hy. destruct Hy.
  - specialize (IH h' r' eq_refl). simpl in Hs.
    destruct (key h' - key x <=? 0) eqn:C.
    + inversion Hs; subst. apply Z.leb_le in C.
      destruct Hy as [->|Hy]; [lia|]. specialize (IH y Hy). lia.
    + inversion Hs; subst. apply Z.leb_gt in C.
      destruct Hy as [->|Hy]; [lia|]. now apply IH.
Qed.

(** *** The entries of a patient *)

Lemma getCheckInsArray_truthy (patient : value) :
  getCheckInsArray patient <> [] -> nullish patient = false.
Proof.
  unfold getCheckInsArray. destruct patient; simpl; congruence.
Qed.

Lemma get_entry (entry : value) (k : string) :
  nullish entry = false -> get entry k = Ok (prop entry k).
Proof. unfold get. now intros ->. Qed.

Lemma allEntries_cons (v : value) (arr : list value) :
  allEntries (v :: arr) = true <-> nullish v = false /\ allEntries arr = true.
Proof.
  forget_engine.
  unfold allEntries. simpl. rewrite andb_true_iff, negb_true_iff. tauto.
Qed.

(** On entries the callback of [map] never throws, and what survives
    [filter(Boolean)] is the entries whose [time] normalizes, each with its
    instant. *)
Lemma mapM_parseEntry (arr : list value) :
  allEntries arr = true ->
  exists mapped,
    mapM parseEntry arr = Ok mapped /\
    forall pe, In pe (filterBoolean mapped) <->
               In (parsed_entry pe) arr /\
               instantOf (parsed_entry pe) = Some (parsed_date pe).
Proof.
  forget_engine.
  induction arr as [|e arr IH]; intros Hall.
  - exists []. simpl. intuition.
  - apply allEntries_cons in Hall. destruct Hall as [He Hall].
    destruct (IH Hall) as (mapped & Hm & Hin).
    simpl. unfold parseEntry at 1. rewrite (get_entry _ _ He). simpl.
    fold (instantOf e). destruct (instantOf e) as [d|] eqn:E; simpl;
      rewrite Hm; simpl; eexists; (split; [reflexivity|]); intros pe; simpl;
      rewrite Hin.
    + split.
      * intros [<-|[H1 H2]]; simpl; auto.
      * intros [[->|H1] H2]; auto.
        left. destruct pe as [e' d']; simpl in *. congruence.
    + split; [tauto|]. intros [[->|H1] H2]; [congruence | tauto].
Qed.

(** What [getLastCheck] returns on a patient all of whose check-ins are
    entries: the sentinel when no [time] normalizes, and otherwise the
    report on an entry of greatest instant. *)
Lemma getLastCheck_cases (patient : value) (now : Z) :
  allEntries (getCheckInsArray patient) = true ->
  ((forall e, In e (getCheckInsArray patient) -> instantOf e = None) /\
   getLastCheck patient now = Ok noneResult)
  \/
  (exists w t,
      In w (getCheckInsArray patient) /\ instantOf w = Some t /\
      (forall e t', In e (getCheckInsArray patient) ->
                    instantOf e = Some t' -> t' <= t) /\
      getLastCheck patient now =
      (late <- gt (minutesSince now t) (intervalOf patient) ;;
       Ok {| display := toLocaleString t;
             date := Some t;
             staff := staffOf w;
             isOverdue := late |})).
Proof.
  intros Hall. unfold getLastCheck.
  pose proof (getCheckInsArray_truthy patient) as Hp.
  destruct (getCheckInsArray patient) as [|e0 arr0] eqn:Harr.
  - left. split; [intros e []|reflexivity].
  - specialize (Hp ltac:(discriminate)).
    destruct (mapM_parseEntry _ Hall) as (mapped & -> & Hin).
    cbn [List.length Nat.eqb bind].
    destruct (sortBy _ (filterBoolean mapped)) as [|latest rest] eqn:Hs.
    + left. split; [|reflexivity].
      intros e He. destruct (instantOf e) as [d|] eqn:E; [|reflexivity].
      assert (H : In (mkParsed e d) (filterBoolean mapped))
        by (apply Hin; simpl; auto).
      apply (sortBy_In (fun a b => parsed_date b - parsed_date a)) in H.
      rewrite Hs in H. destruct H.
    + right. exists (parsed_entry latest), (parsed_date latest).
      assert (Hl : In latest (filterBoolean mapped)).
      { apply (sortBy_In (fun a b => parsed_date b - parsed_date a)).
        rewrite Hs. now left. }
      apply Hin in Hl. destruct Hl as [Hl1 Hl2].
      repeat split; auto.
      * intros e t' He Ht'.
        apply (sortBy_descending_head parsed_date _ _ _ Hs (mkParsed e t')).
        apply Hin. simpl. auto.
      * rewrite (get_entry _ _ Hp). reflexivity.
Qed.

(** *** Overdue arithmetic *)

Lemma Qltb_lt (x y : Q) : Qltb x y = true <-> (x < y)%Q.
Proof.
  unfold Qltb. rewrite negb_true_iff.
  destruct (Qle_bool y x) eqn:E.
  - apply Qle_bool_iff in E. split; [discriminate|].
    intros H. exfalso. exact (Qlt_not_le _ _ H E).
  - split; [intros _ | reflexivity].
    apply Qnot_le_lt. intros H. apply Qle_bool_iff in H. congruence.
Qed.

(** The comparison [minutesSince > interval] when [checkInInterval] is the
    number [q], or is missing and [q] is zero: it does not throw. *)
Lemma gt_intervalOf (patient : value) (q m : Q) :
  (prop patient "checkInInterval" = VNum q \/
   (prop patient "checkInInterval" = VUndefined /\ (q == 0)%Q)) ->
  exists b, gt m (intervalOf patient) = Ok b /\ (b = true <-> (q < m)%Q).
Proof.
  unfold intervalOf, or_else, gt, toNumber. intros [H | [H Hq]]; rewrite H;
    simpl.
  - destruct (Qeq_bool q 0) eqn:E; simpl; eexists; (split; [reflexivity|]);
      rewrite Qltb_lt.
    + apply Qeq_bool_iff in E. now rewrite E.
    + reflexivity.
  - eexists. split; [reflexivity|]. rewrite Qltb_lt. now rewrite Hq.
Qed.

(** The conversion of [checkInInterval || 0] throws exactly on the arrays
    and objects on which the conversion of the engine throws. *)
Lemma toNumber_intervalOf_throws (patient : value) :
  toNumber (intervalOf patient) = TypeError <-> intervalThrows patient.
Proof.
  unfold intervalThrows, intervalOf, or_else, toNumber.
  destruct (prop patient "checkInInterval") as [| |b|x|s|elems|props];
    cbn [truthy isArray].
  - split; [discriminate|]. intros [[H | (props & H)] _]; discriminate.
  - split; [discriminate|]. intros [[H | (props & H)] _]; discriminate.
  - split; [destruct b; discriminate|].
    intros [[H | (props & H)] _]; discriminate.
  - split; [destruct (negb (Qeq_bool x 0)); discriminate|].
    intros [[H | (props & H)] _]; discriminate.
  - split; [destruct (negb (s =? "")%string); discriminate|].
    intros [[H | (props & H)] _]; discriminate.
  - split; [intros H; split; [now left | exact H] | intros [_ H]; exact H].
  - split; [intros H; split; [right; eauto | exact H]
           | intros [_ H]; exact H].
Qed.



Lemma minutesSince_monotone (now now' t : Z) :
  now <= now' -> (minutesSince now t <= minutesSince now' t)%Q.
Proof.
  intros H. unfold minutesSince. apply roundDouble_monotone.
  apply Qmult_le_compat_r; [|discriminate].
  apply roundDouble_monotone. rewrite <- Zle_Qle. lia.
Qed.

Lemma minutesSince_negative (now t : Z) :
  now < t -> (minutesSince now t < 0)%Q.
Proof.
  intros H. unfold minutesSince. apply roundDouble_neg.
  assert (H1 : (roundDouble (inject_Z (now - t)) < 0)%Q).
  { apply roundDouble_neg. change 0%Q with (inject_Z 0).
    rewrite <- Zlt_Qlt. lia. }
  change (inject_Z (1000 * 60)) with 60000%Q.
  setoid_replace 0%Q with (0 / 60000)%Q by reflexivity.
  apply Qmult_lt_compat_r; [reflexivity | exact H1].
Qed.



(** *** Slots *)

Lemma Ok_eq {A : Type} (x y : A) : Ok x = Ok y -> x = y.
Proof. congruence. Qed.

Lemma Some_eq {A : Type} (x y : A) : Some x = Some y -> x = y.
Proof. congruence. Qed.

Lemma makeDate_top_of_hour (t : Z) :
  makeDate (day t) (makeTime (hourFromTime t) 0 0 0) = t - t mod msPerHour.
Proof.
  unfold makeDate, makeTime, day, hourFromTime.
  change msPerDay with (msPerHour * 24).
  rewrite <- Z.div_div by (unfold msPerHour; lia).
  pose proof (Z.div_mod (t / msPerHour) 24 ltac:(lia)) as H1.
  pose proof (Z.div_mod t msPerHour ltac:(unfold msPerHour; lia)) as H2.
  nia.
Qed.

Lemma setMinutes000_fixed (t c : Z) :
  localTZA t true = c ->
  localTZA (t + c - (t + c) mod msPerHour) false = c ->
  setMinutes000 t = t - (t + c) mod msPerHour.
Proof.
  intros H1 H2. unfold setMinutes000, utc, localTime.
  rewrite makeDate_top_of_hour, H1, H2. lia.
Qed.

Lemma slotsFrom_length (now : Z) (i : nat) :
  List.length (slotsFrom now i) = S i.
Proof. induction i as [|i IH]; simpl; [reflexivity | now rewrite IH]. Qed.

Lemma slotsFrom_nth_error (now : Z) (i k : nat) :
  (k <= i)%nat ->
  nth_error (slotsFrom now i) k =
  Some (setMinutes000 (now - Z.of_nat (i - k) * 3600000)).
Proof.
  revert k. induction i as [|i IH]; intros k Hk.
  - assert (k = 0%nat) by lia. subst k. reflexivity.
  - destruct k as [|k].
    + reflexivity.
    + change (slotsFrom now (S i)) with
        (setMinutes000 (now - Z.of_nat (S i) * 3600000) :: slotsFrom now i).
      simpl nth_error. rewrite IH by lia. reflexivity.
Qed.

(** In a zone whose offset is [c] throughout the day before [now], the
    slot [j] hours back starts [j] hours before the top of the current
    local hour. *)
Lemma slot_fixed_offset (now c : Z) (j : nat) :
  (forall t, now - 24 * 3600000 < t <= now -> localTZA t true = c) ->
  (forall t, now - 24 * 3600000 < t - c <= now -> localTZA t false = c) ->
  (j <= 23)%nat ->
  setMinutes000 (now - Z.of_nat j * 3600000) =
  now - (now + c) mod 3600000 - Z.of_nat j * 3600000.
Proof.
  intros Hutc Hloc Hj.
  assert (Hmod : (now - Z.of_nat j * 3600000 + c) mod msPerHour =
                 (now + c) mod 3600000).
  { unfold msPerHour.
    replace (now - Z.of_nat j * 3600000 + c)
      with (now + c + (- Z.of_nat j) * 3600000) by lia.
    apply Z_mod_plus_full. }
  pose proof (Z.mod_pos_bound (now + c) 3600000 ltac:(lia)) as Hr.
  rewrite (setMinutes000_fixed _ c).
  - rewrite Hmod. lia.
  - apply Hutc. lia.
  - apply Hloc. rewrite Hmod. lia.
Qed.

(** *** Activity in a slot *)

Lemma someM_in_slot (slot : Z) (arr : list value) :
  allEntries arr = true ->
  exists b,
    someM (fun ci =>
             time <- get ci "time" ;;
             match parseCheckTime time with
             | None => Ok false
             | Some t => Ok ((slot <=? t) && (t <? slot + 3600000))
             end) arr = Ok b /\
    (b = true <->
     exists ci t, In ci arr /\ instantOf ci = Some t /\
                  slot <= t < slot + 3600000).
Proof.
  induction arr as [|e arr IH]; intros Hall.
  - exists false. simpl. split; [reflexivity|].
    split; [discriminate | intros (ci & t & [] & _)].
  - apply allEntries_cons in Hall. destruct Hall as [He Hall].
    destruct (IH Hall) as (b & Hb & Hiff).
    simpl. rewrite (get_entry _ _ He). simpl. fold (instantOf e).
    destruct (instantOf e) as [t|] eqn:E; simpl.
    + destruct ((slot <=? t) && (t <? slot + 3600000)) eqn:C.
      * exists true. split; [reflexivity|]. split; [intros _|reflexivity].
        apply andb_true_iff in C. destruct C as [C1 C2].
        apply Z.leb_le in C1. apply Z.ltb_lt in C2.
        exists e, t. simpl. auto.
      * exists b. split; [exact Hb|]. rewrite Hiff.
        split; intros (ci & t' & Hin & Hi & Hr).
        -- exists ci, t'. simpl. auto.
        -- destruct Hin as [<-|Hin]; [|exists ci, t'; auto].
           rewrite E in Hi. inversion Hi; subst t'.
           apply andb_false_iff in C.
           destruct C as [C|C];
             [apply Z.leb_gt in C | apply Z.ltb_ge in C]; lia.
    + exists b. split; [exact Hb|]. rewrite Hiff.
      split; intros (ci & t' & Hin & Hi & Hr).
      * exists ci, t'. simpl. auto.
      * destruct Hin as [<-|Hin]; [congruence | exists ci, t'; auto].
Qed.

(** ** The claims *)


(** C2, as amended.  On a string that is not empty, [parseCheckTime]
    replaces the first occurrence of [" at "] by a space, then replaces
    [UTC] by [GMT] in the leftmost marker made of [UTC], a sign and
    digits, wherever the marker stands (the sign and the digits are
    kept), and hands the result to the date parser;
    ["November 20, 2025 at 12:55:25 AM UTC-5"] is parsed as
    ["November 20, 2025 12:55:25 AM GMT-5"].  The empty string gives
    [null] without reaching the parser. *)
Theorem parseCheckTime_first_occurrences (str : string) :
  str <> "" ->
  parseCheckTime (VStr str) = dateParse (cleaned str) /\
  (exists mid,
      replacesFirst (startsWith " at ") " at " " " str mid /\
      replacesFirst markerAtFront "UTC" "GMT" mid (cleaned str)) /\
  parseCheckTime (VStr "November 20, 2025 at 12:55:25 AM UTC-5") =
  dateParse "November 20, 2025 12:55:25 AM GMT-5" /\
  parseCheckTime (VStr "") = None.
Proof.
  intros Hne. repeat split.
  - unfold parseCheckTime. destruct str; [congruence | reflexivity].
  - exists (replaceFirst " at " " " str). split.
    + apply replaceFirst_spec.
    + apply replaceUTC_spec.
Qed.

(** The slots in a zone of constant offset.  When the local zone keeps one
    offset from UTC throughout the 24 hours before [now], the slot loop
    returns exactly 24 instants, oldest first, each at the top of a local
    hour, each exactly 3,600,000 ms after the previous, the last one at
    most [now] and strictly greater than [now] minus one hour. *)
Theorem buildSlots_fixed_offset (now c : Z) :
  (forall t, now - 24 * 3600000 < t <= now -> localTZA t true = c) ->
  (forall t, now - 24 * 3600000 < t - c <= now -> localTZA t false = c) ->
  slotsAsSpecified now (buildSlots now).
Proof.
  intros Hutc Hloc. unfold slotsAsSpecified, buildSlots.
  pose proof (Z.mod_pos_bound (now + c) 3600000 ltac:(lia)) as Hr.
  assert (Hnth : forall k, (k <= 23)%nat ->
            nth_error (slotsFrom now 23) k =
            Some (now - (now + c) mod 3600000
                  - (23 - Z.of_nat k) * 3600000)).
  { intros k Hk. rewrite slotsFrom_nth_error by exact Hk.
    rewrite (slot_fixed_offset now c) by (auto; lia).
    rewrite Nat2Z.inj_sub by exact Hk. reflexivity. }
  assert (Hlen := slotsFrom_length now 23).
  split; [exact Hlen|]. split; [|split].
  - intros i a b Ha Hb.
    assert (Hi : (S i < 24)%nat).
    { rewrite <- Hlen. apply nth_error_Some. congruence. }
    rewrite Hnth in Ha by lia. rewrite Hnth in Hb by lia.
    apply Some_eq in Ha, Hb. lia.
  - apply Forall_forall. intros s Hs.
    apply In_nth_error in Hs. destruct Hs as [k Hk].
    assert (Hi : (k < 24)%nat).
    { rewrite <- Hlen. apply nth_error_Some. congruence. }
    rewrite Hnth in Hk by lia. apply Some_eq in Hk. subst s.
    unfold topOfHour, localTime, msPerHour.
    rewrite Hutc by lia.
    pose proof (Z.div_mod (now + c) 3600000 ltac:(lia)) as Hdm.
    replace (now - (now + c) mod 3600000 - (23 - Z.of_nat k) * 3600000 + c)
      with (((now + c) / 3600000 - (23 - Z.of_nat k)) * 3600000) by lia.
    apply Z.mod_mul. lia.
  - eexists. split; [apply Hnth; lia|]. simpl. lia.
Qed.

(** C4, as amended.  [getCheckInsArray] returns an empty sequence when
    the patient is absent or has no [checkIns] field, the sequence itself
    when [checkIns] is an array, the values of the mapping when it is an
    object, an empty sequence when it is [null], a boolean or a number,
    and, when it is a string, the string's characters, each as a string
    of length one; such a character is not [null] and has no [time]. *)
Theorem getCheckInsArray_shapes (patient : value) :
  (truthy patient = false -> getCheckInsArray patient = []) /\
  (prop patient "checkIns" = VUndefined -> getCheckInsArray patient = []) /\
  (forall elems, prop patient "checkIns" = VArr elems ->
                 getCheckInsArray patient = elems) /\
  (forall mapping, prop patient "checkIns" = VObj mapping ->
                   getCheckInsArray patient = map snd mapping) /\
  (prop patient "checkIns" = VNull -> getCheckInsArray patient = []) /\
  (forall b, prop patient "checkIns" = VBool b ->
             getCheckInsArray patient = []) /\
  (forall x, prop patient "checkIns" = VNum x ->
             getCheckInsArray patient = []) /\
  (forall s, prop patient "checkIns" = VStr s ->
             getCheckInsArray patient = chars s /\
             forall e, In e (chars s) ->
                       nullish e = false /\ prop e "time" = VUndefined).
Proof.
  assert (Hchars : forall s e, In e (chars s) ->
                     nullish e = false /\ prop e "time" = VUndefined).
  { induction s as [|c s IH]; intros e; simpl; [intros []|].
    intros [<- | He]; [split; reflexivity | now apply IH]. }
  unfold getCheckInsArray.
  repeat split; try (intros ? H || intros H); rewrite ?H; simpl;
    try reflexivity.
  - now rewrite orb_true_r.
  - assert (T : truthy patient = true) by (destruct patient; now try discriminate).
    now rewrite T.
  - assert (T : truthy patient = true) by (destruct patient; now try discriminate).
    now rewrite T.
  - now rewrite orb_true_r.
  - destruct (truthy patient), b; reflexivity.
  - destruct (truthy patient), (Qeq_bool x 0); reflexivity.
  - assert (T : truthy patient = true) by (destruct patient; now try discriminate).
    rewrite T. now destruct s.
  - now apply (Hchars s).
  - now apply (Hchars s).
Qed.

Lemma allEntries_Permutation (l l' : list value) :
  Permutation l l' -> allEntries l = true -> allEntries l' = true.
Proof.
  unfold allEntries. intros HP H. rewrite forallb_forall in *.
  intros x Hx. apply H. eapply Permutation_in; [|exact Hx].
  now apply Permutation_sym.
Qed.

(** C5.  When one entry of the patient has an instant strictly later than
    every other entry's, [getLastCheck] reports that entry, whatever the
    order of the entries in the input: the result carries its instant and
    its [staff] (the [staff] of the entry itself when it is a string or any
    other truthy value, the empty string when the entry has none), and a
    patient with the same entries in another order gets the same result.
    The [checkInInterval] is one that converts to a number [y]: the result
    is overdue exactly when the minutes since that instant exceed [y], and
    never when [y] is [NaN]. *)
Theorem getLastCheck_latest_wins
        (patient patient' : value) (now : Z) (latest : value) (t : Z)
        (y : option Q) :
  allEntries (getCheckInsArray patient) = true ->
  In latest (getCheckInsArray patient) ->
  instantOf latest = Some t ->
  (forall e t', In e (getCheckInsArray patient) -> instantOf e = Some t' ->
                e = latest \/ t' < t) ->
  Permutation (getCheckInsArray patient) (getCheckInsArray patient') ->
  intervalOf patient' = intervalOf patient ->
  toNumber (intervalOf patient) = Ok y ->
  exists r,
    getLastCheck patient now = Ok r /\
    getLastCheck patient' now = Ok r /\
    display r = toLocaleString t /\
    date r = Some t /\
    staff r = (if truthy (prop latest "staff") then prop latest "staff"
               else VStr "") /\
    (forall s, prop latest "staff" = VStr s -> staff r = VStr s) /\
    (prop latest "staff" = VUndefined -> staff r = VStr "") /\
    (forall q, y = Some q ->
               (isOverdue r = true <-> (q < minutesSince now t)%Q)) /\
    (y = None -> isOverdue r = false).
Proof.
  intros Hall Hin Ht Hstrict Hperm Hint Hy.
  assert (Hone : forall p, allEntries (getCheckInsArray p) = true ->
            Permutation (getCheckInsArray patient) (getCheckInsArray p) ->
            getLastCheck p now =
            (late <- gt (minutesSince now t) (intervalOf p) ;;
             Ok {| display := toLocaleString t;
                   date := Some t;
                   staff := staffOf latest;
                   isOverdue := late |})).
  { intros p Hallp Hp.
    assert (Hinp : forall e, In e (getCheckInsArray p) ->
                             In e (getCheckInsArray patient))
      by (intros e He; eapply Permutation_in;
          [apply Permutation_sym; exact Hp | exact He]).
    destruct (getLastCheck_cases p now Hallp)
      as [[Hnone _] | (w & t' & Hw & Hwt & Hmax & Hr)].
    - rewrite (Hnone latest) in Ht; [discriminate|].
      eapply Permutation_in; eauto.
    - assert (Hle : t <= t')
        by (apply (Hmax latest); [eapply Permutation_in; eauto | exact Ht]).
      destruct (Hstrict w t' (Hinp _ Hw) Hwt) as [-> | Hlt]; [|lia].
      assert (t' = t) by congruence. subst t'. exact Hr. }
  pose proof (Hone patient Hall (Permutation_refl _)) as H1.
  pose proof (Hone patient' (allEntries_Permutation _ _ Hperm Hall) Hperm)
    as H2.
  rewrite Hint in H2. unfold gt in H1, H2. rewrite Hy in H1, H2.
  cbn [bind] in H1, H2.
  eexists. split; [exact H1|]. split; [exact H2|].
  cbn [display date staff isOverdue]. unfold staffOf, or_else.
  split; [reflexivity|]. split; [reflexivity|]. split; [reflexivity|].
  split; [intros s Hs; rewrite Hs; simpl; now destruct s|].
  split; [intros Hs; now rewrite Hs|].
  split.
  - intros q ->. cbn [gtNumber]. apply Qltb_lt.
  - intros ->. reflexivity.
Qed.

(** C6.  On a patient whose check-ins are entries, [hasCheckInInSlot]
    returns [true] if and only if the [time] of at least one entry
    normalizes to an instant [t] with
    [slot <= t < slot + 3,600,000]: an entry whose [time] does not
    normalize never counts, nor does an instant equal to the upper
    bound. *)
Theorem hasCheckInInSlot_half_open (patient : value) (slot : Z) :
  allEntries (getCheckInsArray patient) = true ->
  exists b,
    hasCheckInInSlot patient slot = Ok b /\
    (b = true <->
     exists ci t, In ci (getCheckInsArray patient) /\
                  instantOf ci = Some t /\
                  slot <= t < slot + 3600000).
Proof. intros Hall. unfold hasCheckInInSlot. now apply someM_in_slot. Qed.

(** C7.  On a patient with no check-in, or whose entries all have a
    [time] that does not normalize, [getLastCheck] returns exactly the
    sentinel [{display: "None", date: null, staff: "", isOverdue: true}]:
    the two cases are not told apart. *)
Theorem getLastCheck_none (patient : value) (now : Z) :
  getCheckInsArray patient = [] \/
  (allEntries (getCheckInsArray patient) = true /\
   forall e, In e (getCheckInsArray patient) -> instantOf e = None) ->
  getLastCheck patient now =
  Ok {| display := "None"; date := None; staff := VStr "";
        isOverdue := true |}.
Proof.
  intros [Hempty | [Hall Hnone]].
  - unfold getLastCheck. now rewrite Hempty.
  - destruct (getLastCheck_cases patient now Hall)
      as [[_ Hr] | (w & t & Hw & Hwt & _)].
    + exact Hr.
    + rewrite (Hnone _ Hw) in Hwt. discriminate.
Qed.

(** C8.  The result of [getLastCheck] is a function of the extracted
    check-ins, of [checkInInterval || 0] and of the current instant: two
    patients that agree on the first two get equal results at the same
    instant, whatever else they hold. *)
Theorem getLastCheck_pure (patient1 patient2 : value) (now : Z) :
  getCheckInsArray patient1 = getCheckInsArray patient2 ->
  intervalOf patient1 = intervalOf patient2 ->
  getLastCheck patient1 now = getLastCheck patient2 now.
Proof.
  intros Harr Hint. unfold getLastCheck.
  pose proof (getCheckInsArray_truthy patient1) as H1.
  pose proof (getCheckInsArray_truthy patient2) as H2.
  rewrite <- Harr in *.
  destruct (getCheckInsArray patient1) as [|e arr]; [reflexivity|].
  rewrite (get_entry patient1 _ (H1 ltac:(discriminate))).
  rewrite (get_entry patient2 _ (H2 ltac:(discriminate))).
  cbn [bind]. fold (intervalOf patient1) (intervalOf patient2).
  now rewrite Hint.
Qed.

(** C9.  [parseCheckTime] returns [null] on [null], on [undefined] and on
    any value that is not a string, and returns [null], without throwing,
    on a string that the date parser rejects after the substitution. *)
Theorem parseCheckTime_null_on_failure (str : value) :
  typeofString str = false \/
  (exists s, str = VStr s /\ dateParse (cleaned s) = None) ->
  parseCheckTime str = None.
Proof.
  unfold parseCheckTime. intros [H | (s & -> & H)].
  - rewrite H. now rewrite orb_true_r.
  - now destruct (negb (truthy (VStr s)) || negb (typeofString (VStr s))).
Qed.

(** C10.  When the latest instant of a patient is strictly after [now],
    [minutesSince] is negative and [getLastCheck] reports that instant
    with [isOverdue] false, for every [checkInInterval] that is not
    negative. *)
Theorem getLastCheck_future_not_overdue
        (patient : value) (now : Z) (e0 : value) (t0 : Z) (q : Q) :
  allEntries (getCheckInsArray patient) = true ->
  In e0 (getCheckInsArray patient) ->
  instantOf e0 = Some t0 ->
  (forall e t', In e (getCheckInsArray patient) ->
                instantOf e = Some t' -> t' <= t0) ->
  now < t0 ->
  (prop patient "checkInInterval" = VNum q \/
   (prop patient "checkInInterval" = VUndefined /\ (q == 0)%Q)) ->
  (0 <= q)%Q ->
  (minutesSince now t0 < 0)%Q /\
  exists r,
    getLastCheck patient now = Ok r /\
    date r = Some t0 /\
    isOverdue r = false.
Proof.
  intros Hall Hin Ht0 Hmax Hfut Hq Hpos.
  assert (Hneg : (minutesSince now t0 < 0)%Q)
    by (now apply minutesSince_negative).
  split; [exact Hneg|].
  destruct (getLastCheck_cases patient now Hall)
    as [[Hnone _] | (w & t & Hw & Hwt & Hmax' & Hr)].
  - rewrite (Hnone _ Hin) in Ht0. discriminate.
  - assert (t = t0).
    { pose proof (Hmax _ _ Hw Hwt). pose proof (Hmax' _ _ Hin Ht0). lia. }
    subst t.
    destruct (gt_intervalOf patient q (minutesSince now t0) Hq)
      as (b & Hb & Hgt).
    rewrite Hb in Hr. cbn [bind] in Hr.
    eexists. split; [exact Hr|]. cbn [date isOverdue].
    split; [reflexivity|].
    apply not_true_is_false. intros G.
    apply Hgt in G.
    apply (Qlt_irrefl 0).
    apply Qle_lt_trans with q; [exact Hpos|].
    now apply Qlt_trans with (minutesSince now t0).
Qed.

(** ** More on the functions and on the pages *)

Ltac forget_environment := try clear numberToString; forget_engine.

(** *** [getLastCheck] *)

Lemma mapM_parseEntry_exact (arr : list value) :
  allEntries arr = true -> mapM parseEntry arr = Ok (map parsedOf arr).
Proof.
  induction arr as [|e arr IH]; intros Hall; [reflexivity|].
  apply allEntries_cons in Hall. destruct Hall as [He Hall].
  simpl. unfold parseEntry at 1. rewrite (get_entry _ _ He). simpl.
  rewrite (IH Hall). unfold parsedOf at 2, instantOf.
  destruct (parseCheckTime (prop e "time")); reflexivity.
Qed.

Lemma mapM_parseEntry_throws (arr : list value) :
  allEntries arr = false -> mapM parseEntry arr = TypeError.
Proof.
  induction arr as [|e arr IH]; intros Hall; [discriminate|].
  unfold allEntries in Hall. simpl in Hall. simpl. unfold parseEntry at 1.
  unfold get. destruct (nullish e); [reflexivity|].
  simpl in Hall. rewrite (IH Hall). simpl.
  destruct (parseCheckTime (prop e "time")); reflexivity.
Qed.

(** [getLastCheck] on entries, with the loop resolved. *)
Lemma getLastCheck_exact (patient : value) (now : Z) :
  allEntries (getCheckInsArray patient) = true ->
  getLastCheck patient now =
  match sortBy (fun a b => parsed_date b - parsed_date a)
               (validEntries (getCheckInsArray patient)) with
  | [] => Ok noneResult
  | latest :: _ =>
      late <- gt (minutesSince now (parsed_date latest))
                 (intervalOf patient) ;;
      Ok {| display := toLocaleString (parsed_date latest);
            date := Some (parsed_date latest);
            staff := staffOf (parsed_entry latest);
            isOverdue := late |}
  end.
Proof.
  intros Hall. unfold getLastCheck, validEntries.
  pose proof (getCheckInsArray_truthy patient) as Hp.
  destruct (getCheckInsArray patient) as [|e0 arr0] eqn:Harr; [reflexivity|].
  specialize (Hp ltac:(discriminate)).
  rewrite (mapM_parseEntry_exact _ Hall). cbn [List.length Nat.eqb bind].
  destruct (sortBy _ _); [reflexivity|].
  rewrite (get_entry _ _ Hp). reflexivity.
Qed.

Lemma sortBy_nil {A : Type} (cmp : A -> A -> Z) (l : list A) :
  sortBy cmp l = [] -> l = [].
Proof.
  intros H. pose proof (sortBy_Permutation cmp l) as HP. rewrite H in HP.
  now apply Permutation_sym, Permutation_nil in HP.
Qed.

(** A stable sort with [(a, b) => key(b) - key(a)] puts first the earliest
    of the elements of greatest key. *)
Lemma sortBy_first_greatest {A : Type} (key : A -> Z) (l : list A)
      (h : A) (r : list A) :
  sortBy (fun a b => key b - key a) l = h :: r ->
  exists l1 l2,
    l = (l1 ++ h :: l2)%list /\
    (forall y, In y l1 -> key y < key h) /\
    (forall y, In y l2 -> key y <= key h).
Proof.
  revert h r. induction l as [|x l IH]; intros h r Hs; [discriminate|].
  simpl in Hs.
  destruct (sortBy (fun a b => key b - key a) l) as [|h' r'] eqn:E.
  - apply sortBy_nil in E. subst l. simpl in Hs. inversion Hs; subst.
    exists [], []. repeat split; intros y [].
  - destruct (IH h' r' eq_refl) as (l1 & l2 & -> & Hlt & Hle).
    simpl in Hs. destruct (key h' - key x <=? 0) eqn:C.
    + inversion Hs; subst. apply Z.leb_le in C.
      exists [], (l1 ++ h' :: l2)%list. repeat split; [intros y []|].
      intros y Hy. apply in_app_or in Hy.
      destruct Hy as [Hy | [<- | Hy]].
      * specialize (Hlt y Hy). lia.
      * lia.
      * specialize (Hle y Hy). lia.
    + inversion Hs; subst. apply Z.leb_gt in C.
      exists (x :: l1), l2. repeat split; auto.
      intros y [<- | Hy]; [lia | now apply Hlt].
Qed.

(** The earliest element of greatest key is determined by the list. *)
Lemma first_greatest_unique {A : Type} (key : A -> Z)
      (a1 b1 a2 b2 : list A) (h1 h2 : A) :
  (a1 ++ h1 :: b1)%list = (a2 ++ h2 :: b2)%list ->
  (forall y, In y a1 -> key y < key h1) ->
  (forall y, In y b1 -> key y <= key h1) ->
  (forall y, In y a2 -> key y < key h2) ->
  (forall y, In y b2 -> key y <= key h2) ->
  h1 = h2.
Proof.
  revert a2. induction a1 as [|x a1 IH]; intros a2 Heq H1 H1' H2 H2'.
  - destruct a2 as [|y a2]; simpl in Heq.
    + now inversion Heq.
    + inversion Heq; subst. exfalso.
      assert (key y < key h2) by (apply H2; now left).
      assert (key h2 <= key y) by (apply H1'; apply in_or_app; right; now left).
      lia.
  - destruct a2 as [|y a2]; simpl in Heq.
    + inversion Heq; subst. exfalso.
      assert (key h2 < key h1) by (apply H1; now left).
      assert (key h1 <= key h2) by (apply H2'; apply in_or_app; right; now left).
      lia.
    + inversion Heq; subst. apply (IH a2); auto.
      * intros z Hz. apply H1. now right.
      * intros z Hz. apply H2. now right.
Qed.

Lemma validEntries_app (l1 l2 : list value) :
  validEntries (l1 ++ l2) = (validEntries l1 ++ validEntries l2)%list.
Proof.
  unfold validEntries. induction l1 as [|e l1 IH]; [reflexivity|].
  simpl. destruct (parsedOf e); simpl; now rewrite IH.
Qed.

Lemma validEntries_In (arr : list value) (pe : parsedEntry) :
  In pe (validEntries arr) <->
  In (parsed_entry pe) arr /\
  instantOf (parsed_entry pe) = Some (parsed_date pe).
Proof.
  forget_environment.
  unfold validEntries. induction arr as [|e arr IH]; simpl; [tauto|].
  unfold parsedOf at 1. destruct (instantOf e) as [d|] eqn:E; simpl;
    rewrite IH.
  - split.
    + intros [<- | [H1 H2]]; simpl; auto.
    + intros [[-> | H1] H2]; auto.
      left. destruct pe as [e' d']; simpl in *. congruence.
  - split; [tauto|]. intros [[-> | H1] H2]; [congruence | tauto].
Qed.

(** The report of [getLastCheck] when the earliest entry of greatest instant
    is known. *)
Lemma getLastCheck_first_latest (patient : value) (now : Z)
      (l1 l2 : list value) (e : value) (t : Z) :
  getCheckInsArray patient = (l1 ++ e :: l2)%list ->
  allEntries (getCheckInsArray patient) = true ->
  instantOf e = Some t ->
  (forall x t', In x l1 -> instantOf x = Some t' -> t' < t) ->
  (forall x t', In x l2 -> instantOf x = Some t' -> t' <= t) ->
  getLastCheck patient now =
  (late <- gt (minutesSince now t) (intervalOf patient) ;;
   Ok {| display := toLocaleString t;
         date := Some t;
         staff := staffOf e;
         isOverdue := late |}).
Proof.
  intros Harr Hall He H1 H2. rewrite (getLastCheck_exact _ _ Hall).
  assert (Hv : validEntries (getCheckInsArray patient) =
               (validEntries l1 ++ mkParsed e t :: validEntries l2)%list).
  { rewrite Harr, validEntries_app. f_equal.
    unfold validEntries at 1. simpl. unfold parsedOf at 1. now rewrite He. }
  destruct (sortBy _ (validEntries (getCheckInsArray patient)))
    as [|latest rest] eqn:Hs.
  - apply sortBy_nil in Hs. rewrite Hv in Hs.
    destruct (validEntries l1); discriminate.
  - destruct (sortBy_first_greatest parsed_date _ _ _ Hs)
      as (a & b & Hab & Ha & Hb).
    assert (latest = mkParsed e t).
    { apply (first_greatest_unique parsed_date a b (validEntries l1)
                                   (validEntries l2)); auto.
      - now rewrite <- Hab.
      - intros y Hy. apply validEntries_In in Hy. destruct Hy as [Hy1 Hy2].
        simpl. eapply H1; eauto.
      - intros y Hy. apply validEntries_In in Hy. destruct Hy as [Hy1 Hy2].
        simpl. eapply H2; eauto. }
    subst latest. reflexivity.
Qed.

Lemma getLastCheck_throws (patient : value) (now : Z) :
  allEntries (getCheckInsArray patient) = false ->
  getLastCheck patient now = TypeError.
Proof.
  intros Hall. unfold getLastCheck.
  destruct (getCheckInsArray patient) as [|e arr] eqn:E; [discriminate|].
  now rewrite (mapM_parseEntry_throws _ Hall).
Qed.

Lemma allEntries_insert (l1 l2 : list value) (x : value) :
  nullish x = false ->
  allEntries (l1 ++ x :: l2) = allEntries (l1 ++ l2).
Proof.
  intros Hx. unfold allEntries. rewrite !forallb_app. simpl.
  now rewrite Hx.
Qed.

Lemma gt_later (now now' t : Z) (interval : value) (b : bool) :
  now <= now' ->
  gt (minutesSince now t) interval = Ok b ->
  exists b',
    gt (minutesSince now' t) interval = Ok b' /\ (b = true -> b' = true).
Proof.
  intros H. unfold gt. destruct (toNumber interval) as [y|]; cbn [bind];
    [|discriminate].
  intros Hb. apply Ok_eq in Hb. subst b. eexists. split; [reflexivity|].
  destruct y as [y|]; simpl; [|auto].
  rewrite !Qltb_lt. intros Hlt.
  eapply Qlt_le_trans; [exact Hlt | now apply minutesSince_monotone].
Qed.

(** X1.  [getLastCheck] throws in two cases and no other: when the
    check-ins of the patient hold a [null] or [undefined] element, and
    when some entry normalizes and [checkInInterval] is an array or an
    object whose conversion to a number, for the comparison, throws. *)
Theorem getLastCheck_throws_iff (patient : value) (now : Z) :
  getLastCheck patient now = TypeError <->
  allEntries (getCheckInsArray patient) = false \/
  ((exists e t, In e (getCheckInsArray patient) /\ instantOf e = Some t) /\
   (isArray (prop patient "checkInInterval") = true \/
    exists props, prop patient "checkInInterval" = VObj props) /\
   objectToNumber (prop patient "checkInInterval") = TypeError).
Proof.
  fold (intervalThrows patient). rewrite <- toNumber_intervalOf_throws.
  split.
  - intros H. destruct (allEntries (getCheckInsArray patient)) eqn:Hall;
      [|now left].
    right.
    destruct (getLastCheck_cases patient now Hall)
      as [[_ Hr] | (w & t & Hw & Hwt & _ & Hr)]; [congruence|].
    split; [exists w, t; auto|].
    rewrite Hr in H. unfold gt in H.
    destruct (toNumber (intervalOf patient)); [discriminate | reflexivity].
  - intros [Hall | [(e & t & He & Ht) Hthrow]].
    + now apply getLastCheck_throws.
    + destruct (allEntries (getCheckInsArray patient)) eqn:Hall;
        [|now apply getLastCheck_throws].
      destruct (getLastCheck_cases patient now Hall)
        as [[Hnone _] | (w & t' & _ & _ & _ & Hr)].
      * rewrite (Hnone _ He) in Ht. discriminate.
      * rewrite Hr. unfold gt. now rewrite Hthrow.
Qed.

(** X2.  Among the entries that share the greatest instant, the one that
    comes first in the check-ins is reported ([Array.prototype.sort] is
    stable): with every earlier entry strictly older (or without an
    instant), no later entry more recent and a [checkInInterval] that
    converts to a number, the result carries the instant of that entry and
    its [staff], the [staff] of the entry itself when it is truthy and the
    empty string otherwise. *)
Theorem getLastCheck_tie_keeps_first (patient : value) (now : Z)
        (l1 l2 : list value) (e : value) (t : Z) (y : option Q) :
  getCheckInsArray patient = (l1 ++ e :: l2)%list ->
  allEntries (getCheckInsArray patient) = true ->
  instantOf e = Some t ->
  (forall x t', In x l1 -> instantOf x = Some t' -> t' < t) ->
  (forall x t', In x l2 -> instantOf x = Some t' -> t' <= t) ->
  toNumber (intervalOf patient) = Ok y ->
  exists r,
    getLastCheck patient now = Ok r /\
    date r = Some t /\
    staff r = (if truthy (prop e "staff") then prop e "staff" else VStr "") /\
    (forall s, prop e "staff" = VStr s -> staff r = VStr s) /\
    display r = toLocaleString t.
Proof.
  intros Harr Hall He H1 H2 Hy.
  rewrite (getLastCheck_first_latest patient now l1 l2 e t Harr Hall He H1 H2).
  unfold gt. rewrite Hy. cbn [bind].
  eexists. split; [reflexivity|]. cbn [date staff display].
  unfold staffOf, or_else. repeat split.
  intros s Hs. rewrite Hs. simpl. now destruct s.
Qed.

(** X3.  As the clock advances the report on a patient keeps its instant,
    its staff and its display, and a patient that is overdue stays
    overdue. *)
Theorem getLastCheck_overdue_persists (patient : value) (now now' : Z)
        (r : lastCheck) :
  now <= now' ->
  getLastCheck patient now = Ok r ->
  exists r',
    getLastCheck patient now' = Ok r' /\
    display r' = display r /\ date r' = date r /\ staff r' = staff r /\
    (isOverdue r = true -> isOverdue r' = true).
Proof.
  intros Hle Hr.
  destruct (allEntries (getCheckInsArray patient)) eqn:Hall.
  - rewrite (getLastCheck_exact _ _ Hall) in Hr.
    rewrite (getLastCheck_exact _ now' Hall).
    destruct (sortBy _ _) as [|latest rest].
    + exists r. inversion Hr; subst. auto.
    + destruct (gt _ (intervalOf patient)) as [b|] eqn:Hb; [|discriminate].
      destruct (gt_later _ _ _ _ _ Hle Hb) as (b' & Hb' & Hbb').
      rewrite Hb'. cbn [bind] in *.
      eexists. split; [reflexivity|]. inversion Hr; subst. simpl.
      repeat split. exact Hbb'.
  - rewrite (getLastCheck_throws _ _ Hall) in Hr. discriminate.
Qed.

(** X4.  An entry whose [time] does not normalize, or whose instant is
    strictly older than that of another entry, changes nothing wherever it
    stands in the check-ins: the patient with it and the patient without
    it get the same report (or both make [getLastCheck] throw). *)
Theorem getLastCheck_ignores_weaker_entry
        (patient patient' : value) (now : Z)
        (l1 l2 : list value) (x : value) :
  getCheckInsArray patient = (l1 ++ l2)%list ->
  getCheckInsArray patient' = (l1 ++ x :: l2)%list ->
  intervalOf patient' = intervalOf patient ->
  nullish x = false ->
  (instantOf x = None \/
   exists t e t', instantOf x = Some t /\ In e (l1 ++ l2) /\
                  instantOf e = Some t' /\ t < t') ->
  getLastCheck patient' now = getLastCheck patient now.
Proof.
  intros Harr Harr' Hint Hx Hweak.
  assert (Hsame : allEntries (getCheckInsArray patient') =
                  allEntries (getCheckInsArray patient))
    by (rewrite Harr, Harr'; now apply allEntries_insert).
  destruct (allEntries (getCheckInsArray patient)) eqn:Hall.
  2:{ now rewrite !getLastCheck_throws. }
  rewrite (getLastCheck_exact _ _ Hall), (getLastCheck_exact _ _ Hsame).
  rewrite Hint, Harr, Harr'.
  replace (l1 ++ x :: l2)%list with (l1 ++ [x] ++ l2)%list by reflexivity.
  rewrite !validEntries_app.
  destruct Hweak as [Hnone | (t & e & t' & Ht & He & Het' & Hlt)].
  - unfold validEntries at 2. simpl. unfold parsedOf. rewrite Hnone.
    reflexivity.
  - unfold validEntries at 2. simpl. unfold parsedOf at 1. rewrite Ht.
    simpl.
    assert (Hin : In (mkParsed e t') (validEntries l1 ++ validEntries l2)).
    { rewrite <- validEntries_app. apply validEntries_In. simpl. auto. }
    generalize dependent (validEntries l1). intros v1.
    generalize dependent (validEntries l2). intros v2 Hin.
    set (px := {| parsed_entry := x; parsed_date := t |}).
    destruct (sortBy (fun a b => parsed_date b - parsed_date a) (v1 ++ v2))
      as [|h rest] eqn:Hs.
    { apply sortBy_nil in Hs. rewrite Hs in Hin. destruct Hin. }
    destruct (sortBy_first_greatest parsed_date _ _ _ Hs)
      as (a & b & Hab & Ha & Hb).
    assert (Hh : parsed_date px < parsed_date h).
    { assert (t' <= parsed_date h); [|simpl; lia].
      rewrite Hab in Hin. apply in_app_or in Hin.
      destruct Hin as [Hin | [Heq | Hin]].
      - specialize (Ha _ Hin). simpl in Ha. lia.
      - rewrite Heq. simpl. lia.
      - specialize (Hb _ Hin). simpl in Hb. lia. }
    assert (Hdec : exists a' b',
               (v1 ++ px :: v2)%list = (a' ++ h :: b')%list /\
               (forall y, In y a' -> parsed_date y < parsed_date h) /\
               (forall y, In y b' -> parsed_date y <= parsed_date h)).
    { apply app_eq_app in Hab.
      destruct Hab as (m & [[Hv1 Hm] | [Ha' Hv2]]).
      - destruct m as [|m0 m]; simpl in Hm.
        + rewrite app_nil_r in Hv1. subst v1 v2.
          exists (a ++ [px])%list, b. repeat split.
          * now rewrite <- app_assoc.
          * intros y Hy. apply in_app_or in Hy.
            destruct Hy as [Hy | [<- | []]]; [auto | exact Hh].
          * exact Hb.
        + inversion Hm; subst.
          exists a, (m ++ px :: v2)%list. repeat split.
          * now rewrite <- app_assoc.
          * exact Ha.
          * intros y Hy. apply in_app_or in Hy.
            destruct Hy as [Hy | [<- | Hy]].
            -- apply Hb. apply in_or_app. now left.
            -- lia.
            -- apply Hb. apply in_or_app. now right.
      - subst a v2.
        exists (v1 ++ px :: m)%list, b. repeat split.
        + rewrite <- app_assoc. reflexivity.
        + intros y Hy. apply in_app_or in Hy.
          destruct Hy as [Hy | [<- | Hy]].
          * apply Ha. apply in_or_app. now left.
          * exact Hh.
          * apply Ha. apply in_or_app. now right.
        + exact Hb. }
    destruct Hdec as (a' & b' & Hab' & Ha' & Hb').
    destruct (sortBy (fun a b => parsed_date b - parsed_date a)
                     (v1 ++ px :: v2)) as [|h' rest'] eqn:Hs'.
    { apply sortBy_nil in Hs'. destruct v1; discriminate. }
    destruct (sortBy_first_greatest parsed_date _ _ _ Hs')
      as (a2 & b2 & Hab2 & Ha2 & Hb2).
    assert (h' = h).
    { apply (first_greatest_unique parsed_date a2 b2 a' b'); auto.
      now rewrite <- Hab2. }
    subst h'. reflexivity.
Qed.

(** *** [hasCheckInInSlot] and the grid *)

(** X5.  [hasCheckInInSlot] stops at the first entry in the slot: it
    returns [true] exactly when such an entry is preceded by entries only,
    and it throws exactly when a [null] or [undefined] element is preceded
    by entries none of which is in the slot. *)
Theorem hasCheckInInSlot_first_hit (patient : value) (slot : Z) :
  (hasCheckInInSlot patient slot = Ok true <->
   exists l1 ci l2 t,
     getCheckInsArray patient = (l1 ++ ci :: l2)%list /\
     allEntries l1 = true /\ nullish ci = false /\
     instantOf ci = Some t /\ slot <= t < slot + 3600000) /\
  (hasCheckInInSlot patient slot = TypeError <->
   exists l1 x l2,
     getCheckInsArray patient = (l1 ++ x :: l2)%list /\
     allEntries l1 = true /\ nullish x = true /\
     forall ci t, In ci l1 -> instantOf ci = Some t ->
                  ~ slot <= t < slot + 3600000).
Proof.
  unfold hasCheckInInSlot. cbv zeta.
  induction (getCheckInsArray patient) as [|e arr [IHt IHe]].
  - split; (split; [discriminate|]).
    + intros (l1 & ci & l2 & t & H & _). destruct l1; discriminate.
    + intros (l1 & x & l2 & H & _). destruct l1; discriminate.
  - cbn [someM]. unfold get at 1 3.
    destruct (nullish e) eqn:Hn; cbn [bind].
    + split; (split; [try discriminate|]).
      * intros (l1 & ci & l2 & t & H & Hall & Hci & _).
        destruct l1 as [|y l1]; simpl in H; inversion H; subst.
        -- congruence.
        -- apply allEntries_cons in Hall. destruct Hall. congruence.
      * intros _. exists [], e, arr. repeat split; auto.
        all: intros ci t [].
      * reflexivity.
    + fold (instantOf e).
      destruct (instantOf e) as [t|] eqn:Ht; cbn [bind].
      * destruct ((slot <=? t) && (t <? slot + 3600000)) eqn:C.
        -- apply andb_true_iff in C. destruct C as [C1 C2].
           apply Z.leb_le in C1. apply Z.ltb_lt in C2.
           split; (split; [try discriminate|]).
           ++ intros _. exists [], e, arr, t. repeat split; auto.
           ++ reflexivity.
           ++ intros (l1 & x & l2 & H & Hall & Hx & Hno).
              destruct l1 as [|y l1]; simpl in H; inversion H; subst.
              ** congruence.
              ** exfalso. apply (Hno y t); [now left | exact Ht | lia].
        -- assert (Hout : ~ slot <= t < slot + 3600000).
           { apply andb_false_iff in C.
             destruct C as [C|C];
               [apply Z.leb_gt in C | apply Z.ltb_ge in C]; lia. }
           split.
           ++ rewrite IHt. split.
              ** intros (l1 & ci & l2 & t0 & -> & Hall & Hci & Hi & Hr).
                 exists (e :: l1), ci, l2, t0. repeat split; auto; try lia.
                 apply allEntries_cons. auto.
              ** intros (l1 & ci & l2 & t0 & H & Hall & Hci & Hi & Hr).
                 destruct l1 as [|y l1]; simpl in H; inversion H; subst.
                 --- rewrite Ht in Hi. inversion Hi; subst. lia.
                 --- apply allEntries_cons in Hall. destruct Hall.
                     exists l1, ci, l2, t0. repeat split; auto; lia.
           ++ rewrite IHe. split.
              ** intros (l1 & x & l2 & -> & Hall & Hx & Hno).
                 exists (e :: l1), x, l2. repeat split; auto.
                 --- apply allEntries_cons. auto.
                 --- intros ci t0 [<- | Hci] Hi.
                     +++ rewrite Ht in Hi. inversion Hi; subst. exact Hout.
                     +++ eapply Hno; eauto.
              ** intros (l1 & x & l2 & H & Hall & Hx & Hno).
                 destruct l1 as [|y l1]; simpl in H; inversion H; subst.
                 --- congruence.
                 --- apply allEntries_cons in Hall. destruct Hall.
                     exists l1, x, l2. repeat split; auto.
                     intros ci t0 Hci. apply Hno. now right.
      * split.
        ++ rewrite IHt. split.
           ** intros (l1 & ci & l2 & t0 & -> & Hall & Hci & Hi & Hr).
              exists (e :: l1), ci, l2, t0. repeat split; auto; try lia.
              apply allEntries_cons. auto.
           ** intros (l1 & ci & l2 & t0 & H & Hall & Hci & Hi & Hr).
              destruct l1 as [|y l1]; simpl in H; inversion H; subst.
              --- congruence.
              --- apply allEntries_cons in Hall. destruct Hall.
                  exists l1, ci, l2, t0. repeat split; auto; lia.
        ++ rewrite IHe. split.
           ** intros (l1 & x & l2 & -> & Hall & Hx & Hno).
              exists (e :: l1), x, l2. repeat split; auto.
              --- apply allEntries_cons. auto.
              --- intros ci t0 [<- | Hci] Hi; [congruence|].
                  eapply Hno; eauto.
           ** intros (l1 & x & l2 & H & Hall & Hx & Hno).
              destruct l1 as [|y l1]; simpl in H; inversion H; subst.
              --- congruence.
              --- apply allEntries_cons in Hall. destruct Hall.
                  exists l1, x, l2. repeat split; auto.
                  intros ci t0 Hci. apply Hno. now right.
Qed.

(** The slots in a zone of constant offset, in closed form. *)
Lemma buildSlots_nth (now c : Z) (k : nat) :
  (forall t, now - 24 * 3600000 < t <= now -> localTZA t true = c) ->
  (forall t, now - 24 * 3600000 < t - c <= now -> localTZA t false = c) ->
  (k <= 23)%nat ->
  nth_error (buildSlots now) k =
  Some (now - (now + c) mod 3600000 - (23 - Z.of_nat k) * 3600000).
Proof.
  intros Hutc Hloc Hk. unfold buildSlots.
  rewrite slotsFrom_nth_error by exact Hk.
  rewrite (slot_fixed_offset now c) by (auto; lia).
  rewrite Nat2Z.inj_sub by exact Hk. reflexivity.
Qed.

Lemma buildSlots_nth_inv (now : Z) (i : nat) (s : Z) :
  nth_error (buildSlots now) i = Some s -> (i <= 23)%nat.
Proof.
  intros H. assert (Hs : nth_error (buildSlots now) i <> None) by congruence.
  apply nth_error_Some in Hs. unfold buildSlots in Hs.
  rewrite slotsFrom_length in Hs. lia.
Qed.

(** X6.  In a zone whose offset is constant throughout the 24 hours before
    [now], the 24 slots tile the time from the first slot on: every instant
    of the last 23 hours up to [now] lies in a slot, no instant lies in two
    slots, and an instant 24 hours old or more, or an hour or more after
    [now], lies in none. *)
Theorem buildSlots_partition (now c t : Z) :
  (forall u, now - 24 * 3600000 < u <= now -> localTZA u true = c) ->
  (forall u, now - 24 * 3600000 < u - c <= now -> localTZA u false = c) ->
  (now - 23 * 3600000 <= t <= now ->
   exists i s, nth_error (buildSlots now) i = Some s /\
               s <= t < s + 3600000) /\
  (forall i j s s',
      nth_error (buildSlots now) i = Some s ->
      nth_error (buildSlots now) j = Some s' ->
      s <= t < s + 3600000 -> s' <= t < s' + 3600000 -> i = j) /\
  (t <= now - 24 * 3600000 \/ now + 3600000 <= t ->
   forall i s, nth_error (buildSlots now) i = Some s ->
               ~ s <= t < s + 3600000).
Proof.
  intros Hutc Hloc.
  pose proof (Z.mod_pos_bound (now + c) 3600000 ltac:(lia)) as Hr.
  set (r := (now + c) mod 3600000) in *.
  assert (Hnth : forall k, (k <= 23)%nat ->
            nth_error (buildSlots now) k =
            Some (now - r - (23 - Z.of_nat k) * 3600000))
    by (intros k Hk; now apply buildSlots_nth).
  split; [|split].
  - intros Ht.
    pose proof (Z.div_mod (t - (now - r - 23 * 3600000)) 3600000 ltac:(lia))
      as Hdm.
    pose proof (Z.mod_pos_bound (t - (now - r - 23 * 3600000)) 3600000
                                ltac:(lia)) as Hm.
    set (q := (t - (now - r - 23 * 3600000)) / 3600000) in *.
    assert (Hq : 0 <= q <= 23) by lia.
    exists (Z.to_nat q). eexists. split; [apply Hnth; lia|].
    rewrite Z2Nat.id by lia. lia.
  - intros i j s s' Hi Hj Hs Hs'.
    pose proof (buildSlots_nth_inv _ _ _ Hi) as Hi'.
    pose proof (buildSlots_nth_inv _ _ _ Hj) as Hj'.
    rewrite Hnth in Hi, Hj by assumption.
    apply Some_eq in Hi, Hj. lia.
  - intros Hout i s Hi.
    pose proof (buildSlots_nth_inv _ _ _ Hi) as Hi'.
    rewrite Hnth in Hi by assumption. apply Some_eq in Hi. lia.
Qed.

Lemma getHours_slot (now c : Z) (k : nat) :
  (forall t, now - 24 * 3600000 < t <= now -> localTZA t true = c) ->
  (k <= 23)%nat ->
  getHours (now - (now + c) mod 3600000 - (23 - Z.of_nat k) * 3600000) =
  ((now + c) / 3600000 - (23 - Z.of_nat k)) mod 24.
Proof.
  intros Hutc Hk.
  pose proof (Z.mod_pos_bound (now + c) 3600000 ltac:(lia)) as Hr.
  pose proof (Z.div_mod (now + c) 3600000 ltac:(lia)) as Hdm.
  unfold getHours, hourFromTime, localTime, msPerHour.
  rewrite Hutc by lia. f_equal.
  replace (now - (now + c) mod 3600000 - (23 - Z.of_nat k) * 3600000 + c)
    with (((now + c) / 3600000 - (23 - Z.of_nat k)) * 3600000) by lia.
  apply Z.div_mul. lia.
Qed.

(** X7.  In a zone of constant offset the 24 column labels are the 24
    hours of the day, each once: each label is the previous one plus one
    modulo 24, and the last is the current local hour. *)
Theorem buildSlots_labels (now c : Z) :
  (forall t, now - 24 * 3600000 < t <= now -> localTZA t true = c) ->
  (forall t, now - 24 * 3600000 < t - c <= now -> localTZA t false = c) ->
  List.length (map getHours (buildSlots now)) = 24%nat /\
  nth_error (map getHours (buildSlots now)) 23 = Some (getHours now) /\
  (forall i a b,
      nth_error (map getHours (buildSlots now)) i = Some a ->
      nth_error (map getHours (buildSlots now)) (S i) = Some b ->
      b = (a + 1) mod 24) /\
  NoDup (map getHours (buildSlots now)) /\
  Forall (fun h => 0 <= h < 24) (map getHours (buildSlots now)).
Proof.
  intros Hutc Hloc.
  assert (Hlen : List.length (map getHours (buildSlots now)) = 24%nat)
    by (rewrite length_map; apply slotsFrom_length).
  assert (Hnth : forall k, (k <= 23)%nat ->
            nth_error (map getHours (buildSlots now)) k =
            Some (((now + c) / 3600000 - (23 - Z.of_nat k)) mod 24)).
  { intros k Hk. rewrite nth_error_map, (buildSlots_nth now c) by assumption.
    simpl. f_equal. now apply getHours_slot. }
  assert (Hinv : forall k a,
            nth_error (map getHours (buildSlots now)) k = Some a ->
            (k <= 23)%nat).
  { intros k a H.
    assert (Hs : nth_error (map getHours (buildSlots now)) k <> None)
      by congruence.
    apply nth_error_Some in Hs. lia. }
  split; [exact Hlen|]. split; [|split; [|split]].
  - rewrite Hnth by lia. f_equal.
    unfold getHours, hourFromTime, localTime, msPerHour.
    rewrite Hutc by lia.
    replace ((now + c) / 3600000 - (23 - Z.of_nat 23))
      with ((now + c) / 3600000) by lia.
    reflexivity.
  - intros i a b Ha Hb.
    pose proof (Hinv _ _ Hb) as Hi.
    rewrite Hnth in Ha, Hb by lia. apply Some_eq in Ha, Hb. subst a b.
    rewrite Zplus_mod_idemp_l. f_equal. lia.
  - apply NoDup_nth_error. intros i j Hi Hij.
    rewrite Hlen in Hi.
    assert (Hj : (j <= 23)%nat).
    { rewrite Hnth in Hij by lia. symmetry in Hij. eapply Hinv; eauto. }
    rewrite !Hnth in Hij by lia. apply Some_eq in Hij.
    pose proof (Z.div_mod ((now + c) / 3600000 - (23 - Z.of_nat i)) 24
                          ltac:(lia)) as H1.
    pose proof (Z.div_mod ((now + c) / 3600000 - (23 - Z.of_nat j)) 24
                          ltac:(lia)) as H2.
    rewrite Hij in H1. lia.
  - apply Forall_forall. intros h Hh.
    apply In_nth_error in Hh. destruct Hh as [k Hk].
    pose proof (Hinv _ _ Hk) as Hk'.
    rewrite Hnth in Hk by lia. apply Some_eq in Hk. subst h.
    apply Z.mod_pos_bound. lia.
Qed.

Lemma hasCheckInInSlot_entries (patient : value) (slot : Z) :
  allEntries (getCheckInsArray patient) = true ->
  exists b,
    hasCheckInInSlot patient slot = Ok b /\
    (b = true <->
     exists ci t, In ci (getCheckInsArray patient) /\
                  instantOf ci = Some t /\ slot <= t < slot + 3600000).
Proof. intros Hall. unfold hasCheckInInSlot. now apply someM_in_slot. Qed.

Lemma gridRow_cells_aux (patient : value) (slots : list Z) :
  allEntries (getCheckInsArray patient) = true ->
  exists cells,
    gridRow patient slots = Ok cells /\
    List.length cells = List.length slots /\
    forall i slot,
      nth_error slots i = Some slot ->
      exists b,
        nth_error cells i = Some b /\
        (b = true <->
         exists ci t, In ci (getCheckInsArray patient) /\
                      instantOf ci = Some t /\
                      slot <= t < slot + 3600000).
Proof.
  intros Hall. unfold gridRow.
  induction slots as [|s slots (cells & Hc & Hlen & Hcells)].
  - exists []. repeat split. intros [|i] slot H; discriminate.
  - destruct (hasCheckInInSlot_entries patient s Hall) as (b & Hb & Hiff).
    exists (b :: cells). simpl. rewrite Hb, Hc. simpl.
    repeat split; [now rewrite Hlen|].
    intros [|i] slot Hs; simpl in *.
    + apply Some_eq in Hs. subst slot. exists b. auto.
    + now apply Hcells.
Qed.

(** X8.  The row of a patient whose check-ins are entries has one cell per
    slot, and a cell is lit exactly when an entry of the patient has its
    instant in the slot of that cell. *)
Theorem gridRow_cells (patient : value) (slots : list Z) :
  allEntries (getCheckInsArray patient) = true ->
  exists cells,
    gridRow patient slots = Ok cells /\
    List.length cells = List.length slots /\
    forall i slot,
      nth_error slots i = Some slot ->
      exists b,
        nth_error cells i = Some b /\
        (b = true <->
         exists ci t, In ci (getCheckInsArray patient) /\
                      instantOf ci = Some t /\
                      slot <= t < slot + 3600000).
Proof. exact (gridRow_cells_aux patient slots). Qed.

(** X9.  In a zone of constant offset, a patient whose check-ins are
    entries and who was checked within the last 23 hours has a lit cell in
    the grid; a patient all of whose instants are 24 hours old or more, or
    an hour or more after [now], has none. *)
Theorem gridRow_recent_check (patient : value) (now c : Z) :
  (forall u, now - 24 * 3600000 < u <= now -> localTZA u true = c) ->
  (forall u, now - 24 * 3600000 < u - c <= now -> localTZA u false = c) ->
  allEntries (getCheckInsArray patient) = true ->
  exists cells,
    gridRow patient (buildSlots now) = Ok cells /\
    List.length cells = 24%nat /\
    ((exists ci t, In ci (getCheckInsArray patient) /\
                   instantOf ci = Some t /\
                   now - 23 * 3600000 <= t <= now) ->
     In true cells) /\
    ((forall ci t, In ci (getCheckInsArray patient) ->
                   instantOf ci = Some t ->
                   t <= now - 24 * 3600000 \/ now + 3600000 <= t) ->
     Forall (fun b => b = false) cells).
Proof.
  intros Hutc Hloc Hall.
  pose proof (Z.mod_pos_bound (now + c) 3600000 ltac:(lia)) as Hr.
  destruct (gridRow_cells_aux patient (buildSlots now) Hall)
    as (cells & Hc & Hlen & Hcells).
  exists cells. split; [exact Hc|].
  split; [rewrite Hlen; apply slotsFrom_length|]. split.
  - intros (ci & t & Hci & Ht & Hwin).
    pose proof (Z.div_mod (t - (now - (now + c) mod 3600000 - 23 * 3600000))
                          3600000 ltac:(lia)) as Hdm.
    pose proof (Z.mod_pos_bound
                  (t - (now - (now + c) mod 3600000 - 23 * 3600000))
                  3600000 ltac:(lia)) as Hm.
    set (q := (t - (now - (now + c) mod 3600000 - 23 * 3600000)) / 3600000)
      in *.
    assert (Hq : 0 <= q <= 23) by lia.
    assert (Hqn : (Z.to_nat q <= 23)%nat) by lia.
    destruct (Hcells (Z.to_nat q) _
                     (buildSlots_nth now c (Z.to_nat q) Hutc Hloc Hqn))
      as (b & Hb & Hiff).
    assert (b = true).
    { apply Hiff. exists ci, t. repeat split; auto;
        rewrite Z2Nat.id by lia; lia. }
    subst b. eapply nth_error_In; eauto.
  - intros Hold. apply Forall_forall. intros b Hb.
    apply In_nth_error in Hb. destruct Hb as [i Hi].
    assert (Hi' : (i <= 23)%nat).
    { assert (Hs : nth_error cells i <> None) by congruence.
      apply nth_error_Some in Hs. rewrite Hlen in Hs.
      unfold buildSlots in Hs. rewrite slotsFrom_length in Hs. lia. }
    destruct (Hcells i _ (buildSlots_nth now c _ Hutc Hloc Hi'))
      as (b' & Hb' & Hiff).
    assert (b' = b) by congruence. subst b'.
    destruct b; [|reflexivity]. exfalso.
    destruct (proj1 Hiff eq_refl) as (ci & t & Hci & Ht & Hin).
    destruct (Hold ci t Hci Ht); lia.
Qed.

(** *** The check-ins list *)

Lemma insertBy_sorted {A : Type} (key : A -> Z) (x : A) (l : list A) :
  StronglySorted (fun a b => key b <= key a) l ->
  StronglySorted (fun a b => key b <= key a)
                 (insertBy (fun a b => key b - key a) x l).
Proof.
  intros Hs. induction Hs as [|y l Hs IH Hy]; simpl.
  - repeat constructor.
  - destruct (key y - key x <=? 0) eqn:C.
    + apply Z.leb_le in C. constructor; [now constructor|].
      constructor; [lia|].
      rewrite Forall_forall in *. intros z Hz. specialize (Hy z Hz). lia.
    + apply Z.leb_gt in C. constructor; [exact IH|].
      rewrite Forall_forall in *. intros z Hz.
      apply insertBy_In in Hz. destruct Hz as [-> | Hz]; [lia | auto].
Qed.

Lemma sortBy_sorted {A : Type} (key : A -> Z) (l : list A) :
  StronglySorted (fun a b => key b <= key a)
                 (sortBy (fun a b => key b - key a) l).
Proof.
  induction l as [|x l IH]; simpl; [constructor|].
  now apply insertBy_sorted.
Qed.

Lemma forEachM_pushCheckin (p : value) (arr : list value)
      (acc : list checkinRow) :
  nullish p = false ->
  allEntries arr = true ->
  forEachM (pushCheckin p) arr acc =
  Ok (acc ++ map (fun pe => {| row_patient := prop p "name";
                               row_staff := staffOf (parsed_entry pe);
                               row_timeStr := prop (parsed_entry pe) "time";
                               row_date := parsed_date pe |})
                 (validEntries arr))%list.
Proof.
  intros Hp. revert acc. induction arr as [|e arr IH]; intros acc Hall.
  - simpl. now rewrite app_nil_r.
  - apply allEntries_cons in Hall. destruct Hall as [He Hall].
    cbn [forEachM]. unfold pushCheckin at 1.
    rewrite !(get_entry _ _ He), (get_entry _ _ Hp). cbn [bind].
    unfold validEntries. simpl. unfold parsedOf at 1. fold (instantOf e).
    destruct (instantOf e) as [d|]; cbn [bind].
    + rewrite (IH _ Hall). simpl. unfold validEntries, staffOf.
      now rewrite <- app_assoc.
    + now rewrite (IH _ Hall).
Qed.

Lemma forEachM_pushCheckin_throws (p : value) (arr : list value)
      (acc : list checkinRow) :
  allEntries arr = false ->
  forEachM (pushCheckin p) arr acc = TypeError.
Proof.
  revert acc. induction arr as [|e arr IH]; intros acc Hall; [discriminate|].
  unfold allEntries in Hall. simpl in Hall.
  cbn [forEachM]. unfold pushCheckin at 1. unfold get at 1.
  destruct (nullish e) eqn:He; [reflexivity|]. simpl in Hall.
  cbn [bind]. destruct (parseCheckTime (prop e "time")); cbn [bind].
  - unfold get. destruct (nullish p); [reflexivity|]. rewrite He.
    cbn [bind]. now apply IH.
  - now apply IH.
Qed.

Lemma forEachM_patient (p : value) (acc : list checkinRow) :
  allEntries (getCheckInsArray p) = true ->
  forEachM (pushCheckin p) (getCheckInsArray p) acc = Ok (acc ++ rowsOf p)%list.
Proof.
  intros Hall. unfold rowsOf.
  pose proof (getCheckInsArray_truthy p) as Hp.
  destruct (getCheckInsArray p) as [|e arr] eqn:E.
  - simpl. now rewrite app_nil_r.
  - apply forEachM_pushCheckin; [apply Hp; discriminate | exact Hall].
Qed.

Lemma forEachM_patients (pts : list value) (acc : list checkinRow) :
  Forall (fun p => allEntries (getCheckInsArray p) = true) pts ->
  forEachM (fun rows p => forEachM (pushCheckin p) (getCheckInsArray p) rows)
           pts acc
  = Ok (acc ++ flat_map rowsOf pts)%list.
Proof.
  intros H. revert acc. induction H as [|p pts Hp H IH]; intros acc.
  - simpl. now rewrite app_nil_r.
  - cbn [forEachM]. rewrite (forEachM_patient _ _ Hp). cbn [bind].
    rewrite IH. simpl. now rewrite app_assoc.
Qed.

Lemma forEachM_patients_throws (pts : list value) (acc : list checkinRow) :
  Exists (fun p => allEntries (getCheckInsArray p) = false) pts ->
  forEachM (fun rows p => forEachM (pushCheckin p) (getCheckInsArray p) rows)
           pts acc
  = TypeError.
Proof.
  revert acc. induction pts as [|p pts IH]; intros acc H.
  - inversion H.
  - cbn [forEachM].
    destruct (allEntries (getCheckInsArray p)) eqn:Hp.
    + rewrite (forEachM_patient _ _ Hp). cbn [bind]. apply IH.
      inversion H; subst; [congruence | assumption].
    + now rewrite (forEachM_pushCheckin_throws _ _ _ Hp).
Qed.

Lemma Forall_or_Exists_entries (pts : list value) :
  Forall (fun p => allEntries (getCheckInsArray p) = true) pts \/
  Exists (fun p => allEntries (getCheckInsArray p) = false) pts.
Proof.
  induction pts as [|p pts [IH | IH]].
  - left. constructor.
  - destruct (allEntries (getCheckInsArray p)) eqn:Hp.
    + left. now constructor.
    + right. now constructor.
  - right. now constructor 2.
Qed.

Lemma checkinRows_exact (pts : list value) :
  Forall (fun p => allEntries (getCheckInsArray p) = true) pts ->
  checkinRows pts =
  Ok (sortBy (fun a b => row_date b - row_date a) (flat_map rowsOf pts)).
Proof.
  intros H. unfold checkinRows. now rewrite (forEachM_patients _ _ H).
Qed.

Lemma checkinRows_ok_entries (pts : list value) (rows : list checkinRow) :
  checkinRows pts = Ok rows ->
  Forall (fun p => allEntries (getCheckInsArray p) = true) pts.
Proof.
  intros H. destruct (Forall_or_Exists_entries pts) as [F | E]; [exact F|].
  unfold checkinRows in H. rewrite (forEachM_patients_throws _ _ E) in H.
  discriminate.
Qed.

(** X10.  The rows of the check-ins list are in the order of their
    instants, most recent first. *)
Theorem checkinRows_sorted (pts : list value) (rows : list checkinRow) :
  checkinRows pts = Ok rows ->
  StronglySorted (fun a b => row_date b <= row_date a) rows.
Proof.
  intros H. pose proof (checkinRows_ok_entries _ _ H) as F.
  rewrite (checkinRows_exact _ F) in H.
  assert (Hrows : rows = sortBy (fun a b => row_date b - row_date a)
                                (flat_map rowsOf pts)) by congruence.
  rewrite Hrows. apply (sortBy_sorted row_date).
Qed.

(** X11.  The check-ins list throws exactly when some patient holds a
    [null] or [undefined] element among its check-ins; otherwise its rows
    are, in another order, the rows of the patients taken one after the
    other: one row for each entry whose [time] normalizes, none for the
    others. *)
Theorem checkinRows_entries (pts : list value) :
  (checkinRows pts = TypeError <->
   Exists (fun p => allEntries (getCheckInsArray p) = false) pts) /\
  (forall rows, checkinRows pts = Ok rows ->
                Permutation (flat_map rowsOf pts) rows /\
                List.length rows =
                List.length (flat_map (fun p => validEntries (getCheckInsArray p))
                                      pts)).
Proof.
  split.
  - split.
    + intros H. destruct (Forall_or_Exists_entries pts) as [F | E]; [|exact E].
      rewrite (checkinRows_exact _ F) in H. discriminate.
    + intros E. unfold checkinRows.
      now rewrite (forEachM_patients_throws _ _ E).
  - intros rows H. pose proof (checkinRows_ok_entries _ _ H) as F.
    rewrite (checkinRows_exact _ F) in H.
    assert (Hrows : rows = sortBy (fun a b => row_date b - row_date a)
                                  (flat_map rowsOf pts)) by congruence.
    split.
    + rewrite Hrows. apply sortBy_Permutation.
    + rewrite Hrows.
      rewrite <- (Permutation_length (sortBy_Permutation _ _)).
      clear. induction pts as [|p pts IH]; [reflexivity|].
      simpl. rewrite !length_app, IH. unfold rowsOf.
      now rewrite length_map.
Qed.

(** X12.  The last check [getLastCheck] reports for a patient of the list
    is one of the rows, with the patient's name, that instant and that
    staff, and no row is more recent than the first. *)
Theorem checkinRows_has_last_check
        (pts : list value) (rows : list checkinRow)
        (p : value) (now : Z) (r : lastCheck) (t : Z) :
  checkinRows pts = Ok rows ->
  In p pts ->
  getLastCheck p now = Ok r ->
  date r = Some t ->
  (exists row, In row rows /\ row_date row = t /\
               row_patient row = prop p "name" /\
               row_staff row = staff r) /\
  (exists top rest, rows = top :: rest /\ t <= row_date top).
Proof.
  intros Hrows Hp Hr Ht.
  pose proof (checkinRows_ok_entries _ _ Hrows) as F.
  rewrite (checkinRows_exact _ F) in Hrows.
  assert (Hrows' : rows = sortBy (fun a b => row_date b - row_date a)
                                 (flat_map rowsOf pts)) by congruence.
  clear Hrows.
  assert (Hall : allEntries (getCheckInsArray p) = true)
    by (rewrite Forall_forall in F; now apply F).
  destruct (getLastCheck_cases p now Hall)
    as [[_ Hn] | (w & t' & Hw & Hwt & _ & Hr')].
  { rewrite Hn in Hr. inversion Hr; subst. discriminate. }
  rewrite Hr' in Hr.
  destruct (gt _ (intervalOf p)) as [late|]; [|discriminate].
  cbn [bind] in Hr. inversion Hr; subst r. simpl in Ht.
  inversion Ht; subst t'. clear Ht Hr.
  set (row := {| row_patient := prop p "name";
                 row_staff := staffOf w;
                 row_timeStr := prop w "time";
                 row_date := t |}).
  assert (Hin : In row (flat_map rowsOf pts)).
  { apply in_flat_map. exists p. split; [exact Hp|].
    unfold rowsOf. apply in_map_iff. exists (mkParsed w t).
    split; [reflexivity|]. apply validEntries_In. simpl. auto. }
  assert (Hin' : In row rows)
    by (rewrite Hrows'; now apply sortBy_In).
  split.
  - exists row. simpl. auto.
  - destruct rows as [|top rest]; [destruct Hin'|].
    exists top, rest. split; [reflexivity|].
    symmetry in Hrows'.
    apply (sortBy_descending_head row_date _ _ _ Hrows' row Hin).
Qed.

(** *** The dashboard *)

(** [getLastCheck] throws on the patients of [lastCheckThrows], whatever
    the clock, and returns on the others. *)
Lemma getLastCheck_throws_or_returns (p : value) (now : Z) :
  (lastCheckThrows p /\ getLastCheck p now = TypeError) \/
  (~ lastCheckThrows p /\ exists r, getLastCheck p now = Ok r).
Proof.
  unfold lastCheckThrows. rewrite <- toNumber_intervalOf_throws.
  destruct (allEntries (getCheckInsArray p)) eqn:Hall.
  - destruct (getLastCheck_cases p now Hall)
      as [[Hnone Hr] | (w & t & Hw & Hwt & _ & Hr)].
    + right. split; [|eauto].
      intros [H | [(e & t & He & Ht) _]]; [discriminate|].
      rewrite (Hnone _ He) in Ht. discriminate.
    + unfold gt in Hr.
      destruct (toNumber (intervalOf p)) as [y|] eqn:Hy; cbn [bind] in Hr.
      * right. split; [|eauto]. intros [H | [_ H]]; discriminate.
      * left. split; [right; split; eauto | exact Hr].
  - left. split; [now left | now apply getLastCheck_throws].
Qed.

Lemma isPatientOverdue_returns (p : value) (now : Z) :
  ~ lastCheckThrows p ->
  exists r, getLastCheck p now = Ok r /\
            isPatientOverdue p now = Ok (isOverdue r).
Proof.
  intros Hp. unfold isPatientOverdue.
  destruct (getLastCheck_throws_or_returns p now) as [[H _] | [_ (r & Hr)]];
    [contradiction|].
  rewrite Hr. eauto.
Qed.

Lemma isPatientOverdue_throws (p : value) (now : Z) :
  lastCheckThrows p -> isPatientOverdue p now = TypeError.
Proof.
  intros Hp. unfold isPatientOverdue.
  destruct (getLastCheck_throws_or_returns p now) as [[_ H] | [H _]];
    [now rewrite H | contradiction].
Qed.

Lemma intervalThrows_decidable (p : value) :
  intervalThrows p \/ ~ intervalThrows p.
Proof.
  unfold intervalThrows.
  destruct (objectToNumber (prop p "checkInInterval")) as [y|] eqn:Hy;
    [right; intros [_ H]; discriminate|].
  destruct (prop p "checkInInterval") as [| |b|x|s|elems|props];
    try (right; intros [[H | (props' & H)] _]; discriminate).
  - left. split; [now left | reflexivity].
  - left. split; [right; eauto | reflexivity].
Qed.

Lemma lastCheckThrows_decidable (p : value) :
  lastCheckThrows p \/ ~ lastCheckThrows p.
Proof.
  unfold lastCheckThrows.
  destruct (allEntries (getCheckInsArray p)) eqn:Hall; [|now left; left].
  destruct (intervalThrows_decidable p) as [Hy | Hy];
    [|right; intros [H | [_ H]]; [discriminate | contradiction]].
  destruct (validEntries (getCheckInsArray p)) as [|pe rest] eqn:Hv.
  - right. intros [H | [(e & t & He & Ht) _]]; [discriminate|].
    assert (Hin : In (mkParsed e t) (validEntries (getCheckInsArray p)))
      by (apply validEntries_In; simpl; auto).
    rewrite Hv in Hin. destruct Hin.
  - left. right. split; [|exact Hy].
    assert (Hin : In pe (validEntries (getCheckInsArray p)))
      by (rewrite Hv; now left).
    apply validEntries_In in Hin. destruct Hin as [H1 H2]. eauto.
Qed.

Lemma lastCheckThrows_dec (patients : list value) :
  Forall (fun p => ~ lastCheckThrows p) patients \/
  Exists lastCheckThrows patients.
Proof.
  induction patients as [|p patients [IH | IH]].
  - left. constructor.
  - destruct (lastCheckThrows_decidable p) as [H | H].
    + right. now constructor.
    + left. now constructor.
  - right. now constructor 2.
Qed.

Lemma count_occ_bool (bs : list bool) :
  (count_occ Bool.bool_dec bs true + count_occ Bool.bool_dec bs false
   = List.length bs)%nat.
Proof.
  induction bs as [|[] bs IH]; simpl; lia.
Qed.

Lemma filteriM_overdue (nowAt : nat -> Z) (i : nat) (patients : list value) :
  Forall (fun p => ~ lastCheckThrows p) patients ->
  exists kept flags,
    filteriM (fun i p => isPatientOverdue p (nowAt i)) i patients = Ok kept /\
    List.length flags = List.length patients /\
    (forall k p, nth_error patients k = Some p ->
                 exists b, nth_error flags k = Some b /\
                           isPatientOverdue p (nowAt (i + k)%nat) = Ok b) /\
    List.length kept = count_occ Bool.bool_dec flags true.
Proof.
  intros H. revert i. induction H as [|p patients Hp H IH]; intros i.
  - exists [], []. repeat split. intros [|k] p Hk; discriminate.
  - destruct (isPatientOverdue_returns p (nowAt i) Hp) as (r & _ & Hr).
    destruct (IH (S i)) as (kept & flags & Hk & Hlen & Hflags & Hcount).
    exists (if isOverdue r then p :: kept else kept), (isOverdue r :: flags).
    cbn [filteriM]. rewrite Hr, Hk. cbn [bind].
    repeat split.
    + simpl. now rewrite Hlen.
    + intros [|k] q Hq; simpl in Hq.
      * apply Some_eq in Hq. subst q. exists (isOverdue r).
        rewrite Nat.add_0_r. auto.
      * destruct (Hflags k q Hq) as (b & Hb & Hb').
        exists b. split; [exact Hb|].
        now replace (i + S k)%nat with (S i + k)%nat by lia.
    + simpl. destruct (isOverdue r); simpl; now rewrite Hcount.
Qed.

Lemma filteriM_overdue_throws (nowAt : nat -> Z) (i : nat)
      (patients : list value) :
  Exists lastCheckThrows patients ->
  filteriM (fun i p => isPatientOverdue p (nowAt i)) i patients = TypeError.
Proof.
  revert i. induction patients as [|p patients IH]; intros i H.
  - inversion H.
  - cbn [filteriM].
    destruct (getLastCheck_throws_or_returns p (nowAt i))
      as [[Hp _] | [Hp _]].
    + now rewrite (isPatientOverdue_throws _ _ Hp).
    + destruct (isPatientOverdue_returns p (nowAt i) Hp) as (r & _ & Hr).
      rewrite Hr. cbn [bind]. rewrite IH; [reflexivity|].
      inversion H; subst; [contradiction | assumption].
Qed.

(** X13.  The dashboard throws exactly when [getLastCheck] throws on some
    patient: one of its check-ins is [null] or [undefined], or one of its
    entries normalizes and its [checkInInterval] is an array or an object
    whose conversion to a number throws.  Otherwise the overdue and on-time numbers are between 0
    and the total and add up to it: the first counts the patients
    [isPatientOverdue] finds overdue at the time of their turn, the second
    the others. *)
Theorem dashboard_counts (patients : list value) (nowAt : nat -> Z) :
  (dashboard patients nowAt = TypeError <->
   Exists (fun p =>
             allEntries (getCheckInsArray p) = false \/
             ((exists e t, In e (getCheckInsArray p) /\
                           instantOf e = Some t) /\
              (isArray (prop p "checkInInterval") = true \/
               exists props, prop p "checkInInterval" = VObj props) /\
              objectToNumber (prop p "checkInInterval") = TypeError))
          patients) /\
  (forall c, dashboard patients nowAt = Ok c ->
     total c = Z.of_nat (List.length patients) /\
     total c = overdue c + onTime c /\
     0 <= overdue c <= total c /\ 0 <= onTime c <= total c /\
     exists flags,
       List.length flags = List.length patients /\
       (forall k p, nth_error patients k = Some p ->
                    exists b, nth_error flags k = Some b /\
                              isPatientOverdue p (nowAt k) = Ok b) /\
       overdue c = Z.of_nat (count_occ Bool.bool_dec flags true) /\
       onTime c = Z.of_nat (count_occ Bool.bool_dec flags false)).
Proof.
  unfold dashboard.
  change (fun p : value =>
            allEntries (getCheckInsArray p) = false \/
            (exists (e : value) (t : Z),
                In e (getCheckInsArray p) /\ instantOf e = Some t) /\
            (isArray (prop p "checkInInterval") = true \/
             exists props, prop p "checkInInterval" = VObj props) /\
            objectToNumber (prop p "checkInInterval") = TypeError)
    with lastCheckThrows.
  destruct (lastCheckThrows_dec patients) as [F | E].
  - destruct (filteriM_overdue nowAt 0 patients F)
      as (kept & flags & Hk & Hlen & Hflags & Hcount).
    rewrite Hk. cbn [bind]. split.
    + split; [discriminate|]. intros E. exfalso.
      rewrite Forall_forall in F. apply Exists_exists in E.
      destruct E as (p & Hp & Hbad). exact (F p Hp Hbad).
    + intros c Hc. injection Hc as <-. cbn [total overdue onTime].
      pose proof (count_occ_bool flags) as Hsum.
      split; [reflexivity|]. split; [lia|]. split; [lia|]. split; [lia|].
      exists flags. split; [exact Hlen|]. split; [exact Hflags|]. lia.
  - rewrite (filteriM_overdue_throws nowAt 0 patients E). cbn [bind].
    split; [split; auto | intros c Hc; discriminate].
Qed.

(** *** The report *)

Lemma joinStrings_cons (sep x : string) (l : list string) :
  joinStrings sep (x :: l) =
  x ++ fold_right append "" (map (fun y => sep ++ y) l).
Proof.
  revert x. induction l as [|y l IH]; intros x.
  - simpl. now rewrite append_empty_r.
  - change (joinStrings sep (x :: y :: l))
      with (x ++ sep ++ joinStrings sep (y :: l)).
    rewrite IH. simpl. destruct l; simpl.
    + now rewrite !append_empty_r.
    + now rewrite <- !append_assoc.
Qed.

Lemma countChar_app (c : ascii) (a b : string) :
  countChar c (a ++ b) = (countChar c a + countChar c b)%nat.
Proof. induction a as [|x a IH]; simpl; [reflexivity | rewrite IH; lia]. Qed.

(** A callback that throws on no element of a list, or on one. *)
Lemma mapM_cases {A B : Type} (f : A -> result B) (l : list A) :
  (exists ys, mapM f l = Ok ys /\ Forall2 (fun x y => f x = Ok y) l ys) \/
  (mapM f l = TypeError /\ Exists (fun x => f x = TypeError) l).
Proof.
  induction l as [|x l IH].
  - left. exists []. split; [reflexivity | constructor].
  - cbn [mapM]. destruct (f x) as [y|] eqn:Hx; cbn [bind].
    + destruct IH as [(ys & Hys & HF) | [Hthrow HE]].
      * left. exists (y :: ys). rewrite Hys. split; [reflexivity|].
        now constructor.
      * right. rewrite Hthrow. split; [reflexivity | now constructor 2].
    + right. split; [reflexivity | now constructor].
Qed.

(** Induction on a value, through its arrays. *)
Lemma value_arrays_ind (P : value -> Prop) :
  P VUndefined -> P VNull -> (forall b, P (VBool b)) ->
  (forall x, P (VNum x)) -> (forall s, P (VStr s)) ->
  (forall elems, Forall P elems -> P (VArr elems)) ->
  (forall props, P (VObj props)) ->
  forall v, P v.
Proof.
  intros HU HN HB HQ HS HA HO.
  exact (fix ind (v : value) : P v :=
           match v with
           | VUndefined => HU
           | VNull => HN
           | VBool b => HB b
           | VNum x => HQ x
           | VStr s => HS s
           | VArr elems =>
               HA elems
                  ((fix all (l : list value) : Forall P l :=
                      match l with
                      | [] => Forall_nil P
                      | x :: l' => Forall_cons x (ind x) (all l')
                      end) elems)
           | VObj props => HO props
           end).
Qed.

Lemma toString_VArr (elems : list value) :
  toString (VArr elems) = join "," elems.
Proof.
  unfold join. cbn [toString]. f_equal.
  induction elems as [|x l IH]; [reflexivity|].
  cbn [mapM]. rewrite <- IH. now destruct x.
Qed.

(** [ToString] throws exactly on the values of [unprintable]. *)
Lemma toString_cases (v : value) :
  (unprintable v = true /\ toString v = TypeError) \/
  (unprintable v = false /\ exists s, toString v = Ok s).
Proof.
  forget_engine.
  induction v as [ | | b | x | s | elems IH | props] using value_arrays_ind;
    try (right; split; [reflexivity | eexists; reflexivity]).
  - rewrite toString_VArr. unfold join. cbn [unprintable].
    induction IH as [|x l Hx _ IHl].
    + right. split; [reflexivity | eexists; reflexivity].
    + cbn [existsb mapM].
      assert (Hc : (unprintable x = true /\ cellText x = TypeError) \/
                   (unprintable x = false /\ exists s, cellText x = Ok s)).
      { destruct x; try exact Hx;
          right; split; try reflexivity; eexists; reflexivity. }
      destruct Hc as [[Hu Ht] | [Hu (s & Ht)]]; rewrite Hu, Ht; cbn [bind orb].
      * now left.
      * destruct IHl as [[Hl Hm] | [Hl (s' & Hm)]]; rewrite Hl.
        -- left. split; [reflexivity|].
           destruct (mapM cellText l); [discriminate | reflexivity].
        -- right. split; [reflexivity|].
           destruct (mapM cellText l) as [ss|]; [|discriminate].
           eexists. reflexivity.
  - cbn [unprintable toString]. destruct (hasKey "toString" props).
    + now left.
    + right. split; [reflexivity | eexists; reflexivity].
Qed.

Lemma cellText_cases (v : value) :
  (unprintable v = true /\ cellText v = TypeError) \/
  (unprintable v = false /\ exists s, cellText v = Ok s).
Proof.
  destruct v; try apply toString_cases;
    right; split; try reflexivity; eexists; reflexivity.
Qed.

(** The text of a cell: nothing for [null] and [undefined], the string
    itself, the digits of a number, the name of a boolean, and
    ["[object Object]"] for a map. *)
Lemma cellText_texts (v : value) (s : string) :
  cellText v = Ok s ->
  (nullish v = true -> s = "") /\
  (forall str, v = VStr str -> s = str) /\
  (forall x, v = VNum x -> s = numberToString x) /\
  (forall b, v = VBool b -> s = if b then "true" else "false") /\
  (forall props, v = VObj props -> s = "[object Object]").
Proof.
  intros H.
  destruct v as [| |b|x|str|elems|props]; cbn [cellText toString] in H;
    try (destruct (hasKey "toString" props); [discriminate|]);
    try (apply Ok_eq in H; subst s);
    (split; [cbn [nullish]; congruence|]);
    (split; [congruence|]); (split; [congruence|]);
    split; intros ? E; try discriminate E; injection E as <-; reflexivity.
Qed.

(** The cells of a report row that come from the document or from an
    entry. *)
Lemma reportRow_join (p : value) (last : lastCheck) :
  (unprintable (prop p "name") || unprintable (prop p "location")
   || unprintable (prop p "checkInInterval") || unprintable (staff last)
   = true /\
   join "," (reportRow p last) = TypeError) \/
  (unprintable (prop p "name") = false /\
   unprintable (prop p "location") = false /\
   unprintable (prop p "checkInInterval") = false /\
   unprintable (staff last) = false /\
   exists name location interval staffText,
     cellText (prop p "name") = Ok name /\
     cellText (prop p "location") = Ok location /\
     cellText (prop p "checkInInterval") = Ok interval /\
     cellText (staff last) = Ok staffText /\
     join "," (reportRow p last) =
     Ok (name ++ "," ++ location ++ "," ++ interval ++ "," ++
         display last ++ "," ++ staffText)).
Proof.
  unfold join, reportRow. cbn [mapM].
  destruct (cellText_cases (prop p "name")) as [[U1 T1] | [U1 (s1 & T1)]];
    rewrite U1, T1; cbn [bind orb]; [now left|].
  destruct (cellText_cases (prop p "location")) as [[U2 T2] | [U2 (s2 & T2)]];
    rewrite U2, T2; cbn [bind orb]; [now left|].
  destruct (cellText_cases (prop p "checkInInterval"))
    as [[U3 T3] | [U3 (s3 & T3)]];
    rewrite U3, T3; cbn [bind orb]; [now left|].
  cbn [cellText toString bind].
  destruct (cellText_cases (staff last)) as [[U4 T4] | [U4 (s4 & T4)]];
    rewrite U4, T4; cbn [bind orb]; [now left|].
  right. repeat split. exists s1, s2, s3, s4. repeat split.
Qed.

(** What [getLastCheck] reports besides [isOverdue] does not depend on the
    clock. *)
Lemma getLastCheck_clock (p : value) (now now' : Z) (last last' : lastCheck) :
  getLastCheck p now = Ok last ->
  getLastCheck p now' = Ok last' ->
  display last' = display last /\ date last' = date last /\
  staff last' = staff last.
Proof.
  intros H H'.
  destruct (allEntries (getCheckInsArray p)) eqn:Hall.
  - rewrite (getLastCheck_exact _ now Hall) in H.
    rewrite (getLastCheck_exact _ now' Hall) in H'.
    destruct (sortBy _ _) as [|latest rest].
    + apply Ok_eq in H, H'. subst. auto.
    + destruct (gt (minutesSince now _) _); [|discriminate].
      destruct (gt (minutesSince now' _) _); [|discriminate].
      cbn [bind] in H, H'. apply Ok_eq in H, H'. subst. auto.
  - rewrite (getLastCheck_throws _ _ Hall) in H. discriminate.
Qed.

(** The patients that stop the [forEach] of [exportCSV]. *)
Lemma forEachM_report (nowAt : nat -> Z) (patients : list value)
      (i : nat) (rows : list (list value)) :
  Forall (fun p => nullish p = false /\ ~ lastCheckThrows p) patients ->
  exists lasts,
    List.length lasts = List.length patients /\
    (forall k p, nth_error patients k = Some p ->
                 exists last, nth_error lasts k = Some last /\
                              getLastCheck p (nowAt (i + k)%nat) = Ok last) /\
    forEachM (pushReportRow nowAt) patients (i, rows) =
    Ok ((i + List.length patients)%nat,
        (rows ++ map (fun pl => reportRow (fst pl) (snd pl))
                     (combine patients lasts))%list).
Proof.
  intros H. revert i rows.
  induction H as [|p patients [Hp Hgood] H IH]; intros i rows.
  - exists []. simpl. rewrite Nat.add_0_r, app_nil_r. repeat split.
    intros [|k] p Hk; discriminate.
  - destruct (isPatientOverdue_returns p (nowAt i) Hgood) as (last & Hl & _).
    destruct (IH (S i) (rows ++ [reportRow p last])%list)
      as (lasts & Hlen & Hlasts & Hrun).
    exists (last :: lasts). split; [simpl; now rewrite Hlen|]. split.
    + intros [|k] q Hq; simpl in Hq.
      * apply Some_eq in Hq. subst q. exists last.
        rewrite Nat.add_0_r. auto.
      * destruct (Hlasts k q Hq) as (l' & Hl1 & Hl2). exists l'.
        split; [exact Hl1|].
        now replace (i + S k)%nat with (S i + k)%nat by lia.
    + cbn [forEachM]. unfold pushReportRow at 1. rewrite Hl.
      rewrite !(get_entry _ _ Hp). cbn [bind]. fold (reportRow p last).
      rewrite Hrun. simpl. rewrite <- app_assoc. simpl.
      now replace (i + S (List.length patients))%nat
        with (S (i + List.length patients)) by lia.
Qed.

Lemma forEachM_report_throws (nowAt : nat -> Z) (patients : list value)
      (i : nat) (rows : list (list value)) :
  Exists (fun p => nullish p = true \/ lastCheckThrows p) patients ->
  forEachM (pushReportRow nowAt) patients (i, rows) = TypeError.
Proof.
  revert i rows. induction patients as [|p patients IH]; intros i rows H.
  - inversion H.
  - cbn [forEachM]. unfold pushReportRow at 1.
    destruct (getLastCheck_throws_or_returns p (nowAt i))
      as [[_ Hl] | [Hgood (last & Hl)]]; rewrite Hl; [reflexivity|].
    cbn [bind]. unfold get.
    destruct (nullish p) eqn:Hp; [reflexivity|]. cbn [bind].
    apply IH. inversion H as [? ? [Hn | Ht] | ]; subst;
      [congruence | contradiction | assumption].
Qed.

Lemma reportStops_dec (patients : list value) :
  Forall (fun p => nullish p = false /\ ~ lastCheckThrows p) patients \/
  Exists (fun p => nullish p = true \/ lastCheckThrows p) patients.
Proof.
  induction patients as [|p patients [IH | IH]].
  - left. constructor.
  - destruct (nullish p) eqn:Hp; [right; constructor; now left|].
    destruct (lastCheckThrows_decidable p) as [H | H].
    + right. constructor. now right.
    + left. now constructor.
  - right. now constructor 2.
Qed.

(** The lines of the rows [exportCSV] has collected. *)
Lemma mapM_join_rows (nowAt : nat -> Z) (patients : list value)
      (lasts : list lastCheck) (i : nat) :
  List.length lasts = List.length patients ->
  (forall k p, nth_error patients k = Some p ->
               exists last, nth_error lasts k = Some last /\
                            getLastCheck p (nowAt (i + k)%nat) = Ok last) ->
  (mapM (join ",") (map (fun pl => reportRow (fst pl) (snd pl))
                        (combine patients lasts)) = TypeError /\
   Exists reportThrows patients) \/
  (Forall (fun p => ~ reportThrows p \/ nullish p = true
                    \/ lastCheckThrows p) patients /\
   exists lines,
     mapM (join ",") (map (fun pl => reportRow (fst pl) (snd pl))
                          (combine patients lasts)) = Ok lines /\
     List.length lines = List.length patients /\
     forall k p, nth_error patients k = Some p ->
       exists last line,
         nth_error lasts k = Some last /\ nth_error lines k = Some line /\
         getLastCheck p (nowAt (i + k)%nat) = Ok last /\
         join "," (reportRow p last) = Ok line).
Proof.
  revert lasts i.
  induction patients as [|p patients IH]; intros lasts i Hlen Hlasts.
  - right. split; [constructor|]. exists []. destruct lasts; [|discriminate].
    repeat split. intros [|k] p Hk; discriminate.
  - destruct lasts as [|last lasts]; [discriminate|].
    destruct (Hlasts 0%nat p eq_refl) as (last0 & Hl0 & Hget).
    apply Some_eq in Hl0. subst last0. rewrite Nat.add_0_r in Hget.
    assert (Hlasts' : forall k q, nth_error patients k = Some q ->
               exists l, nth_error lasts k = Some l /\
                         getLastCheck q (nowAt (S i + k)%nat) = Ok l).
    { intros k q Hq. destruct (Hlasts (S k) q Hq) as (l & H1 & H2).
      exists l. split; [exact H1|].
      now replace (S i + k)%nat with (i + S k)%nat by lia. }
    specialize (IH lasts (S i) ltac:(simpl in Hlen; lia) Hlasts').
    cbn [combine map mapM fst snd].
    destruct (reportRow_join p last)
      as [[Hu Hj] | (U1 & U2 & U3 & U4 & n & l & iv & st & _ & _ & _ & _ & Hj)].
    + left. rewrite Hj. split; [reflexivity|]. constructor.
      unfold reportThrows. right. right.
      apply orb_true_iff in Hu. destruct Hu as [Hu | Hu].
      * apply orb_true_iff in Hu. destruct Hu as [Hu | Hu].
        -- apply orb_true_iff in Hu. destruct Hu as [Hu | Hu]; auto.
        -- auto.
      * do 3 right. eauto.
    + rewrite Hj. cbn [bind].
      destruct IH as [[Hthrow HE] | [HF (lines & Hlines & Hlen' & Hnth)]].
      * left. rewrite Hthrow. split; [reflexivity | now constructor 2].
      * right. split.
        -- constructor; [|exact HF].
           destruct (nullish p) eqn:Hn; [now right; left|].
           destruct (lastCheckThrows_decidable p) as [Ht | Ht];
             [now right; right|].
           left. intros [H | [H | [H | [H | [H | (now' & l' & H1 & H2)]]]]];
             try congruence.
           destruct (getLastCheck_clock _ _ _ _ _ Hget H1) as (_ & _ & Hs).
           congruence.
        -- rewrite Hlines. eexists. split; [reflexivity|].
           split; [simpl; now rewrite Hlen'|].
           intros [|k] q Hq; simpl in Hq.
           ++ apply Some_eq in Hq. subst q. exists last. eexists.
              rewrite Nat.add_0_r. repeat split; auto.
           ++ destruct (Hnth k q Hq) as (l' & line & H1 & H2 & H3 & H4).
              exists l', line. repeat split; auto.
              now replace (i + S k)%nat with (S i + k)%nat by lia.
Qed.

(** The text of the report, line by line. *)
Lemma exportCSV_exact (patients : list value) (nowAt : nat -> Z) :
  (exportCSV patients nowAt = TypeError /\ Exists reportThrows patients) \/
  (Forall (fun p => ~ reportThrows p) patients /\
   exists lasts lines,
     List.length lasts = List.length patients /\
     List.length lines = List.length patients /\
     (forall k p, nth_error patients k = Some p ->
        exists last line,
          nth_error lasts k = Some last /\ nth_error lines k = Some line /\
          getLastCheck p (nowAt k) = Ok last /\
          join "," (reportRow p last) = Ok line) /\
     exportCSV patients nowAt =
     Ok ("Patient,Location,Interval,Last Check,Last Staff" ++
         fold_right append "" (map (fun line => newline ++ line) lines))).
Proof.
  unfold exportCSV.
  destruct (reportStops_dec patients) as [F | E].
  - destruct (forEachM_report nowAt patients 0 [csvHeader] F)
      as (lasts & Hlen & Hlasts & Hrun).
    rewrite Hrun. cbn [bind snd].
    change ([csvHeader] ++ ?l)%list with (csvHeader :: l).
    cbn [mapM]. change (join "," csvHeader)
      with (@Ok string "Patient,Location,Interval,Last Check,Last Staff").
    cbn [bind].
    destruct (mapM_join_rows nowAt patients lasts 0 Hlen Hlasts)
      as [[Hthrow HE] | [HF (lines & Hlines & Hlen' & Hnth)]].
    + left. rewrite Hthrow. split; [reflexivity | exact HE].
    + right. split.
      * rewrite Forall_forall in *. intros p Hp.
        destruct (F p Hp) as [Hn Ht].
        destruct (HF p Hp) as [H | [H | H]];
          [exact H | congruence | contradiction].
      * exists lasts, lines. rewrite Hlines. cbn [bind].
        split; [exact Hlen|]. split; [exact Hlen'|]. split; [exact Hnth|].
        now rewrite joinStrings_cons.
  - left. rewrite (forEachM_report_throws nowAt patients 0 _ E). cbn [bind].
    split; [reflexivity|].
    apply Exists_exists in E. destruct E as (p & Hp & Hbad).
    apply Exists_exists. exists p. split; [exact Hp|].
    unfold reportThrows. destruct Hbad; auto.
Qed.

(** X14.  The report throws exactly when, for some patient, the patient is
    [null] or [undefined], [getLastCheck] throws, or one of the cells that
    come from the data (name, location, interval, staff) holds a map with a
    field [toString], which cannot be converted to a string.  Otherwise the
    text is the header line followed, for each patient in order, by a line
    break and the line of that patient: its name, location and interval
    and the display and staff of its last check, joined by commas; nothing
    follows the last line. *)
Theorem exportCSV_lines (patients : list value) (nowAt : nat -> Z) :
  (exportCSV patients nowAt = TypeError <-> Exists reportThrows patients) /\
  (forall csv, exportCSV patients nowAt = Ok csv ->
     exists lasts lines,
       List.length lasts = List.length patients /\
       List.length lines = List.length patients /\
       (forall k p, nth_error patients k = Some p ->
          exists last line,
            nth_error lasts k = Some last /\ nth_error lines k = Some line /\
            getLastCheck p (nowAt k) = Ok last /\
            join "," (reportRow p last) = Ok line) /\
       csv = "Patient,Location,Interval,Last Check,Last Staff" ++
             fold_right append "" (map (fun line => newline ++ line) lines)).
Proof.
  destruct (exportCSV_exact patients nowAt)
    as [[Hthrow HE] | [HF (lasts & lines & H1 & H2 & H3 & Hcsv)]].
  - rewrite Hthrow. split; [split; auto | intros csv H; discriminate].
  - rewrite Hcsv. split.
    + split; [discriminate|]. intros E. exfalso.
      rewrite Forall_forall in HF. apply Exists_exists in E.
      destruct E as (p & Hp & Hbad). exact (HF p Hp Hbad).
    + intros csv H. apply Ok_eq in H. subst csv.
      exists lasts, lines. auto.
Qed.

Lemma countChar_join (c : ascii) (cells : list string) :
  countChar c (joinStrings (String c "") cells) =
  (Nat.pred (List.length cells)
   + fold_right (fun s n => countChar c s + n) 0 cells)%nat.
Proof.
  destruct cells as [|x cells]; [reflexivity|].
  rewrite joinStrings_cons, countChar_app.
  assert (H : countChar c (fold_right append ""
                             (map (fun y => String c "" ++ y) cells)) =
              (List.length cells
               + fold_right (fun s n => countChar c s + n) 0 cells)%nat).
  { induction cells as [|y cells IH]; [reflexivity|].
    cbn [map fold_right]. rewrite !countChar_app. cbn [countChar].
    rewrite Ascii.eqb_refl, IH. cbn [List.length]. lia. }
  rewrite H. simpl. lia.
Qed.

Lemma countChar_comma_join (cells : list string) :
  countChar "," (joinStrings "," cells) =
  (Nat.pred (List.length cells)
   + fold_right (fun s n => countChar "," s + n) 0 cells)%nat.
Proof. apply (countChar_join ","%char). Qed.

(** X15.  The cells of the report [exportCSV] returns are not quoted.  The
    line of each patient is the texts of its name, location and interval,
    the display of its last check and the text of its staff with a comma
    between them, so it holds four commas and one more for each comma
    found in these texts.  When no check-in of the patient normalizes the
    line ends with [None] and an empty cell.  The text of a cell is empty
    for [null] and [undefined], the string itself for a string, the
    digits of a number, the name of a boolean, and ["[object Object]"] for
    a map. *)
Theorem exportCSV_cells_not_quoted (patients : list value)
        (nowAt : nat -> Z) (csv : string) :
  exportCSV patients nowAt = Ok csv ->
  exists lines,
    List.length lines = List.length patients /\
    csv = "Patient,Location,Interval,Last Check,Last Staff" ++
          fold_right append "" (map (fun line => newline ++ line) lines) /\
    forall k p, nth_error patients k = Some p ->
      exists last line name location interval staffText,
        nth_error lines k = Some line /\
        getLastCheck p (nowAt k) = Ok last /\
        cellText (prop p "name") = Ok name /\
        cellText (prop p "location") = Ok location /\
        cellText (prop p "checkInInterval") = Ok interval /\
        cellText (staff last) = Ok staffText /\
        line = name ++ "," ++ location ++ "," ++ interval ++ "," ++
               display last ++ "," ++ staffText /\
        countChar "," line =
        (4 + (countChar "," name + countChar "," location
              + countChar "," interval + countChar "," (display last)
              + countChar "," staffText))%nat /\
        (date last = None ->
         line = name ++ "," ++ location ++ "," ++ interval ++ ",None,") /\
        (forall v s,
           In (v, s) [(prop p "name", name); (prop p "location", location);
                      (prop p "checkInInterval", interval);
                      (staff last, staffText)] ->
           (nullish v = true -> s = "") /\
           (forall str, v = VStr str -> s = str) /\
           (forall x, v = VNum x -> s = numberToString x) /\
           (forall b, v = VBool b -> s = if b then "true" else "false") /\
           (forall props, v = VObj props -> s = "[object Object]")).
Proof.
  intros Hcsv.
  destruct (exportCSV_exact patients nowAt)
    as [[Hthrow _] | [_ (lasts & lines & H1 & H2 & H3 & Hexact)]];
    [congruence|].
  rewrite Hexact in Hcsv. apply Ok_eq in Hcsv.
  exists lines. split; [exact H2|]. split; [now symmetry|].
  intros k p Hp. destruct (H3 k p Hp) as (last & line & Hl & Hline & Hget & Hj).
  destruct (reportRow_join p last)
    as [[_ Hj'] | (_ & _ & _ & _ & n & l & iv & st & T1 & T2 & T3 & T4 & Hj')];
    [congruence|].
  rewrite Hj' in Hj. apply Ok_eq in Hj.
  exists last, line, n, l, iv, st.
  split; [exact Hline|]. split; [exact Hget|].
  split; [exact T1|]. split; [exact T2|]. split; [exact T3|].
  split; [exact T4|]. split; [now symmetry|]. split; [|split].
  - rewrite <- Hj.
    change (n ++ "," ++ l ++ "," ++ iv ++ "," ++ display last ++ "," ++ st)
      with (joinStrings "," [n; l; iv; display last; st]).
    rewrite countChar_comma_join. simpl. lia.
  - intros Hnone. rewrite <- Hj.
    assert (Hs : display last = "None" /\ st = "").
    { destruct (allEntries (getCheckInsArray p)) eqn:Hall.
      - rewrite (getLastCheck_exact _ _ Hall) in Hget.
        destruct (sortBy _ _) as [|latest rest].
        + apply Ok_eq in Hget. subst last. simpl in T4.
          apply Ok_eq in T4. auto.
        + destruct (gt _ _); [|discriminate]. cbn [bind] in Hget.
          apply Ok_eq in Hget. subst last. discriminate.
      - rewrite (getLastCheck_throws _ _ Hall) in Hget. discriminate. }
    destruct Hs as [-> ->]. reflexivity.
  - intros v s [E | [E | [E | [E | []]]]]; injection E as <- <-;
      now apply cellText_texts.
Qed.

(** *** Roles *)

Lemma allUnits_complete (c : ascii) : In c allUnits.
Proof.
  unfold allUnits. rewrite <- (ascii_nat_embedding c). apply in_map.
  apply in_seq. pose proof (nat_ascii_bounded c). lia.
Qed.

Lemma lowerUnit_letter_check :
  forallb (fun c =>
    forallb (fun l =>
      implb (isLowerLetter l)
            (Bool.eqb (Ascii.eqb (lowerUnit c) l)
                      (Ascii.eqb c l || Ascii.eqb c (capitalOf l))))
      allUnits) allUnits = true.
Proof. vm_compute. reflexivity. Qed.

(** The code units that [toLowerCase] sends to a letter are the letter and
    its capital. *)
Lemma lowerUnit_letter (c l : ascii) :
  isLowerLetter l = true ->
  (lowerUnit c = l <-> c = l \/ c = capitalOf l).
Proof.
  intros Hl. pose proof lowerUnit_letter_check as H.
  rewrite forallb_forall in H. specialize (H c (allUnits_complete c)).
  rewrite forallb_forall in H. specialize (H l (allUnits_complete l)).
  rewrite Hl in H. simpl in H. apply Bool.eqb_prop in H.
  rewrite <- (Ascii.eqb_eq (lowerUnit c) l), H, orb_true_iff.
  now rewrite !Ascii.eqb_eq.
Qed.

Lemma toLowerCase_letters (s name : string) :
  lowerLetters name = true ->
  (toLowerCase s = name <-> sameUpToCase s name).
Proof.
  forget_environment.
  revert name. induction s as [|c s IH]; intros [|l name] Hn; simpl;
    try (split; [discriminate | tauto]); [tauto|].
  simpl in Hn. apply andb_true_iff in Hn. destruct Hn as [Hl Hn].
  rewrite <- (IH name Hn), <- (lowerUnit_letter c l Hl).
  split; [intros H; inversion H; auto | intros [-> ->]; reflexivity].
Qed.

(** X16.  The role test throws exactly when the profile has a [role] that
    is neither [null], [undefined] nor a string.  For a role name written
    in the letters a-z it answers [true] exactly when the [role] is a
    string equal to the name up to the case of its letters. *)
Theorem hasRole_up_to_case (name : string) (profile : value) :
  (hasRole name profile = TypeError <->
   nullish (prop profile "role") = false /\
   typeofString (prop profile "role") = false) /\
  (lowerLetters name = true ->
   (hasRole name profile = Ok true <->
    exists s, prop profile "role" = VStr s /\ sameUpToCase s name)).
Proof.
  unfold hasRole, roleLower. split.
  - destruct profile as [| | | | | |props]; simpl;
      try (split; [discriminate | intros [H _]; discriminate]).
    generalize (lookup "role" props). intros role.
    destruct role; simpl;
      try (split; [discriminate | intros [H1 H2]; discriminate]);
      split; auto.
  - intros Hn.
    destruct profile as [| | | | | |props]; simpl;
      try (split; [discriminate | intros (s' & H & _); discriminate]).
    generalize (lookup "role" props). intros role.
    destruct role as [| | | |s| |]; simpl;
      try (split; [discriminate | intros (s' & H & _); discriminate]).
    split.
    + intros H. exists s. split; [reflexivity|].
      apply (toLowerCase_letters _ _ Hn).
      apply Ok_eq in H. now apply String.eqb_eq.
    + intros (s' & Hs & H). inversion Hs; subst s'.
      apply (toLowerCase_letters _ _ Hn) in H. rewrite H.
      now rewrite String.eqb_refl.
Qed.

(** X17.  The Users link of the sidebar is shown exactly to those who can
    change roles.  Nobody is both admin and manager; a manager is let into
    the Users page and can reset passwords but cannot change roles and gets
    no link to the page; who is neither is refused. *)
Theorem users_page_and_link (profile : value) (a : usersAccess)
        (links : list (string * string)) :
  adminUsersAccess profile = Ok a ->
  sidebarLinks profile = Ok links ->
  (In ("/users", "Users") links <-> canChangeRole a = true) /\
  (isAdmin a = true -> isManager a = false) /\
  (isManager a = true ->
   refused a = false /\ canReset a = true /\ canChangeRole a = false /\
   ~ In ("/users", "Users") links) /\
  (isAdmin a = false -> isManager a = false ->
   refused a = true /\ canReset a = false /\ canChangeRole a = false) /\
  List.length links = (if canChangeRole a then 5 else 4)%nat.
Proof.
  unfold adminUsersAccess, sidebarLinks, hasRole.
  destruct (roleLower profile) as [r|]; cbn [bind]; [|discriminate].
  intros Ha Hl. apply Ok_eq in Ha, Hl. subst a links. cbn.
  assert (Hex : strictEqString r "admin" = true ->
                strictEqString r "manager" = false).
  { destruct r; simpl; try discriminate.
    intros H. apply String.eqb_eq in H. now subst s. }
  destruct (strictEqString r "admin") eqn:Ead.
  - rewrite (Hex eq_refl). simpl. repeat split; auto; try discriminate.
    intros _. do 4 right. now left.
  - destruct (strictEqString r "manager"); simpl;
      repeat split; auto; try discriminate;
      try (intros [? | [? | [? | [? | []]]]]; discriminate).
Qed.

(** *** Objects: [changeRole] and the loading of documents *)

Lemma lookup_setProp_same (k : string) (v : value) (o : list (string * value)) :
  lookup k (setProp k v o) = v.
Proof.
  induction o as [|[k' v'] o IH]; simpl.
  - now rewrite String.eqb_refl.
  - destruct (k =? k')%string eqn:E; simpl.
    + now rewrite String.eqb_refl.
    + now rewrite E.
Qed.

Lemma lookup_setProp_other (k k0 : string) (v : value)
      (o : list (string * value)) :
  k0 <> k -> lookup k0 (setProp k v o) = lookup k0 o.
Proof.
  intros Hne. apply String.eqb_neq in Hne.
  induction o as [|[k' v'] o IH]; simpl.
  - now rewrite Hne.
  - destruct (k =? k')%string eqn:E; simpl.
    + apply String.eqb_eq in E. subst k'. now rewrite Hne.
    + now rewrite IH.
Qed.

Lemma setProp_setProp (k : string) (v1 v2 : value)
      (o : list (string * value)) :
  setProp k v2 (setProp k v1 o) = setProp k v2 o.
Proof.
  induction o as [|[k' v'] o IH]; simpl.
  - now rewrite String.eqb_refl.
  - destruct (k =? k')%string eqn:E; simpl.
    + now rewrite String.eqb_refl.
    + now rewrite E, IH.
Qed.

(** X18.  [changeRole] keeps the number and the order of the users; a user
    whose [id] is the given one gets the new role and keeps every other
    field, a user with another [id] is left as it is. *)
Theorem changeRole_updates (uid : string) (newRole : value)
        (prev : list (list (string * value))) :
  List.length (changeRole uid newRole prev) = List.length prev /\
  forall i u,
    nth_error prev i = Some u ->
    exists u',
      nth_error (changeRole uid newRole prev) i = Some u' /\
      (forall k, k <> "role" -> lookup k u' = lookup k u) /\
      (lookup "id" u = VStr uid -> lookup "role" u' = newRole) /\
      (lookup "id" u <> VStr uid -> u' = u).
Proof.
  unfold changeRole. split; [apply length_map|].
  intros i u Hu. rewrite nth_error_map, Hu. simpl. eexists.
  split; [reflexivity|].
  destruct (strictEqString (lookup "id" u) uid) eqn:E.
  - repeat split.
    + intros k Hk. now apply lookup_setProp_other.
    + intros _. apply lookup_setProp_same.
    + intros Hne. exfalso. apply Hne.
      destruct (lookup "id" u); simpl in E; try discriminate.
      apply String.eqb_eq in E. now subst.
  - repeat split; auto.
    intros Hid. rewrite Hid in E. simpl in E.
    now rewrite String.eqb_refl in E.
Qed.

(** X19.  Of two changes of role for the same user the last one wins, and
    changes for two different users can be made in either order. *)
Theorem changeRole_composes (uid1 uid2 : string) (r1 r2 : value)
        (prev : list (list (string * value))) :
  changeRole uid1 r2 (changeRole uid1 r1 prev) = changeRole uid1 r2 prev /\
  (uid1 <> uid2 ->
   changeRole uid1 r1 (changeRole uid2 r2 prev) =
   changeRole uid2 r2 (changeRole uid1 r1 prev)).
Proof.
  unfold changeRole. split.
  - rewrite map_map. apply map_ext. intros u.
    destruct (strictEqString (lookup "id" u) uid1) eqn:E.
    + rewrite lookup_setProp_other by discriminate. rewrite E.
      apply setProp_setProp.
    + now rewrite E.
  - intros Hne. rewrite !map_map. apply map_ext. intros u.
    destruct (strictEqString (lookup "id" u) uid1) eqn:E1;
      destruct (strictEqString (lookup "id" u) uid2) eqn:E2;
      rewrite ?lookup_setProp_other by discriminate;
      rewrite ?E1, ?E2; try reflexivity.
    exfalso. apply Hne.
    destruct (lookup "id" u); simpl in E1, E2; try discriminate.
    apply String.eqb_eq in E1, E2. congruence.
Qed.

Lemma lookup_hasKey_false (k : string) (o : list (string * value)) :
  hasKey k o = false -> lookup k o = VUndefined.
Proof.
  unfold hasKey. induction o as [|[k' v'] o IH]; simpl; [reflexivity|].
  rewrite String.eqb_sym. destruct (k =? k')%string; simpl;
    [discriminate | exact IH].
Qed.

Lemma hasKey_In (k : string) (o : list (string * value)) :
  hasKey k o = true <-> In k (map fst o).
Proof.
  unfold hasKey. rewrite existsb_exists. split.
  - intros ([k' v'] & Hin & Hk). simpl in Hk. apply String.eqb_eq in Hk.
    subst k'. apply in_map_iff. now exists (k, v').
  - intros H. apply in_map_iff in H. destruct H as ([k' v'] & Hk & Hin).
    simpl in Hk. subst k'. exists (k, v'). split; [exact Hin|].
    apply String.eqb_refl.
Qed.

Lemma lookup_spread (k : string) (data o : list (string * value)) :
  NoDup (map fst data) ->
  lookup k (fold_left (fun o kv => setProp (fst kv) (snd kv) o) data o) =
  if hasKey k data then lookup k data else lookup k o.
Proof.
  revert o. induction data as [|[k1 v1] data IH]; intros o Hnd;
    [reflexivity|].
  inversion Hnd as [|? ? Hnotin Hnd']; subst.
  cbn [fold_left fst snd]. rewrite (IH _ Hnd').
  unfold hasKey at 2. cbn [existsb fst lookup].
  rewrite (String.eqb_sym k1 k).
  destruct (k =? k1)%string eqn:E; cbn [orb].
  - apply String.eqb_eq in E. subst k1.
    destruct (hasKey k data) eqn:Hk.
    + exfalso. apply Hnotin. now apply hasKey_In.
    + apply lookup_setProp_same.
  - fold (hasKey k data). destruct (hasKey k data); [reflexivity|].
    apply lookup_setProp_other. intros ->. now rewrite String.eqb_refl in E.
Qed.

Lemma lookup_app (k : string) (a b : list (string * value)) :
  lookup k (a ++ b) = if hasKey k a then lookup k a else lookup k b.
Proof.
  unfold hasKey. induction a as [|[k' v'] a IH]; simpl; [reflexivity|].
  rewrite (String.eqb_sym k' k). destruct (k =? k')%string; simpl;
    [reflexivity | exact IH].
Qed.

(** Keeping the properties whose key passes a test keeps the first
    property of each such key. *)
Lemma lookup_filter (test : string -> bool) (k : string)
      (l : list (string * value)) :
  test k = true ->
  lookup k (filter (fun kv => test (fst kv)) l) = lookup k l /\
  hasKey k (filter (fun kv => test (fst kv)) l) = hasKey k l.
Proof.
  intros Hk. unfold hasKey.
  induction l as [|[k' v'] l [IH1 IH2]]; [split; reflexivity|].
  cbn [filter fst]. destruct (k =? k')%string eqn:E.
  - apply String.eqb_eq in E. subst k'. rewrite Hk. simpl.
    rewrite String.eqb_refl. split; reflexivity.
  - destruct (test k'); simpl; rewrite ?E, (String.eqb_sym k' k), ?E;
      simpl; split; assumption.
Qed.

Lemma hasKey_filter_false (test : string -> bool) (k : string)
      (l : list (string * value)) :
  test k = false -> hasKey k (filter (fun kv => test (fst kv)) l) = false.
Proof.
  intros Hk. unfold hasKey.
  induction l as [|[k' v'] l IH]; [reflexivity|].
  cbn [filter fst]. destruct (test k') eqn:E; [|exact IH].
  simpl. rewrite IH, orb_false_r. apply String.eqb_neq. intros ->.
  congruence.
Qed.

Lemma NoDup_filter_keys (f : string * value -> bool)
      (l : list (string * value)) :
  NoDup (map fst l) -> NoDup (map fst (filter f l)).
Proof.
  induction l as [|kv l IH]; intros H; [constructor|].
  inversion H as [|? ? Hnotin Hnd]; subst. cbn [filter].
  destruct (f kv); [|now apply IH].
  cbn [map]. constructor; [|now apply IH].
  intros Hin. apply Hnotin. apply in_map_iff in Hin.
  destruct Hin as (x & Hx & Hin). apply filter_In in Hin.
  apply in_map_iff. exists x. tauto.
Qed.

(** What a loaded document holds under a key. *)
Lemma lookup_withId (k id : string) (data : list (string * value)) :
  NoDup (map fst data) ->
  prop (withId id data) k =
  if hasKey k data then lookup k data else lookup k [("id", VStr id)].
Proof.
  forget_environment.
  intros Hnd. unfold withId, prop. rewrite lookup_app.
  destruct (isArrayIndex k) eqn:Hk.
  - destruct (lookup_filter isArrayIndex k data Hk) as [H1 H2].
    rewrite H1, H2. destruct (hasKey k data) eqn:E; [reflexivity|].
    rewrite (lookup_spread k _ _
               (NoDup_filter_keys
                  (fun kv => negb (isArrayIndex (fst kv))) data Hnd)).
    rewrite (hasKey_filter_false (fun k => negb (isArrayIndex k)) k data)
      by (now rewrite Hk).
    reflexivity.
  - rewrite (hasKey_filter_false isArrayIndex k data Hk).
    rewrite (lookup_spread k _ _
               (NoDup_filter_keys
                  (fun kv => negb (isArrayIndex (fst kv))) data Hnd)).
    destruct (lookup_filter (fun k => negb (isArrayIndex k)) k data)
      as [H1 H2]; [now rewrite Hk|].
    now rewrite H1, H2.
Qed.

(** The report of [getLastCheck] on two patients with the same check-ins
    and the same interval. *)
Lemma getLastCheck_same_inputs (patient1 patient2 : value) (now : Z) :
  getCheckInsArray patient1 = getCheckInsArray patient2 ->
  intervalOf patient1 = intervalOf patient2 ->
  getLastCheck patient1 now = getLastCheck patient2 now.
Proof.
  intros Harr Hint.
  destruct (allEntries (getCheckInsArray patient1)) eqn:Hall.
  - rewrite (getLastCheck_exact _ _ Hall).
    rewrite Harr in Hall. rewrite (getLastCheck_exact _ _ Hall).
    now rewrite Harr, Hint.
  - rewrite (getLastCheck_throws _ _ Hall).
    rewrite Harr in Hall. now rewrite (getLastCheck_throws _ _ Hall).
Qed.

(** X20.  A loaded document reads as the stored one: every field other
    than [id] has its stored value, [id] is the document identifier unless
    the document has a field of that name, which then takes its place; the
    check-ins, the last check and the cells of the grid are those of the
    stored document. *)
Theorem withId_reads_document (id : string) (data : list (string * value)) :
  NoDup (map fst data) ->
  (forall k, k <> "id" -> prop (withId id data) k = lookup k data) /\
  prop (withId id data) "id" =
    (if hasKey "id" data then lookup "id" data else VStr id) /\
  getCheckInsArray (withId id data) = getCheckInsArray (VObj data) /\
  (forall now, getLastCheck (withId id data) now =
               getLastCheck (VObj data) now) /\
  (forall slot, hasCheckInInSlot (withId id data) slot =
                hasCheckInInSlot (VObj data) slot).
Proof.
  intros Hnd.
  assert (Hk : forall k, k <> "id" -> prop (withId id data) k = lookup k data).
  { intros k Hk. rewrite (lookup_withId _ _ _ Hnd).
    destruct (hasKey k data) eqn:E; [reflexivity|].
    simpl. apply String.eqb_neq in Hk. rewrite Hk.
    symmetry. now apply lookup_hasKey_false. }
  assert (Harr : getCheckInsArray (withId id data) =
                 getCheckInsArray (VObj data)).
  { unfold getCheckInsArray. rewrite (Hk "checkIns") by discriminate.
    reflexivity. }
  split; [exact Hk|]. split; [|split; [exact Harr|split]].
  - rewrite (lookup_withId _ _ _ Hnd).
    destruct (hasKey "id" data); reflexivity.
  - intros now. apply getLastCheck_same_inputs; [exact Harr|].
    unfold intervalOf. rewrite (Hk "checkInInterval") by discriminate.
    reflexivity.
  - intros slot. unfold hasCheckInInSlot. now rewrite Harr.
Qed.

(** *** The patients page and the dashboard *)

Lemma isPatientOverdue_later (p : value) (now now' : Z) (b : bool) :
  now <= now' ->
  isPatientOverdue p now = Ok b ->
  exists b', isPatientOverdue p now' = Ok b' /\ (b = true -> b' = true).
Proof.
  intros Hle. unfold isPatientOverdue.
  destruct (allEntries (getCheckInsArray p)) eqn:Hall.
  - rewrite (getLastCheck_exact _ now Hall), (getLastCheck_exact _ now' Hall).
    destruct (sortBy _ _) as [|latest rest].
    + cbn [bind isOverdue noneResult]. intros Hb. apply Ok_eq in Hb.
      subst b. eexists. split; [reflexivity | auto].
    + destruct (gt (minutesSince now _) _) as [late|] eqn:Hlate;
        [|discriminate].
      destruct (gt_later _ _ _ _ _ Hle Hlate) as (late' & Hlate' & Himp).
      rewrite Hlate'. cbn [bind isOverdue]. intros Hb. apply Ok_eq in Hb.
      subst b. eexists. split; [reflexivity | exact Himp].
  - rewrite (getLastCheck_throws _ _ Hall). discriminate.
Qed.

Lemma filteriM_overdue_later (nowAt nowAt' : nat -> Z)
      (patients : list value) :
  (forall i, nowAt i <= nowAt' i) ->
  forall i kept,
    filteriM (fun i p => isPatientOverdue p (nowAt i)) i patients = Ok kept ->
    exists kept',
      filteriM (fun i p => isPatientOverdue p (nowAt' i)) i patients
      = Ok kept' /\
      (List.length kept <= List.length kept')%nat.
Proof.
  intros Hle. induction patients as [|p patients IH]; intros i kept Hk.
  - exists []. apply Ok_eq in Hk. subst kept. split; [reflexivity | lia].
  - cbn [filteriM] in *.
    destruct (isPatientOverdue p (nowAt i)) as [b|] eqn:Hb; [|discriminate].
    cbn [bind] in Hk.
    destruct (filteriM _ (S i) patients) as [rest|] eqn:Hrest;
      [|discriminate].
    cbn [bind] in Hk. apply Ok_eq in Hk. subst kept.
    destruct (isPatientOverdue_later _ _ _ _ (Hle i) Hb) as (b' & Hb' & Hbb').
    destruct (IH (S i) rest Hrest) as (rest' & Hrest' & Hlen).
    rewrite Hb', Hrest'. cbn [bind]. eexists. split; [reflexivity|].
    destruct b; [rewrite (Hbb' eq_refl); simpl; lia|].
    destruct b'; simpl; lia.
Qed.

Lemma filteriM_length {A : Type} (f : nat -> A -> result bool) (l : list A) :
  forall i kept,
    filteriM f i l = Ok kept -> (List.length kept <= List.length l)%nat.
Proof.
  induction l as [|x l IH]; intros i kept Hk.
  - apply Ok_eq in Hk. subst kept. simpl. lia.
  - cbn [filteriM] in Hk. destruct (f i x) as [b|]; [|discriminate].
    cbn [bind] in Hk. destruct (filteriM f (S i) l) as [rest|] eqn:Hrest;
      [|discriminate].
    cbn [bind] in Hk. apply Ok_eq in Hk. subst kept.
    specialize (IH _ _ Hrest). destruct b; simpl; lia.
Qed.

(** X21.  The later the dashboard is drawn, the more patients it counts as
    overdue: with clock readings that are not earlier, patient by patient,
    the total is the same, the overdue number is not smaller and the
    on-time number is not greater. *)
Theorem dashboard_overdue_grows (patients : list value)
        (nowAt nowAt' : nat -> Z) (c : dashboardCounts) :
  (forall i, nowAt i <= nowAt' i) ->
  dashboard patients nowAt = Ok c ->
  exists c',
    dashboard patients nowAt' = Ok c' /\
    total c' = total c /\
    overdue c <= overdue c' <= total c /\
    0 <= onTime c' <= onTime c.
Proof.
  intros Hle. unfold dashboard.
  destruct (filteriM _ 0%nat patients) as [kept|] eqn:Hk; [|discriminate].
  cbn [bind]. intros Hc. apply Ok_eq in Hc. subst c.
  destruct (filteriM_overdue_later _ _ _ Hle _ _ Hk) as (kept' & Hk' & Hlen).
  rewrite Hk'. cbn [bind]. eexists. split; [reflexivity|].
  cbn [total overdue onTime].
  pose proof (filteriM_length _ _ _ _ Hk').
  repeat split; lia.
Qed.

(** The card of a patient is built unless the patient is [null] or
    [undefined], [getLastCheck] throws or the [key] cannot be converted to
    a string. *)
Lemma patientCard_cases (p : value) (now : Z) :
  (cardThrows p /\ patientCard p now = TypeError) \/
  (~ cardThrows p /\
   exists last cd,
     getLastCheck p now = Ok last /\
     patientCard p now = Ok cd /\
     cardChildren cd = [prop p "name"; prop p "location";
                        prop p "wristbandID"; prop p "checkInInterval";
                        prop p "comments"] /\
     card_lastCheck cd = display last /\
     card_status cd = (if isOverdue last then "Overdue" else "On-time") /\
     (card_status cd =? "Overdue")%string = isOverdue last).
Proof.
  unfold cardThrows, patientCard.
  destruct (getLastCheck_throws_or_returns p now)
    as [[Ht Hl] | [Ht (last & Hl)]]; rewrite Hl; [left; auto|].
  cbn [bind]. unfold get.
  destruct (nullish p) eqn:Hn; [left; auto|]. cbn [bind].
  assert (Hkey : (unprintable (prop p "id") = true /\
                  match prop p "id" with
                  | VUndefined => Ok None
                  | _ => s <- toString (prop p "id") ;; Ok (Some s)
                  end = TypeError) \/
                 (unprintable (prop p "id") = false /\
                  exists key, match prop p "id" with
                              | VUndefined => Ok None
                              | _ => s <- toString (prop p "id") ;;
                                     Ok (Some s)
                              end = Ok key)).
  { destruct (toString_cases (prop p "id")) as [[Hu Hs] | [Hu (s & Hs)]].
    - left. split; [exact Hu|]. rewrite Hs.
      destruct (prop p "id"); try reflexivity; discriminate.
    - right. split; [exact Hu|]. rewrite Hs.
      destruct (prop p "id"); eexists; reflexivity. }
  destruct Hkey as [[Hu Hk] | [Hu (key & Hk)]]; rewrite Hk; cbn [bind].
  - left. auto.
  - right. split.
    + intros [H | [H | H]]; [congruence | contradiction | congruence].
    + do 2 eexists. split; [reflexivity|]. split; [reflexivity|].
      cbn. repeat split. now destruct (isOverdue last).
Qed.

Lemma cardThrows_dec (patients : list value) :
  Forall (fun p => ~ cardThrows p) patients \/ Exists cardThrows patients.
Proof.
  forget_environment.
  induction patients as [|p patients [IH | IH]].
  - left. constructor.
  - unfold cardThrows.
    destruct (nullish p) eqn:Hn; [right; constructor; now left|].
    destruct (lastCheckThrows_decidable p) as [Ht | Ht];
      [right; constructor; now right; left|].
    destruct (unprintable (prop p "id")) eqn:Hu;
      [right; constructor; now right; right|].
    left. constructor; [|exact IH].
    intros [H | [H | H]]; [congruence | contradiction | congruence].
  - right. now constructor 2.
Qed.

Lemma mapiM_cards (nowAt : nat -> Z) (patients : list value) :
  Forall (fun p => ~ cardThrows p) patients ->
  forall i, exists cards kept,
    mapiM (fun i p => patientCard p (nowAt i)) i patients = Ok cards /\
    filteriM (fun i p => isPatientOverdue p (nowAt i)) i patients = Ok kept /\
    List.length cards = List.length patients /\
    (forall k p, nth_error patients k = Some p ->
       exists last cd,
         getLastCheck p (nowAt (i + k)%nat) = Ok last /\
         nth_error cards k = Some cd /\
         cardChildren cd = [prop p "name"; prop p "location";
                            prop p "wristbandID"; prop p "checkInInterval";
                            prop p "comments"] /\
         card_lastCheck cd = display last /\
         card_status cd = (if isOverdue last then "Overdue" else "On-time")) /\
    overdueCards cards = Z.of_nat (List.length kept).
Proof.
  induction 1 as [|p patients Hp H IH]; intros i.
  - exists [], []. repeat split. intros [|k] p Hk; discriminate.
  - destruct (patientCard_cases p (nowAt i))
      as [[Hbad _] | [_ (last & cd & Hlast & Hcd & Hch & Hdisp & Hstatus & Heqb)]];
      [contradiction|].
    destruct (IH (S i)) as (cards & kept & Hcards & Hkept & Hlen & Hnth & Hov).
    exists (cd :: cards), (if isOverdue last then p :: kept else kept).
    cbn [mapiM filteriM]. unfold isPatientOverdue at 1.
    rewrite Hcd, Hcards, Hlast. cbn [bind]. rewrite Hkept. cbn [bind].
    split; [reflexivity|]. split; [reflexivity|].
    split; [simpl; now rewrite Hlen|]. split.
    + intros [|k] q Hq; simpl in Hq.
      * apply Some_eq in Hq. subst q. exists last, cd.
        rewrite Nat.add_0_r. repeat split; auto.
      * destruct (Hnth k q Hq) as (l' & cd' & H1 & H2 & H3).
        exists l', cd'. replace (i + S k)%nat with (S i + k)%nat by lia.
        auto.
    + unfold overdueCards in *. cbn [filter]. rewrite Heqb.
      destruct (isOverdue last); cbn [List.length]; lia.
Qed.

Lemma mapiM_cards_throws (nowAt : nat -> Z) (patients : list value) :
  Exists cardThrows patients ->
  forall i, mapiM (fun i p => patientCard p (nowAt i)) i patients = TypeError.
Proof.
  induction 1 as [p patients Hp | p patients H IH]; intros i; cbn [mapiM].
  - destruct (patientCard_cases p (nowAt i)) as [[_ Hc] | [Hgood _]];
      [now rewrite Hc | contradiction].
  - rewrite IH. now destruct (patientCard p (nowAt i)).
Qed.

(** X22.  The patients page throws a [TypeError] while it builds its cards
    exactly when, for some patient, the patient is [null] or [undefined],
    [getLastCheck] throws, or its [id] cannot be converted to a string for
    the [key].  Otherwise React refuses the cards exactly when one of the
    values a card shows (name, location, wristband, interval, comments) is
    not a valid child, as a map is.  When the page is drawn there is one
    card per patient, in order, with these values and the display and
    status of its last check, and the dashboard drawn at the same clock
    readings agrees with it: its overdue number is the number of cards that
    read "Overdue", its on-time number the number of the others. *)
Theorem Patients_agrees_with_dashboard (patients : list value)
        (nowAt : nat -> Z) :
  (Patients patients nowAt = Thrown <-> Exists cardThrows patients) /\
  (Patients patients nowAt = Refused <->
   Forall (fun p => ~ cardThrows p) patients /\
   Exists (fun p =>
             forallb validChild
                     [prop p "name"; prop p "location"; prop p "wristbandID";
                      prop p "checkInInterval"; prop p "comments"] = false)
          patients) /\
  (forall cards, Patients patients nowAt = Drawn cards ->
     List.length cards = List.length patients /\
     (forall k p, nth_error patients k = Some p ->
        exists last cd,
          getLastCheck p (nowAt k) = Ok last /\
          nth_error cards k = Some cd /\
          cardChildren cd = [prop p "name"; prop p "location";
                             prop p "wristbandID"; prop p "checkInInterval";
                             prop p "comments"] /\
          card_lastCheck cd = display last /\
          card_status cd = (if isOverdue last then "Overdue" else "On-time"))
     /\
     exists c,
       dashboard patients nowAt = Ok c /\
       overdue c = overdueCards cards /\
       onTime c = Z.of_nat (List.length cards) - overdueCards cards).
Proof.
  unfold Patients. destruct (cardThrows_dec patients) as [F | E].
  - destruct (mapiM_cards nowAt patients F 0)
      as (cards & kept & Hcards & Hkept & Hlen & Hnth & Hov).
    rewrite Hcards.
    assert (Hnot : ~ Exists cardThrows patients).
    { intros E. rewrite Forall_forall in F. apply Exists_exists in E.
      destruct E as (p & Hp & Hbad). exact (F p Hp Hbad). }
    assert (Hvalid :
              forallb (fun c => forallb validChild (cardChildren c)) cards
              = false <->
              Exists (fun p =>
                        forallb validChild
                          [prop p "name"; prop p "location";
                           prop p "wristbandID"; prop p "checkInInterval";
                           prop p "comments"] = false) patients).
    { clear Hcards Hkept Hov Hnot F. revert cards Hlen Hnth.
      generalize 0%nat as i.
      induction patients as [|p patients IH]; intros i cards Hlen Hnth.
      - destruct cards; [|discriminate]. simpl.
        split; [discriminate | intros H; inversion H].
      - destruct cards as [|cd cards]; [discriminate|].
        destruct (Hnth 0%nat p eq_refl) as (last & cd0 & _ & Hcd & Hch & _).
        apply Some_eq in Hcd. subst cd0.
        assert (Hnth' : forall k q, nth_error patients k = Some q ->
                  exists last cd,
                    getLastCheck q (nowAt (S i + k)%nat) = Ok last /\
                    nth_error cards k = Some cd /\
                    cardChildren cd = [prop q "name"; prop q "location";
                                       prop q "wristbandID";
                                       prop q "checkInInterval";
                                       prop q "comments"] /\
                    card_lastCheck cd = display last /\
                    card_status cd =
                      (if isOverdue last then "Overdue" else "On-time")).
        { intros k q Hq. destruct (Hnth (S k) q Hq) as (l' & cd' & H1 & H2).
          exists l', cd'.
          now replace (S i + k)%nat with (i + S k)%nat by lia. }
        specialize (IH (S i) cards ltac:(simpl in Hlen; lia) Hnth').
        cbn [forallb]. rewrite Hch.
        destruct (forallb validChild
                    [prop p "name"; prop p "location"; prop p "wristbandID";
                     prop p "checkInInterval"; prop p "comments"]) eqn:Hv.
        + rewrite andb_true_l, IH. split; [now constructor 2|].
          intros H. inversion H as [? ? H1 | ? ? H1]; subst;
            [cbn [forallb] in Hv; rewrite Hv in H1; discriminate
            | assumption].
        + rewrite andb_false_l. split; [now constructor | reflexivity]. }
    destruct (forallb (fun c => forallb validChild (cardChildren c)) cards)
      eqn:Hv.
    + split; [split; [discriminate | contradiction]|].
      split.
      * split; [discriminate|]. intros [_ H]. apply Hvalid in H.
        discriminate.
      * intros cards' Hc. injection Hc as <-.
        split; [exact Hlen|]. split; [exact Hnth|].
        unfold dashboard. rewrite Hkept. cbn [bind]. eexists.
        split; [reflexivity|]. cbn [overdue onTime]. lia.
    + split; [split; [discriminate | contradiction]|].
      split.
      * split; [|reflexivity]. intros _. split; [exact F|].
        now apply Hvalid.
      * intros cards' Hc. discriminate.
  - rewrite (mapiM_cards_throws nowAt patients E 0).
    split; [split; auto|]. split.
    + split; [discriminate|]. intros [F _]. exfalso.
      rewrite Forall_forall in F. apply Exists_exists in E.
      destruct E as (p & Hp & Hbad). exact (F p Hp Hbad).
    + intros cards Hc. discriminate.
Qed.

(** *** Session and routes *)

Lemma roleLower_throws (p : value) :
  roleLower p = TypeError <->
  nullish (prop p "role") = false /\ typeofString (prop p "role") = false.
Proof.
  unfold roleLower.
  destruct p as [| | | | | |props]; simpl;
    try (split; [discriminate | intros [H _]; discriminate]).
  generalize (lookup "role" props). intros role.
  destruct role; simpl;
    try (split; [discriminate | intros [H1 H2]; discriminate]);
    split; auto.
Qed.

Lemma sidebarLinks_cases (p : value) :
  (roleLower p = TypeError /\ sidebarLinks p = TypeError) \/
  (exists v, roleLower p = Ok v /\
             sidebarLinks p =
             Ok (if strictEqString v "admin"
                 then (commonLinks ++ [("/users", "Users")])%list
                 else commonLinks)).
Proof.
  unfold sidebarLinks, hasRole.
  destruct (roleLower p) as [v|]; cbn [bind]; [right | left; auto].
  exists v. split; reflexivity.
Qed.

Lemma adminUsersAccess_refused (p : value) (a : usersAccess) :
  adminUsersAccess p = Ok a ->
  refused a = negb (isAdmin a) && negb (isManager a).
Proof.
  unfold adminUsersAccess.
  destruct (hasRole "admin" p); cbn [bind]; [|discriminate].
  destruct (hasRole "manager" p); cbn [bind]; [|discriminate].
  intros H. apply Ok_eq in H. now subst a.
Qed.

Lemma sidebarLinks_targets (p : value) (links : list (string * string)) :
  sidebarLinks p = Ok links ->
  (forall l, In l links -> exists r, routePath r = fst l) /\
  ~ In (routePath CheckinsRoute) (map fst links) /\
  ~ In (routePath RegisterRoute) (map fst links).
Proof.
  destruct (sidebarLinks_cases p) as [[_ H] | (v & _ & H)]; rewrite H;
    [discriminate|].
  intros Hl. apply Ok_eq in Hl. subst links.
  assert (Hcommon : forall l, In l commonLinks ->
                              exists r, routePath r = fst l).
  { intros l [<- | [<- | [<- | [<- | []]]]];
      [exists HomeRoute | exists PatientsRoute | exists RoundingGraphRoute
       | exists ReportsRoute]; reflexivity. }
  destruct (strictEqString v "admin"); repeat split.
  - intros l Hin. apply in_app_or in Hin. destruct Hin as [Hin | [<- | []]].
    + now apply Hcommon.
    + now exists UsersRoute.
  - simpl. intros [H1 | [H1 | [H1 | [H1 | [H1 | []]]]]]; discriminate.
  - simpl. intros [H1 | [H1 | [H1 | [H1 | [H1 | []]]]]]; discriminate.
  - exact Hcommon.
  - simpl. intros [H1 | [H1 | [H1 | [H1 | []]]]]; discriminate.
  - simpl. intros [H1 | [H1 | [H1 | [H1 | []]]]]; discriminate.
Qed.

(** X23.  Once the session is loaded, a profile whose [role] is neither
    [null], [undefined] nor a string makes the shell throw at every route,
    the sign-in and registration pages included and whoever is signed in:
    the sidebar is rendered at every route and calls [toLowerCase] on the
    role.  While the session is loading nothing is read from the
    profile. *)
Theorem Shell_throws_on_role (s : session) (r : route) :
  nullish (prop (profile s) "role") = false ->
  typeofString (prop (profile s) "role") = false ->
  Shell s r = (if loadingAuth s then Ok LoadingView else TypeError) /\
  sidebarLinks (profile s) = TypeError /\
  hasRole "admin" (profile s) = TypeError.
Proof.
  intros Hn Hs.
  assert (Hr : roleLower (profile s) = TypeError)
    by (apply roleLower_throws; auto).
  unfold Shell, sidebarLinks, hasRole. rewrite Hr. cbn [bind].
  now destruct (loadingAuth s).
Qed.

(** X24.  The shell shows a page other than the sign-in page, the
    registration page and the notice only to a signed-in user; signed out,
    the home route gives the sign-in page and every route but registration
    the notice.  The Users page is shown only at its route and only to an
    admin or a manager.  The sidebar does not depend on the route nor on
    who is signed in; each of its links leads to a declared route, and none
    leads to the check-ins list or to the registration page. *)
Theorem Shell_requires_sign_in (s : session) (r : route)
        (links : list (string * string)) (main : page) :
  Shell s r = Ok (ShellView links main) ->
  (behindSignIn main = true -> truthy (firebaseUser s) = true) /\
  (truthy (firebaseUser s) = false -> main = signedOutPage r) /\
  (forall a, main = UsersPage a ->
     r = UsersRoute /\ adminUsersAccess (profile s) = Ok a /\
     (isAdmin a = true \/ isManager a = true)) /\
  sidebarLinks (profile s) = Ok links /\
  (forall l, In l links -> exists r', routePath r' = fst l) /\
  ~ In (routePath CheckinsRoute) (map fst links) /\
  ~ In (routePath RegisterRoute) (map fst links).
Proof.
  unfold Shell. destruct (loadingAuth s); [discriminate|].
  destruct (sidebarLinks (profile s)) as [links'|] eqn:Hl; cbn [bind];
    [|discriminate].
  intros H.
  assert (Hlinks : links' = links /\
                   match r with
                   | HomeRoute =>
                       Ok (if truthy (firebaseUser s) then DashboardPage
                           else LoginPage)
                   | RegisterRoute => Ok RegisterPage
                   | PatientsRoute => Protected s (Ok PatientsPage)
                   | CheckinsRoute => Protected s (Ok CheckinsPage)
                   | RoundingGraphRoute => Protected s (Ok RoundingGraphPage)
                   | ReportsRoute => Protected s (Ok ReportsPage)
                   | UsersRoute => Protected s (AdminUsers (profile s))
                   end = Ok main).
  { destruct r; unfold Protected in *;
      destruct (truthy (firebaseUser s)); cbn [bind] in H;
      try (inversion H; subst; split; reflexivity);
      destruct (AdminUsers (profile s)); cbn [bind] in H;
      inversion H; subst; split; reflexivity. }
  destruct Hlinks as [-> Hmain]. clear H.
  destruct (sidebarLinks_targets _ _ Hl) as (Ht1 & Ht2 & Ht3).
  assert (Husers : forall a, AdminUsers (profile s) = Ok (UsersPage a) ->
                             adminUsersAccess (profile s) = Ok a /\
                             (isAdmin a = true \/ isManager a = true)).
  { unfold AdminUsers. intros a.
    destruct (adminUsersAccess (profile s)) as [a'|] eqn:Ha; cbn [bind];
      [|discriminate].
    pose proof (adminUsersAccess_refused _ _ Ha) as Hr.
    destruct (refused a') eqn:Hrf; [discriminate|].
    intros Hp. inversion Hp; subst a'. split; [reflexivity|].
    destruct (isAdmin a); [now left|]. destruct (isManager a); [now right|].
    discriminate. }
  unfold Protected in Hmain.
  split; [|split; [|split; [|repeat split; auto]]].
  - destruct (truthy (firebaseUser s)); [reflexivity|].
    destruct r; inversion Hmain; subst main; simpl; auto.
  - intros Hout. rewrite Hout in Hmain.
    destruct r; inversion Hmain; reflexivity.
  - intros a Ha. subst main.
    destruct r; destruct (truthy (firebaseUser s)); try discriminate.
    split; [reflexivity|]. now apply Husers.
Qed.

(** The session and [loadingAuth] after one event. *)
Lemma authStep_invariant (s : session) (e : authEvent) :
  (firebaseUser s = VNull \/ truthy (firebaseUser s) = true) ->
  (profile s = VNull \/ exists data, profile s = VObj data) ->
  (firebaseUser (authStep s e) = VNull \/
   truthy (firebaseUser (authStep s e)) = true) /\
  (profile (authStep s e) = VNull \/
   exists data, profile (authStep s e) = VObj data) /\
  loadingAuth (authStep s e) = loadingAuth s && keepsLoading e.
Proof.
  intros H1 H2.
  destruct e as [user | user read | done]; simpl;
    unfold authBegin, authResume, signOut.
  - destruct (truthy user) eqn:Hu; simpl;
      rewrite ?andb_true_r, ?andb_false_r; auto.
  - destruct read; simpl; rewrite ?andb_true_r, ?andb_false_r; eauto.
  - destruct done; simpl; rewrite andb_true_r; auto.
Qed.

Lemma fold_authStep_invariant (es : list authEvent) :
  forall s,
    (firebaseUser s = VNull \/ truthy (firebaseUser s) = true) ->
    (profile s = VNull \/ exists data, profile s = VObj data) ->
    (firebaseUser (fold_left authStep es s) = VNull \/
     truthy (firebaseUser (fold_left authStep es s)) = true) /\
    (profile (fold_left authStep es s) = VNull \/
     exists data, profile (fold_left authStep es s) = VObj data) /\
    loadingAuth (fold_left authStep es s)
    = loadingAuth s && forallb keepsLoading es.
Proof.
  induction es as [|e es IH]; intros s H1 H2.
  - simpl. rewrite andb_true_r. auto.
  - destruct (authStep_invariant s e H1 H2) as (H1' & H2' & Hl).
    destruct (IH _ H1' H2') as (H1'' & H2'' & Hl').
    cbn [fold_left forallb]. rewrite Hl', Hl, andb_assoc. auto.
Qed.

Lemma sessionAfter_app (es es' : list authEvent) :
  sessionAfter (es ++ es') = fold_left authStep es' (sessionAfter es).
Proof. unfold sessionAfter. apply fold_left_app. Qed.

(** X25.  Whatever callbacks started, resumed after their read, and
    whatever sign-outs ended since the first render, in any order: the
    session is still loading exactly when no callback for a missing user
    has run and no read has given a snapshot; the user is [null] or a
    truthy value; the profile is [null] or an object.  A callback that is
    not interrupted is the two steps in a row.  A sign-out that ends
    during the read of a profile leaves a session without a user but with
    that profile: the protected routes show the notice, and the sidebar
    goes on with the links of that profile. *)
Theorem sessionAfter_invariant (es : list authEvent) :
  loadingAuth (sessionAfter es) = forallb keepsLoading es /\
  (firebaseUser (sessionAfter es) = VNull \/
   truthy (firebaseUser (sessionAfter es)) = true) /\
  (profile (sessionAfter es) = VNull \/
   exists data, profile (sessionAfter es) = VObj data) /\
  (forall user read s,
     truthy user = true ->
     onAuthStateChanged user read s
     = authStep (authStep s (AuthBegin user)) (AuthResume user read)) /\
  (forall user data,
     truthy user = true ->
     sessionAfter (es ++ [AuthBegin user; SignOut true;
                          AuthResume user (DocExists data)])
     = {| firebaseUser := VNull; profile := VObj data;
          loadingAuth := false |} /\
     forall r,
       Shell (sessionAfter (es ++ [AuthBegin user; SignOut true;
                                   AuthResume user (DocExists data)])) r
       = (links <- sidebarLinks (VObj data) ;;
          Ok (ShellView links (signedOutPage r)))).
Proof.
  unfold sessionAfter at 1 2 3 4 5.
  destruct (fold_authStep_invariant es initialSession) as (H1 & H2 & Hl).
  - now left.
  - now left.
  - simpl in Hl. split; [exact Hl|]. split; [exact H1|].
    split; [exact H2|]. split.
    + intros user read s Hu. unfold onAuthStateChanged. rewrite Hu.
      reflexivity.
    + intros user data Hu.
      assert (Hs : sessionAfter (es ++ [AuthBegin user; SignOut true;
                                        AuthResume user (DocExists data)])
                   = {| firebaseUser := VNull; profile := VObj data;
                        loadingAuth := false |}).
      { rewrite sessionAfter_app. cbn [fold_left authStep].
        unfold authBegin. rewrite Hu. reflexivity. }
      split; [exact Hs|]. intros r. rewrite Hs.
      unfold Shell, Protected. cbn [loadingAuth profile firebaseUser truthy].
      destruct (sidebarLinks (VObj data)) as [links|]; cbn [bind];
        [|reflexivity].
      now destruct r.
Qed.

(** X26.  An account whose profile document is missing, or is the one
    registration writes, is plain staff whatever its name and email: it
    gets the common links only, every page but the Users page, and the
    refusal at the Users route. *)
Theorem new_account_is_staff (user : value) (name email : string)
        (read : profileRead) (s : session) (r : route) :
  truthy user = true ->
  read = DocMissing \/ read = DocExists (doRegister name email) ->
  Shell (onAuthStateChanged user read s) r
  = Ok (ShellView commonLinks (staffPage r)).
Proof.
  intros Hu [-> | ->]; unfold onAuthStateChanged, authResume, authBegin;
    rewrite Hu; unfold Shell, Protected;
    cbn [loadingAuth firebaseUser profile];
    rewrite Hu; destruct r; reflexivity.
Qed.

(** X27.  A rejected profile read sets the user and nothing else: from the
    first render the shell keeps showing the loading notice at every route,
    and after another user it shows at every route what it showed to that
    user, with that user's links and access. *)
Theorem rejected_read_keeps_profile (user : value) (s : session)
        (r : route) :
  truthy user = true ->
  firebaseUser (onAuthStateChanged user ReadRejected s) = user /\
  profile (onAuthStateChanged user ReadRejected s) = profile s /\
  (loadingAuth s = true ->
   Shell (onAuthStateChanged user ReadRejected s) r = Ok LoadingView) /\
  (truthy (firebaseUser s) = true ->
   Shell (onAuthStateChanged user ReadRejected s) r = Shell s r).
Proof.
  intros Hu. unfold onAuthStateChanged, authResume, authBegin. rewrite Hu.
  unfold Shell, Protected. cbn [loadingAuth firebaseUser profile].
  repeat split.
  - now intros ->.
  - intros ->. now rewrite Hu.
Qed.

End Engine.

(** ** The statements on the sample environments *)


(** The rounding on numbers whose doubles are known: one tenth, three
    tenths, one third, the same below zero, and the ties above [2^53],
    which go to the even significand. *)
Example roundDouble_samples :
  (roundDouble (1 # 10) == 3602879701896397 # 36028797018963968)%Q /\
  (roundDouble (3 # 10) == double03)%Q /\
  (roundDouble (1 # 3) == 6004799503160661 # 18014398509481984)%Q /\
  (roundDouble (- (1 # 10)) == - (3602879701896397 # 36028797018963968))%Q /\
  (roundDouble (inject_Z (2 ^ 53 + 1)) == inject_Z (2 ^ 53))%Q /\
  (roundDouble (inject_Z (2 ^ 53 + 3)) == inject_Z (2 ^ 53 + 4))%Q /\
  (roundDouble (18000 # 60000) < 3 # 10)%Q.
Proof. repeat split; vm_compute; reflexivity. Qed.


Lemma parseCheckTime_first_occurrences_witness :
  "November 20, 2025 at 12:55:25 AM UTC-5" <> "" /\
  (parseCheckTime sampleDateParse
     (VStr "November 20, 2025 at 12:55:25 AM UTC-5") =
   sampleDateParse (cleaned "November 20, 2025 at 12:55:25 AM UTC-5") /\
   (exists mid,
       replacesFirst (startsWith " at ") " at " " "
                     "November 20, 2025 at 12:55:25 AM UTC-5" mid /\
       replacesFirst markerAtFront "UTC" "GMT" mid
                     (cleaned "November 20, 2025 at 12:55:25 AM UTC-5")) /\
   parseCheckTime sampleDateParse
     (VStr "November 20, 2025 at 12:55:25 AM UTC-5") =
   sampleDateParse "November 20, 2025 12:55:25 AM GMT-5" /\
   parseCheckTime sampleDateParse (VStr "") = None).
Proof.
  assert (H : "November 20, 2025 at 12:55:25 AM UTC-5" <> "")
    by discriminate.
  split; [exact H|].
  exact (parseCheckTime_first_occurrences sampleDateParse _ H).
Defined.

(** The claim C2 as it is worded fails on a string with two markers: the
    program rewrites the first one and leaves the trailing one, so the
    parser is not handed the string the wording describes. *)
Lemma cleaned_trailing_marker_counterexample :
  cleaned "UTC+1 UTC+2" = "GMT+1 UTC+2" /\
  cleanedAsSpecified "UTC+1 UTC+2" = "UTC+1 GMT+2" /\
  ~ (forall (dateParse : string -> option Z) (str : string),
        parseCheckTime dateParse (VStr str) =
        dateParse (cleanedAsSpecified str)).
Proof.
  split; [reflexivity|]. split; [reflexivity|].
  intros H.
  specialize (H (fun s => if (s =? "GMT+1 UTC+2")%string then Some 0 else None)
                "UTC+1 UTC+2").
  discriminate H.
Qed.

Lemma buildSlots_fixed_offset_witness :
  ((forall t, sampleNow + 1500000 - 24 * 3600000 < t <= sampleNow + 1500000 ->
              fixedTZA (-18000000) t true = -18000000) /\
   (forall t, sampleNow + 1500000 - 24 * 3600000 < t - -18000000
              <= sampleNow + 1500000 ->
              fixedTZA (-18000000) t false = -18000000)) /\
  slotsAsSpecified (fixedTZA (-18000000)) (sampleNow + 1500000)
                   (buildSlots (fixedTZA (-18000000)) (sampleNow + 1500000)).
Proof.
  assert (H1 : forall t,
             sampleNow + 1500000 - 24 * 3600000 < t <= sampleNow + 1500000 ->
             fixedTZA (-18000000) t true = -18000000)
    by (intros t _; reflexivity).
  assert (H2 : forall t,
             sampleNow + 1500000 - 24 * 3600000 < t - -18000000
             <= sampleNow + 1500000 ->
             fixedTZA (-18000000) t false = -18000000)
    by (intros t _; reflexivity).
  split; [split; assumption|].
  exact (buildSlots_fixed_offset (fixedTZA (-18000000)) (sampleNow + 1500000)
           (-18000000) H1 H2).
Defined.

(** C3.  The slot loop at a clock change.  In New York at 06:30 UTC on
    2 November 2025 (1:30, half an hour after the clocks went back) the last
    two slots both start at 05:00 UTC: they are not 3,600,000 ms apart, and
    the last one starts an hour and a half before [now], so the 24 slots
    are not the consecutive hours the claim describes; an instant a quarter
    of an hour before [now] falls in none of them. *)
Lemma buildSlots_fall_back :
  nth_error (buildSlots newYorkTZA (fallBackInstant + 1800000)) 22
  = Some 1762059600000 /\
  nth_error (buildSlots newYorkTZA (fallBackInstant + 1800000)) 23
  = Some 1762059600000 /\
  existsb (fun s => (s <=? fallBackInstant + 900000)
                    && (fallBackInstant + 900000 <? s + 3600000))
          (buildSlots newYorkTZA (fallBackInstant + 1800000)) = false /\
  ~ slotsAsSpecified newYorkTZA (fallBackInstant + 1800000)
                     (buildSlots newYorkTZA (fallBackInstant + 1800000)).
Proof.
  assert (H22 : nth_error (buildSlots newYorkTZA (fallBackInstant + 1800000)) 22
                = Some 1762059600000) by (vm_compute; reflexivity).
  assert (H23 : nth_error (buildSlots newYorkTZA (fallBackInstant + 1800000)) 23
                = Some 1762059600000) by (vm_compute; reflexivity).
  split; [exact H22|]. split; [exact H23|].
  split; [vm_compute; reflexivity|].
  intros (_ & Hspaced & _).
  specialize (Hspaced 22%nat _ _ H22 H23). discriminate Hspaced.
Qed.

(** During the hour before and the hour after the change the local clock
    shows 1:xx, and [setMinutes(0, 0, 0)] lands on 05:00 UTC both times. *)
Lemma newYork_slot (t : Z) :
  fallBackInstant - 3600000 <= t < fallBackInstant + 3600000 ->
  setMinutes000 newYorkTZA t = fallBackInstant - 3600000.
Proof.
  intros Ht. unfold setMinutes000, utc, localTime.
  rewrite makeDate_top_of_hour.
  unfold newYorkTZA, msPerHour, fallBackInstant in *.
  destruct (t <? 1762063200000) eqn:E;
    [apply Z.ltb_lt in E | apply Z.ltb_ge in E].
  - assert (Hm : (t + -14400000) mod 3600000 = t - 1762059600000).
    { symmetry. apply (Z.mod_unique_pos _ _ 489457); lia. }
    rewrite Hm.
    replace (t + -14400000 - (t - 1762059600000)) with 1762045200000 by lia.
    reflexivity.
  - assert (Hm : (t + -18000000) mod 3600000 = t - 1762063200000).
    { symmetry. apply (Z.mod_unique_pos _ _ 489457); lia. }
    rewrite Hm.
    replace (t + -18000000 - (t - 1762063200000)) with 1762045200000 by lia.
    reflexivity.
Qed.

(** The slots are not consecutive hours at any [now] of the 23 hours that
    follow the change. *)
Lemma buildSlots_after_fall_back (now : Z) :
  fallBackInstant <= now < fallBackInstant + 23 * 3600000 ->
  ~ slotsAsSpecified newYorkTZA now (buildSlots newYorkTZA now).
Proof.
  intros Hnow (_ & Hspaced & _).
  pose proof (Z.div_mod (now - fallBackInstant) 3600000 ltac:(lia)) as Hdm.
  pose proof (Z.mod_pos_bound (now - fallBackInstant) 3600000 ltac:(lia)) as Hr.
  set (j := (now - fallBackInstant) / 3600000) in *.
  assert (Hj : 0 <= j <= 22) by lia.
  set (k := Z.to_nat (22 - j)).
  assert (Hk : (k <= 22)%nat) by (subst k; lia).
  unfold buildSlots in Hspaced.
  specialize (Hspaced k _ _
                (slotsFrom_nth_error newYorkTZA now 23 k ltac:(lia))
                (slotsFrom_nth_error newYorkTZA now 23 (S k) ltac:(lia))).
  rewrite !newYork_slot in Hspaced; [lia | |].
  - replace (Z.of_nat (23 - S k)) with j by (subst k; lia). lia.
  - replace (Z.of_nat (23 - k)) with (j + 1) by (subst k; lia). lia.
Qed.

(** The claim C4 as it is worded fails on a [checkIns] that is a string:
    it is neither an array nor a mapping, and the result is not empty. *)
Lemma getCheckInsArray_string_counterexample :
  isArray (prop (VObj [("name", VStr "Ann"); ("checkIns", VStr "none")])
                "checkIns") = false /\
  (forall mapping,
      prop (VObj [("name", VStr "Ann"); ("checkIns", VStr "none")]) "checkIns"
      <> VObj mapping) /\
  getCheckInsArray (VObj [("name", VStr "Ann"); ("checkIns", VStr "none")])
  = [VStr "n"; VStr "o"; VStr "n"; VStr "e"] /\
  getCheckInsArray (VObj [("name", VStr "Ann"); ("checkIns", VStr "none")])
  <> [].
Proof.
  split; [reflexivity|]. split; [intros mapping; discriminate|].
  split; [reflexivity | discriminate].
Qed.

Lemma getLastCheck_latest_wins_witness :
  (allEntries (getCheckInsArray samplePatient) = true /\
   In entryB (getCheckInsArray samplePatient) /\
   instantOf sampleDateParse entryB = Some 1763628900000 /\
   (forall e t', In e (getCheckInsArray samplePatient) ->
                 instantOf sampleDateParse e = Some t' ->
                 e = entryB \/ t' < 1763628900000) /\
   Permutation (getCheckInsArray samplePatient)
               (getCheckInsArray samplePatientKeyed) /\
   intervalOf samplePatientKeyed = intervalOf samplePatient /\
   toNumber sampleStringToNumber sampleObjectToNumber
            (intervalOf samplePatient) = Ok (Some 60%Q)) /\
  exists r,
    getLastCheck sampleDateParse sampleLocaleString sampleStringToNumber
                 sampleObjectToNumber samplePatient sampleNow = Ok r /\
    getLastCheck sampleDateParse sampleLocaleString sampleStringToNumber
                 sampleObjectToNumber samplePatientKeyed sampleNow = Ok r /\
    display r = sampleLocaleString 1763628900000 /\
    date r = Some 1763628900000 /\
    staff r = (if truthy (prop entryB "staff") then prop entryB "staff"
               else VStr "") /\
    (forall s, prop entryB "staff" = VStr s -> staff r = VStr s) /\
    (prop entryB "staff" = VUndefined -> staff r = VStr "") /\
    (forall q, Some 60%Q = Some q ->
               (isOverdue r = true <->
                (q < minutesSince sampleNow 1763628900000)%Q)) /\
    (Some 60%Q = None -> isOverdue r = false).
Proof.
  assert (H1 : allEntries (getCheckInsArray samplePatient) = true)
    by reflexivity.
  assert (H2 : In entryB (getCheckInsArray samplePatient))
    by (right; left; reflexivity).
  assert (H3 : instantOf sampleDateParse entryB = Some 1763628900000)
    by reflexivity.
  assert (H4 : forall e t', In e (getCheckInsArray samplePatient) ->
                            instantOf sampleDateParse e = Some t' ->
                            e = entryB \/ t' < 1763628900000).
  { intros e t' [<- | [<- | []]] Ht.
    - right. vm_compute in Ht. injection Ht as <-. reflexivity.
    - left. reflexivity. }
  assert (H5 : Permutation (getCheckInsArray samplePatient)
                           (getCheckInsArray samplePatientKeyed))
    by apply perm_swap.
  assert (H6 : intervalOf samplePatientKeyed = intervalOf samplePatient)
    by reflexivity.
  assert (H7 : toNumber sampleStringToNumber sampleObjectToNumber
                        (intervalOf samplePatient) = Ok (Some 60%Q))
    by reflexivity.
  split; [auto 10|].
  exact (getLastCheck_latest_wins sampleDateParse sampleLocaleString
           sampleStringToNumber sampleObjectToNumber samplePatient
           samplePatientKeyed sampleNow entryB 1763628900000 (Some 60%Q)
           H1 H2 H3 H4 H5 H6 H7).
Defined.

Lemma hasCheckInInSlot_half_open_witness :
  allEntries (getCheckInsArray samplePatient) = true /\
  exists b,
    hasCheckInInSlot sampleDateParse samplePatient 1763622000000 = Ok b /\
    (b = true <->
     exists ci t, In ci (getCheckInsArray samplePatient) /\
                  instantOf sampleDateParse ci = Some t /\
                  1763622000000 <= t < 1763622000000 + 3600000).
Proof.
  assert (H1 : allEntries (getCheckInsArray samplePatient) = true)
    by reflexivity.
  split; [exact H1|].
  exact (hasCheckInInSlot_half_open sampleDateParse samplePatient
           1763622000000 H1).
Defined.

Lemma getLastCheck_none_witness :
  (getCheckInsArray samplePatientUnparsed = [] \/
   (allEntries (getCheckInsArray samplePatientUnparsed) = true /\
    forall e, In e (getCheckInsArray samplePatientUnparsed) ->
              instantOf sampleDateParse e = None)) /\
  getLastCheck sampleDateParse sampleLocaleString sampleStringToNumber
               sampleObjectToNumber samplePatientUnparsed sampleNow =
  Ok {| display := "None"; date := None; staff := VStr "";
        isOverdue := true |}.
Proof.
  assert (H : getCheckInsArray samplePatientUnparsed = [] \/
              (allEntries (getCheckInsArray samplePatientUnparsed) = true /\
               forall e, In e (getCheckInsArray samplePatientUnparsed) ->
                         instantOf sampleDateParse e = None)).
  { right. split; [reflexivity|].
    intros e [<- | [<- | []]]; reflexivity. }
  split; [exact H|].
  exact (getLastCheck_none sampleDateParse sampleLocaleString
           sampleStringToNumber sampleObjectToNumber samplePatientUnparsed
           sampleNow H).
Defined.

Lemma getLastCheck_pure_witness :
  (getCheckInsArray samplePatient = getCheckInsArray samplePatientOther /\
   intervalOf samplePatient = intervalOf samplePatientOther) /\
  getLastCheck sampleDateParse sampleLocaleString sampleStringToNumber
               sampleObjectToNumber samplePatient sampleNow =
  getLastCheck sampleDateParse sampleLocaleString sampleStringToNumber
               sampleObjectToNumber samplePatientOther sampleNow.
Proof.
  assert (H1 : getCheckInsArray samplePatient
               = getCheckInsArray samplePatientOther) by reflexivity.
  assert (H2 : intervalOf samplePatient = intervalOf samplePatientOther)
    by reflexivity.
  split; [split; assumption|].
  exact (getLastCheck_pure sampleDateParse sampleLocaleString
           sampleStringToNumber sampleObjectToNumber samplePatient
           samplePatientOther sampleNow H1 H2).
Defined.

Lemma parseCheckTime_null_on_failure_witness :
  ((typeofString VNull = false \/
    (exists s, VNull = VStr s /\ sampleDateParse (cleaned s) = None)) /\
   parseCheckTime sampleDateParse VNull = None) /\
  ((typeofString (VStr "garbage") = false \/
    (exists s, VStr "garbage" = VStr s /\
               sampleDateParse (cleaned s) = None)) /\
   parseCheckTime sampleDateParse (VStr "garbage") = None).
Proof.
  assert (H1 : typeofString VNull = false \/
               (exists s, VNull = VStr s /\
                          sampleDateParse (cleaned s) = None))
    by (left; reflexivity).
  assert (H2 : typeofString (VStr "garbage") = false \/
               (exists s, VStr "garbage" = VStr s /\
                          sampleDateParse (cleaned s) = None))
    by (right; exists "garbage"; split; reflexivity).
  split; (split; [assumption|]).
  - exact (parseCheckTime_null_on_failure sampleDateParse VNull H1).
  - exact (parseCheckTime_null_on_failure sampleDateParse (VStr "garbage") H2).
Defined.

Lemma getLastCheck_future_not_overdue_witness :
  (allEntries (getCheckInsArray samplePatient) = true /\
   In entryB (getCheckInsArray samplePatient) /\
   instantOf sampleDateParse entryB = Some 1763628900000 /\
   (forall e t', In e (getCheckInsArray samplePatient) ->
                 instantOf sampleDateParse e = Some t' ->
                 t' <= 1763628900000) /\
   1763618125000 < 1763628900000 /\
   (prop samplePatient "checkInInterval" = VNum 60 \/
    (prop samplePatient "checkInInterval" = VUndefined /\ (60 == 0)%Q)) /\
   (0 <= 60)%Q) /\
  ((minutesSince 1763618125000 1763628900000 < 0)%Q /\
   exists r,
     getLastCheck sampleDateParse sampleLocaleString sampleStringToNumber
                  sampleObjectToNumber samplePatient 1763618125000 = Ok r /\
     date r = Some 1763628900000 /\
     isOverdue r = false).
Proof.
  assert (H1 : allEntries (getCheckInsArray samplePatient) = true)
    by reflexivity.
  assert (H2 : In entryB (getCheckInsArray samplePatient))
    by (right; left; reflexivity).
  assert (H3 : instantOf sampleDateParse entryB = Some 1763628900000)
    by reflexivity.
  assert (H4 : forall e t', In e (getCheckInsArray samplePatient) ->
                            instantOf sampleDateParse e = Some t' ->
                            t' <= 1763628900000).
  { intros e t' [<- | [<- | []]] Ht; vm_compute in Ht;
      injection Ht as <-; discriminate. }
  assert (H5 : 1763618125000 < 1763628900000) by reflexivity.
  assert (H6 : prop samplePatient "checkInInterval" = VNum 60 \/
               (prop samplePatient "checkInInterval" = VUndefined /\
                (60 == 0)%Q))
    by (left; reflexivity).
  assert (H7 : (0 <= 60)%Q) by discriminate.
  split; [auto 10|].
  exact (getLastCheck_future_not_overdue sampleDateParse sampleLocaleString
           sampleStringToNumber sampleObjectToNumber samplePatient
           1763618125000 entryB 1763628900000 60%Q H1 H2 H3 H4 H5 H6 H7).
Defined.

Lemma getCheckInsArray_shapes_witness :
  getCheckInsArray samplePatient = [entryA; entryB] /\
  getCheckInsArray samplePatientKeyed = [entryB; entryA] /\
  getCheckInsArray VNull = [] /\
  getCheckInsArray (VObj [("name", VStr "Ann")]) = [].
Proof.
  split; [|split; [|split]].
  - exact (proj1 (proj2 (proj2 (getCheckInsArray_shapes samplePatient)))
                 [entryA; entryB] eq_refl).
  - exact (proj1 (proj2 (proj2 (proj2
             (getCheckInsArray_shapes samplePatientKeyed))))
                 [("k2", entryB); ("k1", entryA)] eq_refl).
  - exact (proj1 (getCheckInsArray_shapes VNull) eq_refl).
  - exact (proj1 (proj2 (getCheckInsArray_shapes (VObj [("name", VStr "Ann")])))
                 eq_refl).
Defined.

(** The end-to-end run of the specification: checked two hours ago by A and
    five minutes ago by B, with an interval of 60 minutes. *)
Example getLastCheck_end_to_end :
  getLastCheck sampleDateParse sampleLocaleString sampleStringToNumber
               sampleObjectToNumber samplePatient sampleNow =
  Ok {| display := "a date"; date := Some 1763628900000;
        staff := VStr "B"; isOverdue := false |}.
Proof. vm_compute. reflexivity. Qed.

(** One millisecond past the interval the patient is overdue; exactly at
    the interval it is not. *)
Example isPatientOverdue_boundary :
  isPatientOverdue sampleDateParse sampleLocaleString sampleStringToNumber
                   sampleObjectToNumber samplePatient
                   (1763628900000 + 60 * 60000) = Ok false /\
  isPatientOverdue sampleDateParse sampleLocaleString sampleStringToNumber
                   sampleObjectToNumber samplePatient
                   (1763628900000 + 60 * 60000 + 1) = Ok true.
Proof. split; vm_compute; reflexivity. Qed.

(** ** The further statements on the sample environments *)

Lemma getLastCheck_tie_keeps_first_witness :
  (getCheckInsArray samplePatientTie = ([entryA] ++ entryB :: [entryC])%list /\
   allEntries (getCheckInsArray samplePatientTie) = true /\
   instantOf sampleDateParse entryB = Some 1763628900000 /\
   (forall x t', In x [entryA] -> instantOf sampleDateParse x = Some t' ->
                 t' < 1763628900000) /\
   (forall x t', In x [entryC] -> instantOf sampleDateParse x = Some t' ->
                 t' <= 1763628900000) /\
   toNumber sampleStringToNumber sampleObjectToNumber
            (intervalOf samplePatientTie) = Ok (Some 60%Q)) /\
  exists r,
    getLastCheck sampleDateParse sampleLocaleString sampleStringToNumber
                 sampleObjectToNumber samplePatientTie sampleNow = Ok r /\
    date r = Some 1763628900000 /\
    staff r = (if truthy (prop entryB "staff") then prop entryB "staff"
               else VStr "") /\
    (forall s, prop entryB "staff" = VStr s -> staff r = VStr s) /\
    display r = sampleLocaleString 1763628900000.
Proof.
  assert (H1 : getCheckInsArray samplePatientTie
               = ([entryA] ++ entryB :: [entryC])%list) by reflexivity.
  assert (H2 : allEntries (getCheckInsArray samplePatientTie) = true)
    by reflexivity.
  assert (H3 : instantOf sampleDateParse entryB = Some 1763628900000)
    by reflexivity.
  assert (H4 : forall x t', In x [entryA] ->
                            instantOf sampleDateParse x = Some t' ->
                            t' < 1763628900000).
  { intros x t' [<- | []] Ht. vm_compute in Ht. injection Ht as <-.
    reflexivity. }
  assert (H5 : forall x t', In x [entryC] ->
                            instantOf sampleDateParse x = Some t' ->
                            t' <= 1763628900000).
  { intros x t' [<- | []] Ht. vm_compute in Ht. injection Ht as <-.
    discriminate. }
  assert (H6 : toNumber sampleStringToNumber sampleObjectToNumber
                        (intervalOf samplePatientTie) = Ok (Some 60%Q))
    by reflexivity.
  split; [auto 10|].
  exact (getLastCheck_tie_keeps_first sampleDateParse sampleLocaleString
           sampleStringToNumber sampleObjectToNumber samplePatientTie
           sampleNow [entryA] [entryC] entryB 1763628900000 (Some 60%Q)
           H1 H2 H3 H4 H5 H6).
Defined.

Lemma getLastCheck_overdue_persists_witness :
  (sampleNow + 3600000 <= sampleNow + 7200000 /\
   getLastCheck sampleDateParse sampleLocaleString sampleStringToNumber
                sampleObjectToNumber samplePatient (sampleNow + 3600000) =
   Ok {| display := "a date"; date := Some 1763628900000;
         staff := VStr "B"; isOverdue := true |}) /\
  exists r',
    getLastCheck sampleDateParse sampleLocaleString sampleStringToNumber
                 sampleObjectToNumber samplePatient (sampleNow + 7200000)
    = Ok r' /\
    display r' = "a date" /\ date r' = Some 1763628900000 /\
    staff r' = VStr "B" /\ (true = true -> isOverdue r' = true).
Proof.
  assert (H1 : sampleNow + 3600000 <= sampleNow + 7200000) by discriminate.
  assert (H2 : getLastCheck sampleDateParse sampleLocaleString
                 sampleStringToNumber sampleObjectToNumber samplePatient
                 (sampleNow + 3600000) =
               Ok {| display := "a date"; date := Some 1763628900000;
                     staff := VStr "B"; isOverdue := true |})
    by (vm_compute; reflexivity).
  split; [auto|].
  exact (getLastCheck_overdue_persists sampleDateParse sampleLocaleString
           sampleStringToNumber sampleObjectToNumber samplePatient
           (sampleNow + 3600000) (sampleNow + 7200000) _ H1 H2).
Defined.

Lemma getLastCheck_ignores_weaker_entry_witness :
  (getCheckInsArray samplePatient = ([entryA] ++ [entryB])%list /\
   getCheckInsArray samplePatientWithGarbage
   = ([entryA] ++ entryGarbage :: [entryB])%list /\
   intervalOf samplePatientWithGarbage = intervalOf samplePatient /\
   nullish entryGarbage = false /\
   (instantOf sampleDateParse entryGarbage = None \/
    exists t e t', instantOf sampleDateParse entryGarbage = Some t /\
                   In e ([entryA] ++ [entryB]) /\
                   instantOf sampleDateParse e = Some t' /\ t < t')) /\
  getLastCheck sampleDateParse sampleLocaleString sampleStringToNumber
               sampleObjectToNumber samplePatientWithGarbage sampleNow =
  getLastCheck sampleDateParse sampleLocaleString sampleStringToNumber
               sampleObjectToNumber samplePatient sampleNow.
Proof.
  assert (H1 : getCheckInsArray samplePatient = ([entryA] ++ [entryB])%list)
    by reflexivity.
  assert (H2 : getCheckInsArray samplePatientWithGarbage
               = ([entryA] ++ entryGarbage :: [entryB])%list) by reflexivity.
  assert (H3 : intervalOf samplePatientWithGarbage = intervalOf samplePatient)
    by reflexivity.
  assert (H4 : nullish entryGarbage = false) by reflexivity.
  assert (H5 : instantOf sampleDateParse entryGarbage = None \/
               exists t e t',
                 instantOf sampleDateParse entryGarbage = Some t /\
                 In e ([entryA] ++ [entryB]) /\
                 instantOf sampleDateParse e = Some t' /\ t < t')
    by (left; reflexivity).
  split; [auto 10|].
  exact (getLastCheck_ignores_weaker_entry sampleDateParse sampleLocaleString
           sampleStringToNumber sampleObjectToNumber samplePatient
           samplePatientWithGarbage sampleNow [entryA] [entryB] entryGarbage
           H1 H2 H3 H4 H5).
Defined.

Lemma buildSlots_partition_witness :
  ((forall u, sampleNow + 1500000 - 24 * 3600000 < u <= sampleNow + 1500000 ->
              fixedTZA (-18000000) u true = -18000000) /\
   (forall u, sampleNow + 1500000 - 24 * 3600000 < u - -18000000
              <= sampleNow + 1500000 ->
              fixedTZA (-18000000) u false = -18000000)) /\
  ((sampleNow + 1500000 - 23 * 3600000 <= sampleNow <= sampleNow + 1500000 ->
    exists i s,
      nth_error (buildSlots (fixedTZA (-18000000)) (sampleNow + 1500000)) i
      = Some s /\ s <= sampleNow < s + 3600000) /\
   (forall i j s s',
       nth_error (buildSlots (fixedTZA (-18000000)) (sampleNow + 1500000)) i
       = Some s ->
       nth_error (buildSlots (fixedTZA (-18000000)) (sampleNow + 1500000)) j
       = Some s' ->
       s <= sampleNow < s + 3600000 -> s' <= sampleNow < s' + 3600000 ->
       i = j) /\
   (sampleNow <= sampleNow + 1500000 - 24 * 3600000 \/
    sampleNow + 1500000 + 3600000 <= sampleNow ->
    forall i s,
      nth_error (buildSlots (fixedTZA (-18000000)) (sampleNow + 1500000)) i
      = Some s -> ~ s <= sampleNow < s + 3600000)).
Proof.
  assert (H1 : forall u,
             sampleNow + 1500000 - 24 * 3600000 < u <= sampleNow + 1500000 ->
             fixedTZA (-18000000) u true = -18000000)
    by (intros u _; reflexivity).
  assert (H2 : forall u,
             sampleNow + 1500000 - 24 * 3600000 < u - -18000000
             <= sampleNow + 1500000 ->
             fixedTZA (-18000000) u false = -18000000)
    by (intros u _; reflexivity).
  split; [split; assumption|].
  exact (buildSlots_partition (fixedTZA (-18000000)) (sampleNow + 1500000)
           (-18000000) sampleNow H1 H2).
Defined.

Lemma buildSlots_labels_witness :
  ((forall t, sampleNow + 1500000 - 24 * 3600000 < t <= sampleNow + 1500000 ->
              fixedTZA (-18000000) t true = -18000000) /\
   (forall t, sampleNow + 1500000 - 24 * 3600000 < t - -18000000
              <= sampleNow + 1500000 ->
              fixedTZA (-18000000) t false = -18000000)) /\
  NoDup (map (getHours (fixedTZA (-18000000)))
             (buildSlots (fixedTZA (-18000000)) (sampleNow + 1500000))).
Proof.
  assert (H1 : forall t,
             sampleNow + 1500000 - 24 * 3600000 < t <= sampleNow + 1500000 ->
             fixedTZA (-18000000) t true = -18000000)
    by (intros t _; reflexivity).
  assert (H2 : forall t,
             sampleNow + 1500000 - 24 * 3600000 < t - -18000000
             <= sampleNow + 1500000 ->
             fixedTZA (-18000000) t false = -18000000)
    by (intros t _; reflexivity).
  split; [split; assumption|].
  exact (proj1 (proj2 (proj2 (proj2
           (buildSlots_labels (fixedTZA (-18000000)) (sampleNow + 1500000)
                              (-18000000) H1 H2))))).
Defined.

Lemma gridRow_cells_witness :
  allEntries (getCheckInsArray samplePatient) = true /\
  exists cells,
    gridRow sampleDateParse samplePatient [1763622000000; 1763625600000]
    = Ok cells /\
    List.length cells = List.length [1763622000000; 1763625600000] /\
    forall i slot,
      nth_error [1763622000000; 1763625600000] i = Some slot ->
      exists b,
        nth_error cells i = Some b /\
        (b = true <->
         exists ci t, In ci (getCheckInsArray samplePatient) /\
                      instantOf sampleDateParse ci = Some t /\
                      slot <= t < slot + 3600000).
Proof.
  assert (H1 : allEntries (getCheckInsArray samplePatient) = true)
    by reflexivity.
  split; [exact H1|].
  exact (gridRow_cells sampleDateParse samplePatient
           [1763622000000; 1763625600000] H1).
Defined.

Lemma gridRow_recent_check_witness :
  ((forall u, sampleNow + 1500000 - 24 * 3600000 < u <= sampleNow + 1500000 ->
              fixedTZA (-18000000) u true = -18000000) /\
   (forall u, sampleNow + 1500000 - 24 * 3600000 < u - -18000000
              <= sampleNow + 1500000 ->
              fixedTZA (-18000000) u false = -18000000) /\
   allEntries (getCheckInsArray samplePatient) = true) /\
  exists cells,
    gridRow sampleDateParse samplePatient
            (buildSlots (fixedTZA (-18000000)) (sampleNow + 1500000))
    = Ok cells /\
    List.length cells = 24%nat /\
    ((exists ci t, In ci (getCheckInsArray samplePatient) /\
                   instantOf sampleDateParse ci = Some t /\
                   sampleNow + 1500000 - 23 * 3600000 <= t
                   <= sampleNow + 1500000) ->
     In true cells) /\
    ((forall ci t, In ci (getCheckInsArray samplePatient) ->
                   instantOf sampleDateParse ci = Some t ->
                   t <= sampleNow + 1500000 - 24 * 3600000 \/
                   sampleNow + 1500000 + 3600000 <= t) ->
     Forall (fun b => b = false) cells).
Proof.
  assert (H1 : forall u,
             sampleNow + 1500000 - 24 * 3600000 < u <= sampleNow + 1500000 ->
             fixedTZA (-18000000) u true = -18000000)
    by (intros u _; reflexivity).
  assert (H2 : forall u,
             sampleNow + 1500000 - 24 * 3600000 < u - -18000000
             <= sampleNow + 1500000 ->
             fixedTZA (-18000000) u false = -18000000)
    by (intros u _; reflexivity).
  assert (H3 : allEntries (getCheckInsArray samplePatient) = true)
    by reflexivity.
  split; [auto|].
  exact (gridRow_recent_check sampleDateParse (fixedTZA (-18000000))
           samplePatient (sampleNow + 1500000) (-18000000) H1 H2 H3).
Defined.

Lemma checkinRows_sorted_witness :
  exists rows,
    checkinRows sampleDateParse samplePatients = Ok rows /\
    StronglySorted (fun a b => row_date b <= row_date a) rows.
Proof.
  eexists. split; [vm_compute; reflexivity|].
  apply (checkinRows_sorted sampleDateParse samplePatients).
  vm_compute. reflexivity.
Defined.

Lemma checkinRows_has_last_check_witness :
  exists rows r,
    (checkinRows sampleDateParse samplePatients = Ok rows /\
     In samplePatient samplePatients /\
     getLastCheck sampleDateParse sampleLocaleString sampleStringToNumber
                  sampleObjectToNumber samplePatient sampleNow = Ok r /\
     date r = Some 1763628900000) /\
    ((exists row, In row rows /\ row_date row = 1763628900000 /\
                  row_patient row = prop samplePatient "name" /\
                  row_staff row = staff r) /\
     (exists top rest, rows = top :: rest /\
                       1763628900000 <= row_date top)).
Proof.
  eexists. eexists.
  assert (H2 : In samplePatient samplePatients) by (left; reflexivity).
  split.
  - split; [vm_compute; reflexivity|]. split; [exact H2|].
    split; [vm_compute; reflexivity | reflexivity].
  - apply (checkinRows_has_last_check sampleDateParse sampleLocaleString
             sampleStringToNumber sampleObjectToNumber samplePatients _
             samplePatient sampleNow _ 1763628900000);
      [vm_compute; reflexivity | exact H2 | vm_compute; reflexivity
       | reflexivity].
Defined.

Lemma hasRole_up_to_case_witness :
  lowerLetters "admin" = true /\
  (hasRole "admin" (VObj [("role", VStr "ADMIN")]) = Ok true <->
   exists s, prop (VObj [("role", VStr "ADMIN")]) "role" = VStr s /\
             sameUpToCase s "admin").
Proof.
  assert (H : lowerLetters "admin" = true) by reflexivity.
  split; [exact H|].
  exact (proj2 (hasRole_up_to_case "admin" (VObj [("role", VStr "ADMIN")])) H).
Defined.

Lemma users_page_and_link_witness :
  exists a links,
    (adminUsersAccess sampleManager = Ok a /\
     sidebarLinks sampleManager = Ok links) /\
    isManager a = true /\ refused a = false /\
    ~ In ("/users", "Users") links.
Proof.
  eexists. eexists.
  assert (H1 : adminUsersAccess sampleManager
               = Ok {| isAdmin := false; isManager := true;
                       canReset := true; canChangeRole := false;
                       refused := false |}) by reflexivity.
  assert (H2 : sidebarLinks sampleManager
               = Ok [("/", "Dashboard"); ("/patients", "Patients");
                     ("/rounding-graph", "Rounding Graph");
                     ("/reports", "Reports")]) by reflexivity.
  split; [split; [exact H1 | exact H2]|].
  pose proof (users_page_and_link sampleManager _ _ H1 H2)
    as (_ & _ & Hm & _).
  destruct (Hm eq_refl) as (Hr & _ & _ & Hl).
  split; [reflexivity|]. split; [exact Hr | exact Hl].
Defined.

Lemma changeRole_composes_witness :
  "u1" <> "u2" /\
  changeRole "u1" (VStr "Admin") (changeRole "u2" (VStr "Manager") sampleUsers)
  = changeRole "u2" (VStr "Manager")
               (changeRole "u1" (VStr "Admin") sampleUsers).
Proof.
  assert (H : "u1" <> "u2") by discriminate.
  split; [exact H|].
  exact (proj2 (changeRole_composes "u1" "u2" (VStr "Admin") (VStr "Manager")
                                    sampleUsers) H).
Defined.

Lemma withId_reads_document_witness :
  NoDup (map fst sampleDocument) /\
  getCheckInsArray (withId "p1" sampleDocument) = [entryA; entryB] /\
  prop (withId "p1" sampleDocument) "id" = VStr "p1".
Proof.
  assert (H : NoDup (map fst sampleDocument)).
  { repeat constructor; simpl; intros F;
      repeat (destruct F as [F | F]; [discriminate|]); exact F. }
  split; [exact H|].
  pose proof (withId_reads_document sampleDateParse sampleLocaleString
                sampleStringToNumber sampleObjectToNumber "p1"
                sampleDocument H) as (_ & Hid & Harr & _).
  split; [exact Harr | exact Hid].
Defined.

(** The report of the sample patients with a locale whose dates hold a
    comma. *)
Example exportCSV_sample :
  exportCSV sampleDateParse (fun _ => "11/20/2025, 3:55:00 AM")
            sampleStringToNumber sampleObjectToNumber sampleNumberToString
            [samplePatient; samplePatientUnparsed] sampleNowAt
  = Ok ("Patient,Location,Interval,Last Check,Last Staff" ++ newline ++
        "Ann,Room 4,60,11/20/2025, 3:55:00 AM,B" ++ newline ++
        ",,30,None,").
Proof. vm_compute. reflexivity. Qed.

Lemma exportCSV_cells_not_quoted_witness :
  exportCSV sampleDateParse (fun _ => "11/20/2025, 3:55:00 AM")
            sampleStringToNumber sampleObjectToNumber sampleNumberToString
            [samplePatient; samplePatientUnparsed] sampleNowAt
  = Ok ("Patient,Location,Interval,Last Check,Last Staff" ++ newline ++
        "Ann,Room 4,60,11/20/2025, 3:55:00 AM,B" ++ newline ++
        ",,30,None,") /\
  exists line,
    line = "Ann,Room 4,60,11/20/2025, 3:55:00 AM,B" /\
    countChar "," line = 5%nat.
Proof.
  assert (H : exportCSV sampleDateParse (fun _ => "11/20/2025, 3:55:00 AM")
                sampleStringToNumber sampleObjectToNumber
                sampleNumberToString
                [samplePatient; samplePatientUnparsed] sampleNowAt
              = Ok ("Patient,Location,Interval,Last Check,Last Staff"
                    ++ newline ++
                    "Ann,Room 4,60,11/20/2025, 3:55:00 AM,B" ++ newline ++
                    ",,30,None,"))
    by (vm_compute; reflexivity).
  split; [exact H|].
  destruct (exportCSV_cells_not_quoted _ _ _ _ _ _ _ _ H)
    as (lines & _ & _ & Hk).
  destruct (Hk 0%nat samplePatient eq_refl)
    as (last & line & n & l & iv & st & _ & Hlast & Hn & Hl & Hiv & Hst
        & Hline & Hcount & _).
  exists line.
  assert (Hlast' : last = {| display := "11/20/2025, 3:55:00 AM";
                             date := Some 1763628900000;
                             staff := VStr "B"; isOverdue := false |})
    by (vm_compute in Hlast; congruence).
  subst last.
  vm_compute in Hn, Hl, Hiv, Hst.
  assert (n = "Ann") by congruence.
  assert (l = "Room 4") by congruence.
  assert (iv = "60") by congruence.
  assert (st = "B") by congruence.
  subst n l iv st. cbn [display] in Hline, Hcount.
  split; [exact Hline|]. rewrite Hcount. reflexivity.
Defined.

Example dashboard_sample :
  dashboard sampleDateParse sampleLocaleString sampleStringToNumber
            sampleObjectToNumber samplePatients sampleNowAt
  = Ok {| total := 3; overdue := 1; onTime := 2 |}.
Proof. vm_compute. reflexivity. Qed.

(** A [checkInInterval] that is a map with a field [toString]: the
    comparison throws, and so do the dashboard and the report. *)
Example getLastCheck_map_interval :
  getLastCheck sampleDateParse sampleLocaleString sampleStringToNumber
               sampleObjectToNumber samplePatientMapInterval sampleNow
  = TypeError /\
  dashboard sampleDateParse sampleLocaleString sampleStringToNumber
            sampleObjectToNumber [samplePatient; samplePatientMapInterval]
            sampleNowAt
  = TypeError /\
  exportCSV sampleDateParse sampleLocaleString sampleStringToNumber
            sampleObjectToNumber sampleNumberToString
            [VObj [("name", VObj [("toString", VNum 1)])]] sampleNowAt
  = TypeError.
Proof. repeat split; vm_compute; reflexivity. Qed.

Lemma dashboard_overdue_grows_witness :
  ((forall i, sampleNowAt i <= sampleLaterAt i) /\
   dashboard sampleDateParse sampleLocaleString sampleStringToNumber
             sampleObjectToNumber samplePatients sampleNowAt
   = Ok {| total := 3; overdue := 1; onTime := 2 |}) /\
  exists c',
    dashboard sampleDateParse sampleLocaleString sampleStringToNumber
              sampleObjectToNumber samplePatients sampleLaterAt = Ok c' /\
    total c' = 3 /\ 1 <= overdue c' <= 3 /\ 0 <= onTime c' <= 2.
Proof.
  assert (H1 : forall i, sampleNowAt i <= sampleLaterAt i)
    by (intros i; unfold sampleLaterAt; lia).
  assert (H2 : dashboard sampleDateParse sampleLocaleString
                 sampleStringToNumber sampleObjectToNumber samplePatients
                 sampleNowAt
               = Ok {| total := 3; overdue := 1; onTime := 2 |})
    by (vm_compute; reflexivity).
  split; [auto|].
  exact (dashboard_overdue_grows sampleDateParse sampleLocaleString
           sampleStringToNumber sampleObjectToNumber samplePatients
           sampleNowAt sampleLaterAt _ H1 H2).
Defined.

Lemma Shell_requires_sign_in_witness :
  Shell {| firebaseUser := sampleUser; profile := sampleManager;
           loadingAuth := false |} UsersRoute
  = Ok (ShellView commonLinks
          (UsersPage {| isAdmin := false; isManager := true;
                        canReset := true; canChangeRole := false;
                        refused := false |})) /\
  truthy sampleUser = true /\
  ~ In "/check-ins" (map fst commonLinks).
Proof.
  assert (H : Shell {| firebaseUser := sampleUser; profile := sampleManager;
                       loadingAuth := false |} UsersRoute
              = Ok (ShellView commonLinks
                      (UsersPage {| isAdmin := false; isManager := true;
                                    canReset := true; canChangeRole := false;
                                    refused := false |})))
    by reflexivity.
  split; [exact H|].
  pose proof (Shell_requires_sign_in _ _ _ _ H)
    as (Hin & _ & _ & _ & _ & Hc & _).
  split; [exact (Hin eq_refl) | exact Hc].
Defined.

Lemma new_account_is_staff_witness :
  (truthy sampleUser = true /\
   (DocMissing = DocMissing \/
    DocMissing = DocExists (doRegister "Max" "max@example.org"))) /\
  Shell (onAuthStateChanged sampleUser DocMissing initialSession) UsersRoute
  = Ok (ShellView commonLinks AdminsOrManagersOnly).
Proof.
  assert (H1 : truthy sampleUser = true) by reflexivity.
  assert (H2 : DocMissing = DocMissing \/
               DocMissing = DocExists (doRegister "Max" "max@example.org"))
    by (left; reflexivity).
  split; [auto|].
  exact (new_account_is_staff sampleUser "Max" "max@example.org" DocMissing
           initialSession UsersRoute H1 H2).
Defined.

Lemma rejected_read_keeps_profile_witness :
  truthy sampleUser = true /\
  Shell (onAuthStateChanged sampleUser ReadRejected initialSession)
        PatientsRoute
  = Ok LoadingView.
Proof.
  assert (H1 : truthy sampleUser = true) by reflexivity.
  split; [exact H1|].
  pose proof (rejected_read_keeps_profile sampleUser initialSession
                PatientsRoute H1) as (_ & _ & Hload & _).
  exact (Hload eq_refl).
Defined.

Lemma Shell_throws_on_role_witness :
  (nullish (VNum 1) = false /\ typeofString (VNum 1) = false) /\
  Shell {| firebaseUser := VNull; profile := VObj [("role", VNum 1)];
           loadingAuth := false |} RegisterRoute
  = TypeError.
Proof.
  assert (H1 : nullish (prop (VObj [("role", VNum 1)]) "role") = false)
    by reflexivity.
  assert (H2 : typeofString (prop (VObj [("role", VNum 1)]) "role") = false)
    by reflexivity.
  split; [split; [exact H1 | exact H2]|].
  exact (proj1 (Shell_throws_on_role
                  {| firebaseUser := VNull;
                     profile := VObj [("role", VNum 1)];
                     loadingAuth := false |} RegisterRoute H1 H2)).
Defined.

Example Patients_sample :
  exists cards,
    Patients sampleDateParse sampleLocaleString sampleStringToNumber
             sampleObjectToNumber sampleNumberToString samplePatients
             sampleNowAt = Drawn cards /\
    map card_status cards = ["On-time"; "Overdue"; "On-time"].
Proof. eexists. split; vm_compute; reflexivity. Qed.

(** A location that is a map is refused by React; an [id] that is a map
    with a field [toString] cannot be made a [key]. *)
Example Patients_refused_sample :
  Patients sampleDateParse sampleLocaleString sampleStringToNumber
           sampleObjectToNumber sampleNumberToString
           [VObj [("name", VStr "Ann");
                  ("location", VObj [("ward", VStr "B")])]]
           sampleNowAt = Refused /\
  Patients sampleDateParse sampleLocaleString sampleStringToNumber
           sampleObjectToNumber sampleNumberToString
           [VObj [("id", VObj [("toString", VStr "x")])]]
           sampleNowAt = Thrown.
Proof. split; vm_compute; reflexivity. Qed.

(** A sign-out that ends while the profile of an administrator is read:
    nobody is signed in, the Users link is shown, the page is not. *)
Example sessionAfter_sample :
  Shell (sessionAfter [AuthBegin sampleUser; SignOut true;
                       AuthResume sampleUser
                                  (DocExists [("role", VStr "Admin")])])
        UsersRoute
  = Ok (ShellView (commonLinks ++ [("/users", "Users")]) PleaseSignIn).
Proof. reflexivity. Qed.

(** The properties of a loaded document whose key is an array index come
    before [id]. *)
Example withId_sample :
  withId "p1" [("7", VStr "seven"); ("name", VStr "Ann")]
  = VObj [("7", VStr "seven"); ("id", VStr "p1"); ("name", VStr "Ann")] /\
  withId "p1" [("name", VStr "Ann"); ("id", VStr "other")]
  = VObj [("id", VStr "other"); ("name", VStr "Ann")].
Proof. split; reflexivity. Qed.
